(** * Salary Tracker: the salary calculation engine and its live mirror

    A shallow embedding of [server/utils/salaryCalculations.js] (the
    calculation and validation engine) and of [calculateRealTimeValues]
    from the [SalaryTracker] React component, together with the properties
    the specification states about them.

    JavaScript numbers are IEEE 754 binary64 values.  They are modelled by
    [spec_float] with [prec = 53] and [emax = 1024]; the arithmetic
    operators are the correctly rounded operations of [SpecFloat], so every
    definition below evaluates on concrete inputs exactly as the source
    does. *)

From Stdlib Require Import Reals Lra.
From Stdlib Require Import ZArith Lia Bool String Ascii List.
From Stdlib Require Import SpecFloat.

Local Open Scope string_scope.
Local Open Scope Z_scope.

(** ** JavaScript values and the Number operations the engine uses *)

Module JS.

Definition prec : Z := 53.
Definition emax : Z := 1024.

Definition number : Type := spec_float.

(** The values a caller can pass: the engine distinguishes numbers from
    everything else with [typeof]. *)
Inductive value : Type :=
| VUndefined
| VNull
| VBoolean (b : bool)
| VNumber (n : number)
| VString (s : string)
| VObject.

Definition typeof (v : value) : string :=
  match v with
  | VUndefined => "undefined"
  | VNull => "object"
  | VBoolean _ => "boolean"
  | VNumber _ => "number"
  | VString _ => "string"
  | VObject => "object"
  end.

(** [throw new Error(message)] against a normal return. *)
Inductive result (A : Type) : Type :=
| Ok (a : A)
| Throw (message : string).
Arguments Ok {A} a.
Arguments Throw {A} message.

Definition bind {A B} (r : result A) (k : A -> result B) : result B :=
  match r with
  | Ok a => k a
  | Throw msg => Throw msg
  end.

(** A parameter with a default value: [undefined] (or an omitted
    argument) selects the default. *)
Definition default_arg {A} (given : option A) (dflt : A) : A :=
  match given with
  | Some a => a
  | None => dflt
  end.

(** Arithmetic: round-to-nearest, ties-to-even, on binary64. *)
Definition add : number -> number -> number := SFadd prec emax.
Definition sub : number -> number -> number := SFsub prec emax.
Definition mul : number -> number -> number := SFmul prec emax.
Definition div : number -> number -> number := SFdiv prec emax.

(** Relational operators on numbers; every comparison with NaN is false,
    and the two zeros are equal. *)
Definition lt (x y : number) : bool := SFltb x y.
Definition gt (x y : number) : bool := SFltb y x.
Definition le (x y : number) : bool := SFleb x y.
Definition ge (x y : number) : bool := SFleb y x.
Definition strict_eq (x y : number) : bool := SFeqb x y.

Definition Number_isFinite (x : number) : bool :=
  match x with
  | S754_zero _ | S754_finite _ _ _ => true
  | S754_infinity _ | S754_nan => false
  end.

Definition Math_abs (x : number) : number := SFabs x.

(** The integer [n] as a number (exact for [|n| <= 2^53]). *)
Definition of_Z (n : Z) : number := binary_normalize prec emax n 0 false.

(** [Math.round]: the integer nearest to [x], ties towards +Infinity,
    computed exactly, that is [floor (x + 1/2)].  NaN, the infinities and
    the zeros are returned unchanged; a value with a non-negative
    exponent is already an integer; a result of zero keeps the sign of
    [x], so [Math.round(-0.2)] is [-0]. *)
Definition Math_round (x : number) : number :=
  match x with
  | S754_finite s m e =>
      if 0 <=? e then x
      else
        let n := (2 * cond_Zopp s (Zpos m) + 2 ^ (- e)) / 2 ^ (1 - e) in
        if n =? 0 then S754_zero s else of_Z n
  | _ => x
  end.

(** Truthiness of a number: NaN and the zeros are falsy. *)
Definition truthy (x : number) : bool :=
  match x with
  | S754_nan | S754_zero _ => false
  | _ => true
  end.

(** The numeric literals of the source, as the binary64 values nearest
    to them. *)
Definition num_0 : number := S754_zero false.
Definition num_100 : number := S754_finite false 7036874417766400 (-46).
Definition num_0_001 : number := S754_finite false 4611686018427388 (-62).

Definition infinity : number := S754_infinity false.
Definition neg_infinity : number := S754_infinity true.
Definition nan : number := S754_nan.

(** A number a JavaScript program can hold: a canonical binary64 value. *)
Definition is_binary64 (x : number) : bool := valid_binary prec emax x.

(** The decimal literal [n / 10^k] ([n], [10^k] below [2^53]): the
    binary64 value nearest to it, which is what a correctly rounded
    division of the two integers gives. *)
Definition decimal (n : Z) (k : Z) : number := div (of_Z n) (of_Z (10 ^ k)).

End JS.

Import JS.

(** ** The engine: [server/utils/salaryCalculations.js] *)

(** The expression [Math.round(x * 100) / 100], which the source writes out
    at every place where it rounds to two decimals. *)
Definition round2 (x : number) : number :=
  div (Math_round (mul x num_100)) num_100.

Definition calculateRemainingSalary
    (totalMonthlySalary advanceAmountPaid : value) : result number :=
  match totalMonthlySalary, advanceAmountPaid with
  | VNumber total, VNumber advance =>
      if lt total num_0 then
        Throw "Total monthly salary cannot be negative"
      else if lt advance num_0 then
        Throw "Advance amount paid cannot be negative"
      else if gt advance total then
        Throw "Advance amount cannot exceed total monthly salary"
      else
        let remaining := sub total advance in
        Ok (div (Math_round (mul remaining num_100)) num_100)
  | _, _ => Throw "Salary amounts must be numbers"
  end.

(** After the call to [calculateRemainingSalary] has returned, both
    arguments are numbers; [number_of] reads the number back. *)
Definition number_of (v : value) : number :=
  match v with
  | VNumber n => n
  | _ => nan
  end.

Definition determinePaymentStatus
    (totalMonthlySalary advanceAmountPaid : value) : result string :=
  bind (calculateRemainingSalary totalMonthlySalary advanceAmountPaid)
    (fun remainingSalary =>
       let advance := number_of advanceAmountPaid in
       if strict_eq remainingSalary num_0 then Ok "Paid"
       else if gt advance num_0 && gt remainingSalary num_0 then
         Ok "Partially Paid"
       else if strict_eq advance num_0 then Ok "Pending"
       else Throw "Unable to determine payment status with given inputs").

Definition validateMonetaryAmount
    (amount : value) (fieldName : option string) : result bool :=
  let fieldName := default_arg fieldName "amount" in
  match amount with
  | VNumber a =>
      if negb (Number_isFinite a) then
        Throw (fieldName ++ " must be a finite number")
      else if lt a num_0 then
        Throw (fieldName ++ " cannot be negative")
      else
        let rounded := div (Math_round (mul a num_100)) num_100 in
        if gt (Math_abs (sub a rounded)) num_0_001 then
          Throw (fieldName ++ " must have at most 2 decimal places")
        else Ok true
  | _ => Throw (fieldName ++ " must be a number")
  end.

Definition validateAdvanceAmount
    (totalMonthlySalary advanceAmountPaid : value) : result bool :=
  bind (validateMonetaryAmount totalMonthlySalary (Some "Total monthly salary"))
    (fun _ =>
  bind (validateMonetaryAmount advanceAmountPaid (Some "Advance amount paid"))
    (fun _ =>
       if gt (number_of advanceAmountPaid) (number_of totalMonthlySalary) then
         Throw "Advance amount cannot exceed total monthly salary"
       else Ok true)).

Definition calculateAdvancePercentage
    (totalMonthlySalary advanceAmountPaid : value) : result number :=
  bind (validateAdvanceAmount totalMonthlySalary advanceAmountPaid)
    (fun _ =>
       let total := number_of totalMonthlySalary in
       let advance := number_of advanceAmountPaid in
       if strict_eq total num_0 then Ok num_0
       else
         let percentage := mul (div advance total) num_100 in
         Ok (div (Math_round (mul percentage num_100)) num_100)).

Definition isFullyPaid
    (totalMonthlySalary advanceAmountPaid : value) : result bool :=
  bind (calculateRemainingSalary totalMonthlySalary advanceAmountPaid)
    (fun remaining => Ok (strict_eq remaining num_0)).

Definition hasAdvancePayment (advanceAmountPaid : value) : result bool :=
  bind (validateMonetaryAmount advanceAmountPaid (Some "Advance amount paid"))
    (fun _ => Ok (gt (number_of advanceAmountPaid) num_0)).

(** The default currency symbol, U+20B9 (the rupee sign), as its UTF-8
    bytes. *)
Definition rupee : string :=
  String (ascii_of_nat 226) (String (ascii_of_nat 130)
    (String (ascii_of_nat 185) EmptyString)).

Section Formatting.

(** [amount.toLocaleString('en-IN', { minimumFractionDigits: 2,
    maximumFractionDigits: 2 })]: the platform's number formatter, a
    parameter of which nothing is assumed: it returns a string or throws. *)
Variable toLocaleString_en_IN : number -> result string.

Definition formatCurrency
    (amount : value) (currency : option string) : result string :=
  let currency := default_arg currency rupee in
  match amount with
  | VNumber a =>
      if negb (Number_isFinite a) then Ok (currency ++ "0.00")
      else bind (toLocaleString_en_IN a)
             (fun formatted => Ok (currency ++ formatted))
  | _ => Ok (currency ++ "0.00")
  end.

End Formatting.

(** ** The live mirror: [calculateRealTimeValues] of the React component *)

(** The object handed to [setCalculatedValues]. *)
Record calculatedValues : Type := {
  remainingSalary : number;
  paymentStatus : string
}.

(** [x || 0] on a number. *)
Definition or_zero (x : number) : number :=
  if truthy x then x else num_0.

(** The arguments are the results of [parseFloat] on the two form fields;
    the function returns the state it sets. *)
Definition calculateRealTimeValues
    (parsedTotal parsedAdvance : number) : calculatedValues :=
  let totalSalary := or_zero parsedTotal in
  let advanceAmount := or_zero parsedAdvance in
  if lt totalSalary num_0 || lt advanceAmount num_0 then
    {| remainingSalary := num_0; paymentStatus := "Invalid" |}
  else if gt advanceAmount totalSalary then
    {| remainingSalary := num_0;
       paymentStatus := "Invalid - Advance exceeds total" |}
  else
    let remaining := sub totalSalary advanceAmount in
    let status :=
      if strict_eq remaining num_0 && gt totalSalary num_0 then "Paid"
      else if gt advanceAmount num_0 && gt remaining num_0 then "Partially Paid"
      else if strict_eq advanceAmount num_0 then "Pending"
      else "Pending" in
    {| remainingSalary := div (Math_round (mul remaining num_100)) num_100;
       paymentStatus := status |}.

(** ** Sanity checks on concrete inputs *)

Example literal_100 : of_Z 100 = num_100.
Proof. reflexivity. Qed.

Example literal_0_001 : decimal 1 3 = num_0_001.
Proof. vm_compute. reflexivity. Qed.

Example remaining_5000_2000 :
  calculateRemainingSalary (VNumber (of_Z 5000)) (VNumber (of_Z 2000))
  = Ok (of_Z 3000).
Proof. vm_compute. reflexivity. Qed.

Example remaining_3333_33 :
  calculateRemainingSalary (VNumber (decimal 333333 2)) (VNumber (decimal 111111 2))
  = Ok (decimal 222222 2).
Proof. vm_compute. reflexivity. Qed.

Example round_half_up : Math_round (decimal 25 1) = of_Z 3.
Proof. vm_compute. reflexivity. Qed.

Example round_negative_half : Math_round (decimal (-25) 1) = of_Z (-2).
Proof. vm_compute. reflexivity. Qed.

Example round_small_negative : Math_round (decimal (-2) 1) = S754_zero true.
Proof. vm_compute. reflexivity. Qed.

(** ** Signs of the rounded operations

    The facts of this section hold for every format: the sign of a rounded
    result is the sign handed to the rounding function, and rounding never
    produces NaN. *)

(** [SpecFloat] is written with the integer operations of the core
    library; [zfold] shows them to [lia] and to the lemmas of [ZArith] as
    the operations of [ZArith], which have the same definitions. *)
Ltac zfold :=
  change IntDef.Z.add with Z.add in *;
  change IntDef.Z.sub with Z.sub in *;
  change IntDef.Z.mul with Z.mul in *;
  change IntDef.Z.opp with Z.opp in *;
  change IntDef.Z.compare with Z.compare in *;
  change IntDef.Z.leb with Z.leb in *;
  change IntDef.Z.ltb with Z.ltb in *;
  change IntDef.Z.eqb with Z.eqb in *;
  change IntDef.Z.max with Z.max in *;
  change IntDef.Z.min with Z.min in *;
  change IntDef.Z.even with Z.even in *;
  change IntDef.Z.div_eucl with Z.div_eucl in *;
  change IntDef.Z.shiftl with Z.shiftl in *;
  change IntDef.Z.div2 with Z.div2 in *;
  change PosDef.Pos.succ with Pos.succ in *;
  change PosDef.Pos.mul with Pos.mul in *;
  change @PosDef.Pos.iter with @Pos.iter in *;
  change PosDef.Pos.compare_cont with Pos.compare_cont in *.

Section SignFacts.

Variables fprec femax : Z.

(** A result that is a zero, a finite number or an infinity of sign [s]. *)
Definition has_sign (s : bool) (x : spec_float) : Prop :=
  x = S754_zero s \/ (exists m e, x = S754_finite s m e) \/ x = S754_infinity s.

Lemma iter_pos_invariant {A : Type} (P : A -> Prop) (f : A -> A) :
  (forall x, P x -> P (f x)) ->
  forall n x, P x -> P (iter_pos f n x).
Proof.
  intros Hf n; induction n as [n IH | n IH | ]; intros x Hx; simpl.
  - apply IH, IH, Hf, Hx.
  - apply IH, IH, Hx.
  - apply Hf, Hx.
Qed.

Lemma shr_1_nonneg mrs : 0 <= shr_m mrs -> 0 <= shr_m (shr_1 mrs).
Proof.
  destruct mrs as [m r s]; simpl; intros Hm.
  destruct m as [ | [p | p | ] | p ]; simpl; lia.
Qed.

Lemma shr_nonneg mrs e n : 0 <= shr_m mrs -> 0 <= shr_m (fst (shr mrs e n)).
Proof.
  intros Hm; destruct n as [ | p | p ]; simpl; auto.
  apply (iter_pos_invariant (fun r => 0 <= shr_m r)); auto using shr_1_nonneg.
Qed.

Lemma shr_record_of_loc_m m l : shr_m (shr_record_of_loc m l) = m.
Proof. destruct l as [ | [ | | ] ]; reflexivity. Qed.

Lemma shr_fexp_nonneg m e l :
  0 <= m -> 0 <= shr_m (fst (shr_fexp fprec femax m e l)).
Proof.
  intros Hm; unfold shr_fexp; apply shr_nonneg.
  rewrite shr_record_of_loc_m; exact Hm.
Qed.

Lemma round_nearest_even_nonneg m l : 0 <= m -> 0 <= round_nearest_even m l.
Proof.
  intros Hm; destruct l as [ | [ | | ] ]; simpl; try lia.
  destruct (Z.even m); lia.
Qed.

Lemma binary_round_aux_sign sx mx ex lx :
  0 <= mx -> has_sign sx (binary_round_aux fprec femax sx mx ex lx).
Proof.
  intros Hm; unfold binary_round_aux.
  pose proof (shr_fexp_nonneg mx ex lx Hm) as H1.
  destruct (shr_fexp fprec femax mx ex lx) as [mrs' e'] eqn:E1; simpl in H1.
  pose proof (shr_fexp_nonneg
                (round_nearest_even (shr_m mrs') (loc_of_shr_record mrs'))
                e' loc_Exact (round_nearest_even_nonneg _ _ H1)) as H2.
  destruct (shr_fexp fprec femax _ e' loc_Exact) as [mrs'' e''] eqn:E2;
    simpl in H2.
  destruct (shr_m mrs'') as [ | m | m ].
  - left; reflexivity.
  - destruct (e'' <=? femax - fprec).
    + right; left; eauto.
    + right; right; reflexivity.
  - lia.
Qed.

Lemma binary_round_sign sx mx ex :
  has_sign sx (binary_round fprec femax sx mx ex).
Proof.
  unfold binary_round.
  destruct (shl_align mx ex _) as [mz ez].
  apply binary_round_aux_sign; lia.
Qed.

(** [binary_normalize] of a non-negative integer is never negative. *)
Lemma binary_normalize_nonneg m e :
  0 <= m -> has_sign false (binary_normalize fprec femax m e false).
Proof.
  intros Hm; destruct m as [ | p | p ]; simpl.
  - left; reflexivity.
  - apply binary_round_sign.
  - lia.
Qed.

Lemma binary_normalize_not_nan m e :
  binary_normalize fprec femax m e false <> S754_nan.
Proof.
  destruct m as [ | p | p ]; simpl; try discriminate.
  - destruct (binary_round_sign false p e) as [H | [(m' & e' & H) | H]];
      rewrite H; discriminate.
  - destruct (binary_round_sign true p e) as [H | [(m' & e' & H) | H]];
      rewrite H; discriminate.
Qed.

End SignFacts.

(** ** Non-negative numbers *)

(** [nonneg x]: [x] is a number (not NaN) and [x >= 0]. *)
Definition nonneg (x : number) : bool := ge x num_0.

Lemma nonneg_cases x :
  nonneg x = true <->
  (exists s, x = S754_zero s) \/ (exists m e, x = S754_finite false m e)
  \/ x = S754_infinity false.
Proof.
  unfold nonneg, ge, SFleb, num_0; split.
  - destruct x as [s | [ | ] | | [ | ] m e]; simpl; try discriminate; eauto.
  - intros [(s & ->) | [(m & e & ->) | ->]]; reflexivity.
Qed.

Lemma has_sign_nonneg x : has_sign false x -> nonneg x = true.
Proof.
  intros [-> | [(m & e & ->) | ->]]; reflexivity.
Qed.

Lemma nonneg_not_lt x : nonneg x = true -> lt x num_0 = false.
Proof.
  intros H; apply nonneg_cases in H.
  destruct H as [(s & ->) | [(m & e & ->) | ->]]; reflexivity.
Qed.

Lemma nonneg_zero_or_pos x :
  nonneg x = true -> strict_eq x num_0 = false -> gt x num_0 = true.
Proof.
  intros H; apply nonneg_cases in H.
  destruct H as [(s & ->) | [(m & e & ->) | ->]]; cbv; congruence.
Qed.

Lemma mul_100_nonneg x : nonneg x = true -> nonneg (mul x num_100) = true.
Proof.
  intros H; apply nonneg_cases in H.
  destruct H as [(s & ->) | [(m & e & ->) | ->]]; try reflexivity.
  apply has_sign_nonneg.
  unfold mul, num_100, SFmul.
  apply (binary_round_aux_sign prec emax false); lia.
Qed.

Lemma of_Z_nonneg n : 0 <= n -> nonneg (of_Z n) = true.
Proof.
  intros Hn; apply has_sign_nonneg, binary_normalize_nonneg, Hn.
Qed.

Lemma Math_round_nonneg x : nonneg x = true -> nonneg (Math_round x) = true.
Proof.
  intros H; pose proof H as H'; apply nonneg_cases in H.
  destruct H as [(s & ->) | [(m & e & ->) | ->]]; try exact H'.
  unfold Math_round.
  destruct (0 <=? e) eqn:He; [exact H' | ].
  apply Z.leb_gt in He.
  set (n := (2 * cond_Zopp false (Z.pos m) + 2 ^ (- e)) / 2 ^ (1 - e)).
  assert (Hn : 0 <= n).
  { apply Z.div_pos.
    - unfold cond_Zopp. pose proof (Z.pow_pos_nonneg 2 (- e)). lia.
    - apply Z.pow_pos_nonneg; lia. }
  destruct (n =? 0); [reflexivity | apply of_Z_nonneg, Hn].
Qed.

Lemma SFdiv_core_binary_nonneg m1 e1 m2 e2 :
  0 <= m1 -> 0 < m2 ->
  0 <= fst (fst (SFdiv_core_binary prec emax m1 e1 m2 e2)).
Proof.
  intros H1 H2; unfold SFdiv_core_binary.
  set (s := _ - _ - Z.min _ _).
  set (m' := match s with Z.pos _ => Z.shiftl m1 s | 0 => m1 | Z.neg _ => 0 end).
  assert (Hm' : 0 <= m').
  { subst m'; destruct s; try lia. apply Z.shiftl_nonneg; exact H1. }
  pose proof (Z_div_mod m' m2 ltac:(lia)) as Hdm.
  destruct (Z.div_eucl m' m2) as [q r]; simpl.
  destruct Hdm as [Hq Hr]. nia.
Qed.

Lemma div_100_nonneg x : nonneg x = true -> nonneg (div x num_100) = true.
Proof.
  intros H; apply nonneg_cases in H.
  destruct H as [(s & ->) | [(m & e & ->) | ->]]; try reflexivity.
  apply has_sign_nonneg.
  unfold div, num_100, SFdiv.
  pose proof (SFdiv_core_binary_nonneg (Z.pos m) e
                (Z.pos 7036874417766400) (-46) ltac:(lia) ltac:(lia)) as Hq.
  destruct (SFdiv_core_binary prec emax _ e _ (-46)) as [[mz ez] lz].
  simpl in Hq.
  apply (binary_round_aux_sign prec emax false); exact Hq.
Qed.

Lemma round2_nonneg x : nonneg x = true -> nonneg (round2 x) = true.
Proof.
  intros H; unfold round2.
  apply div_100_nonneg, Math_round_nonneg, mul_100_nonneg, H.
Qed.

(** ** Comparing canonical numbers

    [SFcompare] orders two finite numbers by exponent first, which is the
    order of their values only for canonical representations; every
    JavaScript number is one. *)

Lemma digits2_pos_bounds m :
  2 ^ (Z.pos (digits2_pos m) - 1) <= Z.pos m < 2 ^ Z.pos (digits2_pos m).
Proof.
  induction m as [p IH | p IH | ]; simpl digits2_pos.
  - rewrite Pos2Z.inj_succ, Z.pow_succ_r by lia.
    replace (Z.succ (Z.pos (digits2_pos p)) - 1)
      with (Z.succ (Z.pos (digits2_pos p) - 1)) by lia.
    rewrite Z.pow_succ_r by lia. lia.
  - rewrite Pos2Z.inj_succ, Z.pow_succ_r by lia.
    replace (Z.succ (Z.pos (digits2_pos p)) - 1)
      with (Z.succ (Z.pos (digits2_pos p) - 1)) by lia.
    rewrite Z.pow_succ_r by lia. lia.
  - simpl. lia.
Qed.

Lemma iter_xO_mul m d : Z.pos (Pos.iter xO m d) = Z.pos m * 2 ^ Z.pos d.
Proof.
  induction d as [ | d IH] using Pos.peano_ind.
  - simpl. lia.
  - rewrite Pos.iter_succ, Pos2Z.inj_succ, Z.pow_succ_r by lia.
    rewrite Pos2Z.inj_xO, IH. ring.
Qed.

Lemma shl_align_fst mx ex ez :
  ez <= ex -> Z.pos (fst (shl_align mx ex ez)) = Z.pos mx * 2 ^ (ex - ez).
Proof.
  intros H; unfold shl_align; zfold.
  destruct (ez - ex) as [ | d | d] eqn:E; cbn [fst].
  - replace (ex - ez) with 0 by lia. rewrite Z.pow_0_r. lia.
  - lia.
  - rewrite iter_xO_mul. f_equal. f_equal. lia.
Qed.

Lemma shl_align_snd mx ex ez : ez <= ex -> snd (shl_align mx ex ez) = ez.
Proof.
  intros H; unfold shl_align; zfold.
  destruct (ez - ex) as [ | d | d] eqn:E; simpl; lia.
Qed.

Section Canonical.

Variables fprec femax : Z.
Hypothesis fprec_pos : 0 < fprec.

Lemma bounded_digits m e :
  bounded fprec femax m e = true ->
  Z.pos (digits2_pos m) <= fprec /\
  (emin fprec femax < e -> Z.pos (digits2_pos m) = fprec).
Proof.
  unfold bounded, canonical_mantissa, fexp, emin.
  intros H; apply andb_prop in H; destruct H as [H _].
  apply Z.eqb_eq in H. zfold. lia.
Qed.

(** On canonical positive numbers, the order [SFcompare] computes is the
    order of the values, here after alignment to the smaller exponent. *)
Lemma compare_canonical_le m1 e1 m2 e2 :
  bounded fprec femax m1 e1 = true ->
  bounded fprec femax m2 e2 = true ->
  SFleb (S754_finite false m1 e1) (S754_finite false m2 e2) = true ->
  Z.pos m1 * 2 ^ (e1 - Z.min e2 e1) <= Z.pos m2 * 2 ^ (e2 - Z.min e2 e1).
Proof.
  intros B1 B2; unfold SFleb, SFcompare.
  pose proof (bounded_digits m1 e1 B1) as [D1 _].
  pose proof (bounded_digits m2 e2 B2) as [_ D2].
  assert (Hmin1 : emin fprec femax <= e1).
  { unfold bounded, canonical_mantissa, fexp in B1.
    apply andb_prop in B1; destruct B1 as [B1 _].
    apply Z.eqb_eq in B1. unfold emin in *. zfold. lia. }
  destruct (Z.compare_spec e1 e2) as [E | E | E].
  - subst e2. rewrite Z.min_id, Z.sub_diag. simpl (2 ^ 0).
    rewrite Pos.compare_cont_spec; simpl.
    destruct (Pos.compare_spec m1 m2); intros; try discriminate; lia.
  - intros _.
    rewrite Z.min_r by lia. rewrite Z.sub_diag. simpl (2 ^ 0).
    pose proof (digits2_pos_bounds m1) as [_ U1].
    pose proof (digits2_pos_bounds m2) as [L2 _].
    rewrite (D2 ltac:(lia)) in L2.
    assert (Z.pos m1 < 2 ^ fprec).
    { eapply Z.lt_le_trans; [exact U1 | ].
      apply Z.pow_le_mono_r; lia. }
    assert (2 ^ fprec = 2 * 2 ^ (fprec - 1)).
    { rewrite <- Z.pow_succ_r by lia. f_equal. lia. }
    assert (2 <= 2 ^ (e2 - e1)).
    { change 2 with (2 ^ 1) at 1. apply Z.pow_le_mono_r; lia. }
    nia.
  - discriminate.
Qed.

End Canonical.

Lemma sub_nonneg t a :
  is_binary64 t = true -> is_binary64 a = true ->
  nonneg a = true -> le a t = true -> Number_isFinite a = true ->
  nonneg (sub t a) = true.
Proof.
  intros Vt Va Na Hle Fa.
  apply nonneg_cases in Na.
  destruct Na as [(sa & ->) | [(ma & ea & ->) | ->]]; [ | | discriminate].
  - destruct t as [st | [ | ] | | [ | ] mt et]; try discriminate; try reflexivity.
    destruct st, sa; reflexivity.
  - destruct t as [st | [ | ] | | [ | ] mt et]; try discriminate; try reflexivity.
    apply has_sign_nonneg.
    unfold sub, SFsub, cond_Zopp.
    apply binary_normalize_nonneg.
    simpl in Vt, Va.
    pose proof (compare_canonical_le prec emax ltac:(reflexivity)
                  ma ea mt et Va Vt Hle) as Hc.
    rewrite !shl_align_fst by lia.
    lia.
Qed.

(** ** The relational operators *)

Lemma SFcompare_antisym x y c :
  SFcompare x y = Some c -> SFcompare y x = Some (CompOpp c).
Proof.
  destruct x as [sx | sx | | sx mx ex], y as [sy | sy | | sy my ey];
    simpl; try discriminate;
    try (destruct sx; intros [= <-]; reflexivity);
    try (destruct sy; intros [= <-]; reflexivity);
    try (destruct sx, sy; intros [= <-]; reflexivity).
  zfold.
  assert (Hp : Pos.compare_cont Eq my mx = CompOpp (Pos.compare_cont Eq mx my))
    by (symmetry; apply (Pos.compare_cont_antisym mx my Eq)).
  rewrite (Z.compare_antisym ex ey), Hp.
  destruct sx, sy; intros [= <-]; try reflexivity;
    destruct (ex ?= ey); simpl; try reflexivity;
    destruct (Pos.compare_cont Eq mx my); reflexivity.
Qed.

Lemma le_not_gt x y : le x y = true -> gt x y = false.
Proof.
  unfold le, gt, SFleb, SFltb.
  destruct (SFcompare x y) as [c | ] eqn:E; [ | discriminate].
  rewrite (SFcompare_antisym _ _ _ E).
  destruct c; simpl; congruence.
Qed.

Lemma ge_not_lt x y : ge x y = true -> lt x y = false.
Proof. unfold ge, lt; intros H; exact (le_not_gt _ _ H). Qed.

(** Away from NaN, [x > y] is false exactly when [x <= y]. *)
Lemma not_gt_le x y :
  x <> S754_nan -> y <> S754_nan -> gt x y = false -> le x y = true.
Proof.
  unfold le, gt, SFleb, SFltb; intros Hx Hy.
  destruct (SFcompare y x) as [c | ] eqn:E.
  - rewrite (SFcompare_antisym _ _ _ E). destruct c; simpl; congruence.
  - destruct x, y; simpl in E; congruence.
Qed.

Lemma nonneg_not_nan x : nonneg x = true -> x <> S754_nan.
Proof. intros H ->; discriminate. Qed.

Lemma finite_not_lt_nonneg x :
  Number_isFinite x = true -> lt x num_0 = false -> nonneg x = true.
Proof.
  destruct x as [s | s | | [ | ] m e]; simpl; try discriminate; reflexivity.
Qed.

Lemma sub_finite_not_nan x y :
  Number_isFinite x = true -> y <> S754_nan -> sub x y <> S754_nan.
Proof.
  intros Fx Hy.
  destruct x as [sx | sx | | sx mx ex]; try discriminate;
    destruct y as [sy | sy | | sy my ey]; try congruence;
    try (simpl; discriminate).
  - destruct sx, sy; simpl; discriminate.
  - unfold sub, SFsub. apply binary_normalize_not_nan.
Qed.

Lemma Math_abs_not_nan x : x <> S754_nan -> Math_abs x <> S754_nan.
Proof. destruct x; simpl; congruence. Qed.

(** ** What the guards of [calculateRemainingSalary] let through *)

(** The precondition of the specification: [total >= 0], [advance >= 0]
    and [advance <= total], each evaluated as JavaScript does. *)
Definition valid_pair (total advance : number) : Prop :=
  ge total num_0 = true /\ ge advance num_0 = true /\ le advance total = true.

Lemma calculateRemainingSalary_on_valid total advance :
  valid_pair total advance ->
  calculateRemainingSalary (VNumber total) (VNumber advance)
  = Ok (round2 (sub total advance)).
Proof.
  intros (Ht & Ha & Hle); unfold calculateRemainingSalary.
  rewrite (ge_not_lt _ _ Ht), (ge_not_lt _ _ Ha), (le_not_gt _ _ Hle).
  reflexivity.
Qed.

Lemma remaining_nonneg total advance :
  is_binary64 total = true -> is_binary64 advance = true ->
  valid_pair total advance -> Number_isFinite advance = true ->
  nonneg (round2 (sub total advance)) = true.
Proof.
  intros Vt Va (Ht & Ha & Hle) Fa.
  apply round2_nonneg, sub_nonneg; assumption.
Qed.

(** ** Concrete inputs used below *)

Definition n_0_0075 : number := S754_finite false 8646911284551352 (-60).
Definition n_0_01 : number := S754_finite false 5764607523034235 (-59).
Definition n_33_33 : number := S754_finite false 4690780486883082 (-47).
Definition n_100_123 : number := S754_finite false 7045529773300253 (-46).
Definition n_100_12 : number := S754_finite false 7045318667067720 (-46).

Example literal_0_0075 : decimal 75 4 = n_0_0075.
Proof. vm_compute. reflexivity. Qed.

Example literal_0_01 : decimal 1 2 = n_0_01.
Proof. vm_compute. reflexivity. Qed.

Example literal_33_33 : decimal 3333 2 = n_33_33.
Proof. vm_compute. reflexivity. Qed.

Example literal_100_123 : decimal 100123 3 = n_100_123.
Proof. vm_compute. reflexivity. Qed.

Example literal_100_12 : decimal 10012 2 = n_100_12.
Proof. vm_compute. reflexivity. Qed.

(** ** C1: the remaining salary *)

(** C1 fails as stated: for total = 0.0075 and advance = 0, which pass every
    guard, the result is 0.01, which is greater than the total. *)
Lemma remaining_exceeds_total :
  valid_pair n_0_0075 num_0 /\
  calculateRemainingSalary (VNumber n_0_0075) (VNumber num_0) = Ok n_0_01 /\
  le n_0_01 n_0_0075 = false /\ gt n_0_01 n_0_0075 = true.
Proof. repeat split; vm_compute; reflexivity. Qed.

(** C1, amended: for numbers with [total >= 0], [advance >= 0] and
    [advance <= total], [calculateRemainingSalary] returns
    [Math.round((total - advance) * 100) / 100]; any two calls on these
    inputs return the same number; and for a finite advance the result is a
    number that is at least 0.  (It can exceed the total by rounding up.) *)
Theorem calculateRemainingSalary_valid (total advance : number) :
  is_binary64 total = true -> is_binary64 advance = true ->
  valid_pair total advance ->
  calculateRemainingSalary (VNumber total) (VNumber advance)
  = Ok (div (Math_round (mul (sub total advance) num_100)) num_100)
  /\ (forall r1 r2,
        calculateRemainingSalary (VNumber total) (VNumber advance) = Ok r1 ->
        calculateRemainingSalary (VNumber total) (VNumber advance) = Ok r2 ->
        r1 = r2)
  /\ (Number_isFinite advance = true ->
      exists r, calculateRemainingSalary (VNumber total) (VNumber advance) = Ok r
                /\ ge r num_0 = true).
Proof.
  intros Vt Va Hv.
  pose proof (calculateRemainingSalary_on_valid _ _ Hv) as E.
  split; [exact E | split].
  - intros r1 r2 H1 H2. rewrite H1 in H2. injection H2 as ->. reflexivity.
  - intros Fa. eexists; split; [exact E | ].
    apply remaining_nonneg; assumption.
Qed.

Lemma calculateRemainingSalary_valid_witness :
  calculateRemainingSalary (VNumber (of_Z 5000)) (VNumber (of_Z 2000))
  = Ok (of_Z 3000).
Proof.
  assert (V : valid_pair (of_Z 5000) (of_Z 2000))
    by (repeat split; vm_compute; reflexivity).
  destruct (calculateRemainingSalary_valid (of_Z 5000) (of_Z 2000)
              eq_refl eq_refl V) as [E _].
  rewrite E. vm_compute. reflexivity.
Defined.

(** ** C2: the classification *)

(** C2: on a valid pair the remaining salary is computed, and the status is
    "Paid" when it is zero; otherwise "Partially Paid" when the advance and
    the remaining salary are both positive; otherwise "Pending" when the
    advance is zero.  The zero test comes first: total 0 with advance 0 is
    "Paid". *)
Theorem determinePaymentStatus_rules (total advance : number) :
  valid_pair total advance ->
  exists remaining,
    calculateRemainingSalary (VNumber total) (VNumber advance) = Ok remaining
    /\ (strict_eq remaining num_0 = true ->
        determinePaymentStatus (VNumber total) (VNumber advance) = Ok "Paid")
    /\ (strict_eq remaining num_0 = false ->
        gt advance num_0 = true -> gt remaining num_0 = true ->
        determinePaymentStatus (VNumber total) (VNumber advance)
        = Ok "Partially Paid")
    /\ (strict_eq remaining num_0 = false ->
        gt advance num_0 && gt remaining num_0 = false ->
        strict_eq advance num_0 = true ->
        determinePaymentStatus (VNumber total) (VNumber advance) = Ok "Pending")
    /\ determinePaymentStatus (VNumber num_0) (VNumber num_0) = Ok "Paid".
Proof.
  intros Hv.
  pose proof (calculateRemainingSalary_on_valid _ _ Hv) as E.
  eexists; split; [exact E | ].
  unfold determinePaymentStatus; rewrite E; simpl bind; simpl number_of.
  repeat split.
  - intros ->. reflexivity.
  - intros -> -> ->. reflexivity.
  - intros -> -> ->. reflexivity.
Qed.

Lemma determinePaymentStatus_rules_witness :
  determinePaymentStatus (VNumber (of_Z 4000)) (VNumber (of_Z 4000)) = Ok "Paid"
  /\ determinePaymentStatus (VNumber (of_Z 5000)) (VNumber (of_Z 2000))
     = Ok "Partially Paid"
  /\ determinePaymentStatus (VNumber (of_Z 3000)) (VNumber num_0) = Ok "Pending".
Proof.
  split; [ | split].
  - destruct (determinePaymentStatus_rules (of_Z 4000) (of_Z 4000))
      as (r & E & HPaid & _).
    + repeat split; vm_compute; reflexivity.
    + apply HPaid. vm_compute in E. injection E as <-. reflexivity.
  - destruct (determinePaymentStatus_rules (of_Z 5000) (of_Z 2000))
      as (r & E & _ & HPart & _).
    + repeat split; vm_compute; reflexivity.
    + vm_compute in E. injection E as <-. apply HPart; reflexivity.
  - destruct (determinePaymentStatus_rules (of_Z 3000) num_0)
      as (r & E & _ & _ & HPend & _).
    + repeat split; vm_compute; reflexivity.
    + vm_compute in E. injection E as <-. apply HPend; reflexivity.
Defined.

(** ** C5: the defensive branch *)

(** C5 fails as stated: Infinity and Infinity are numbers with
    [total >= 0], [advance >= 0] and [advance <= total], the remaining
    salary is NaN, and the defensive branch is taken. *)
Lemma unclassifiable_reached :
  valid_pair infinity infinity /\
  calculateRemainingSalary (VNumber infinity) (VNumber infinity) = Ok nan /\
  determinePaymentStatus (VNumber infinity) (VNumber infinity)
  = Throw "Unable to determine payment status with given inputs".
Proof. repeat split; vm_compute; reflexivity. Qed.

(** C5, amended: for numbers with [total >= 0], [advance >= 0] and
    [advance <= total] where the advance is finite,
    [determinePaymentStatus] returns "Paid", "Partially Paid" or "Pending";
    the defensive branch is not reached. *)
Theorem determinePaymentStatus_total (total advance : number) :
  is_binary64 total = true -> is_binary64 advance = true ->
  valid_pair total advance -> Number_isFinite advance = true ->
  determinePaymentStatus (VNumber total) (VNumber advance) = Ok "Paid"
  \/ determinePaymentStatus (VNumber total) (VNumber advance) = Ok "Partially Paid"
  \/ determinePaymentStatus (VNumber total) (VNumber advance) = Ok "Pending".
Proof.
  intros Vt Va Hv Fa.
  pose proof (remaining_nonneg _ _ Vt Va Hv Fa) as Hr.
  unfold determinePaymentStatus.
  rewrite (calculateRemainingSalary_on_valid _ _ Hv); simpl bind; simpl number_of.
  destruct (strict_eq (round2 (sub total advance)) num_0) eqn:E0; [now left | ].
  rewrite (nonneg_zero_or_pos _ Hr E0), andb_true_r.
  destruct Hv as (_ & Ha & _).
  destruct (strict_eq advance num_0) eqn:Ea.
  - destruct (gt advance num_0); [right; left | right; right]; reflexivity.
  - rewrite (nonneg_zero_or_pos _ Ha Ea). right; left; reflexivity.
Qed.

Lemma determinePaymentStatus_total_witness :
  determinePaymentStatus (VNumber (of_Z 5000)) (VNumber (of_Z 2000)) = Ok "Paid"
  \/ determinePaymentStatus (VNumber (of_Z 5000)) (VNumber (of_Z 2000))
     = Ok "Partially Paid"
  \/ determinePaymentStatus (VNumber (of_Z 5000)) (VNumber (of_Z 2000))
     = Ok "Pending".
Proof.
  apply determinePaymentStatus_total; try reflexivity.
  repeat split; vm_compute; reflexivity.
Defined.

(** ** C4: the live calculation against the engine *)

(** C4 fails as stated: for total 0 and advance 0 the engine classifies
    "Paid" and the live calculation, which asks for [totalSalary > 0]
    before it answers "Paid", classifies "Pending". *)
Lemma live_mirror_differs_at_zero :
  valid_pair num_0 num_0 /\
  determinePaymentStatus (VNumber num_0) (VNumber num_0) = Ok "Paid" /\
  paymentStatus (calculateRealTimeValues num_0 num_0) = "Pending".
Proof. repeat split; vm_compute; reflexivity. Qed.

(** The live calculation classifies the unrounded difference, the engine the
    rounded one: for total 0.001 (which [validateMonetaryAmount] accepts) and
    advance 0 the difference rounds to zero and the two disagree. *)
Example live_mirror_differs_below_a_cent :
  let total := decimal 1 3 in
  validateMonetaryAmount (VNumber total) None = Ok true /\
  determinePaymentStatus (VNumber total) (VNumber num_0) = Ok "Paid" /\
  paymentStatus (calculateRealTimeValues total num_0) = "Pending".
Proof. repeat split; vm_compute; reflexivity. Qed.

Lemma or_zero_positive x : gt x num_0 = true -> or_zero x = x.
Proof.
  destruct x as [s | [ | ] | | [ | ] m e]; simpl; try discriminate; reflexivity.
Qed.

Lemma or_zero_nonneg_facts total a :
  gt total num_0 = true -> nonneg a = true ->
  sub total (or_zero a) = sub total a /\
  lt (or_zero a) num_0 = false /\
  gt (or_zero a) num_0 = gt a num_0 /\
  strict_eq (or_zero a) num_0 = strict_eq a num_0.
Proof.
  intros Ht Ha; apply nonneg_cases in Ha.
  destruct Ha as [(s & ->) | [(m & e & ->) | ->]]; try (repeat split; reflexivity).
  destruct total as [st | [ | ] | | [ | ] mt et]; try discriminate;
    repeat split; reflexivity.
Qed.

Lemma or_zero_le total a :
  nonneg a = true -> le a total = true -> gt (or_zero a) total = false.
Proof.
  intros Ha Hle; apply nonneg_cases in Ha.
  destruct Ha as [(s & ->) | [(m & e & ->) | ->]];
    apply le_not_gt; exact Hle.
Qed.

(** C4, amended: on numbers with [0 <= advance <= total] where the total is
    positive, the advance is finite, and the difference [total - advance]
    rounds to zero only when it is zero, the live calculation and the engine
    compute the same remaining amount and the same status. *)
Theorem live_mirror_agrees (total advance : number) :
  is_binary64 total = true -> is_binary64 advance = true ->
  valid_pair total advance ->
  gt total num_0 = true -> Number_isFinite advance = true ->
  strict_eq (div (Math_round (mul (sub total advance) num_100)) num_100) num_0
  = strict_eq (sub total advance) num_0 ->
  calculateRemainingSalary (VNumber total) (VNumber advance)
  = Ok (remainingSalary (calculateRealTimeValues total advance))
  /\ determinePaymentStatus (VNumber total) (VNumber advance)
     = Ok (paymentStatus (calculateRealTimeValues total advance)).
Proof.
  intros Vt Va Hv Hpos Fa Hround.
  pose proof (remaining_nonneg _ _ Vt Va Hv Fa) as Hr.
  pose proof (calculateRemainingSalary_on_valid _ _ Hv) as E.
  destruct Hv as (Ht & Ha & Hle).
  pose proof (sub_nonneg _ _ Vt Va Ha Hle Fa) as Hd.
  destruct (or_zero_nonneg_facts total advance Hpos Ha) as (Es & El & Eg & Ee).
  unfold determinePaymentStatus; rewrite E; simpl bind; simpl number_of.
  unfold calculateRealTimeValues.
  rewrite (or_zero_positive _ Hpos), (ge_not_lt _ _ Ht), El.
  rewrite (or_zero_le _ _ Ha Hle), Es, Eg, Ee, Hpos, andb_true_r.
  cbn [orb remainingSalary paymentStatus].
  split; [reflexivity | ].
  fold (round2 (sub total advance)) in Hround |- *.
  rewrite Hround.
  destruct (strict_eq (sub total advance) num_0) eqn:E0; [reflexivity | ].
  rewrite (nonneg_zero_or_pos _ Hd E0).
  rewrite (nonneg_zero_or_pos _ Hr Hround).
  rewrite andb_true_r.
  destruct (gt advance num_0) eqn:Eg0; [reflexivity | ].
  destruct (strict_eq advance num_0) eqn:Ee0; [reflexivity | ].
  rewrite (nonneg_zero_or_pos _ Ha Ee0) in Eg0. discriminate.
Qed.

Lemma live_mirror_agrees_witness :
  calculateRemainingSalary (VNumber (of_Z 5000)) (VNumber (of_Z 2000))
  = Ok (remainingSalary (calculateRealTimeValues (of_Z 5000) (of_Z 2000)))
  /\ determinePaymentStatus (VNumber (of_Z 5000)) (VNumber (of_Z 2000))
     = Ok (paymentStatus (calculateRealTimeValues (of_Z 5000) (of_Z 2000))).
Proof.
  apply live_mirror_agrees; try reflexivity.
  repeat split; vm_compute; reflexivity.
Defined.

(** ** C6: [validateMonetaryAmount] *)

(** The four failure messages, for a field label. *)
Definition NotANumber (label : string) : string := label ++ " must be a number".
Definition NotFinite (label : string) : string := label ++ " must be a finite number".
Definition Negative (label : string) : string := label ++ " cannot be negative".
Definition ExcessPrecision (label : string) : string :=
  label ++ " must have at most 2 decimal places".

Definition AdvanceExceedsTotal : string :=
  "Advance amount cannot exceed total monthly salary".

(** How far rounding to two decimals moves an amount: [Math.abs(amount -
    Math.round(amount * 100) / 100)]. *)
Definition rounding_distance (a : number) : number :=
  Math_abs (sub a (div (Math_round (mul a num_100)) num_100)).

Lemma rounding_distance_not_nan a :
  Number_isFinite a = true -> lt a num_0 = false ->
  rounding_distance a <> S754_nan.
Proof.
  intros Fa Ha; unfold rounding_distance.
  apply Math_abs_not_nan, sub_finite_not_nan; [exact Fa | ].
  apply nonneg_not_nan, (round2_nonneg a), finite_not_lt_nonneg; assumption.
Qed.

(** C6: [validateMonetaryAmount] returns [true] exactly when the amount is a
    number, finite, at least 0, and rounding it to two decimals moves it by
    at most 0.001.  Otherwise it throws, and the failure is the first that
    applies of: not a number, not finite, negative, too many decimals.
    Every message starts with the field label. *)
Theorem validateMonetaryAmount_spec (amount : value) (fieldName : option string) :
  let label := default_arg fieldName "amount" in
  (validateMonetaryAmount amount fieldName = Ok true <->
   exists a, amount = VNumber a /\ Number_isFinite a = true /\
             ge a num_0 = true /\ le (rounding_distance a) num_0_001 = true)
  /\ ((forall a, amount <> VNumber a) ->
      validateMonetaryAmount amount fieldName = Throw (NotANumber label))
  /\ (forall a, amount = VNumber a -> Number_isFinite a = false ->
      validateMonetaryAmount amount fieldName = Throw (NotFinite label))
  /\ (forall a, amount = VNumber a -> Number_isFinite a = true ->
      lt a num_0 = true ->
      validateMonetaryAmount amount fieldName = Throw (Negative label))
  /\ (forall a, amount = VNumber a -> Number_isFinite a = true ->
      ge a num_0 = true -> gt (rounding_distance a) num_0_001 = true ->
      validateMonetaryAmount amount fieldName = Throw (ExcessPrecision label))
  /\ (forall r, validateMonetaryAmount amount fieldName = Ok r -> r = true)
  /\ (forall msg, validateMonetaryAmount amount fieldName = Throw msg ->
      exists rest, msg = label ++ rest).
Proof.
  intros label; unfold validateMonetaryAmount; fold label.
  repeat split.
  - destruct amount as [ | | b | a | s | ]; try discriminate.
    destruct (Number_isFinite a) eqn:Fa; simpl negb; cbv iota; [ | discriminate].
    destruct (lt a num_0) eqn:Ha; [discriminate | ].
    fold (rounding_distance a).
    destruct (gt (rounding_distance a) num_0_001) eqn:Hd; [discriminate | ].
    intros _. exists a.
    split; [reflexivity | split; [exact Fa | split]].
    + apply finite_not_lt_nonneg; assumption.
    + apply not_gt_le; [ | discriminate | exact Hd].
      apply rounding_distance_not_nan; assumption.
  - intros (a & -> & Fa & Ha & Hd).
    rewrite Fa, (ge_not_lt _ _ Ha); simpl negb; cbv iota.
    fold (rounding_distance a). rewrite (le_not_gt _ _ Hd). reflexivity.
  - intros Hn. destruct amount; try reflexivity. now destruct (Hn n).
  - intros a -> Fa. rewrite Fa. reflexivity.
  - intros a -> Fa Ha. rewrite Fa, Ha. reflexivity.
  - intros a -> Fa Ha Hd. rewrite Fa, (ge_not_lt _ _ Ha); simpl negb; cbv iota.
    fold (rounding_distance a). rewrite Hd. reflexivity.
  - intros r. destruct amount as [ | | b | a | s | ]; try discriminate.
    destruct (negb (Number_isFinite a)); [discriminate | ].
    destruct (lt a num_0); [discriminate | ].
    destruct (gt _ num_0_001); [discriminate | ].
    intros [= <-]. reflexivity.
  - intros msg. destruct amount as [ | | b | a | s | ];
      try (intros [= <-]; eexists; reflexivity).
    destruct (negb (Number_isFinite a)); [intros [= <-]; eexists; reflexivity | ].
    destruct (lt a num_0); [intros [= <-]; eexists; reflexivity | ].
    destruct (gt _ num_0_001); [intros [= <-]; eexists; reflexivity | ].
    discriminate.
Qed.

Lemma validateMonetaryAmount_spec_witness :
  validateMonetaryAmount (VNumber (decimal 999999 2)) None = Ok true
  /\ validateMonetaryAmount (VNumber (of_Z (-100))) None
     = Throw "amount cannot be negative"
  /\ validateMonetaryAmount (VNumber n_100_123) (Some "Total monthly salary")
     = Throw "Total monthly salary must have at most 2 decimal places".
Proof.
  split; [ | split].
  - apply (proj2 (proj1 (validateMonetaryAmount_spec _ None))).
    eexists.
    split; [reflexivity | repeat split; vm_compute; reflexivity].
  - eapply (proj1 (proj2 (proj2 (proj2 (validateMonetaryAmount_spec _ None)))));
      reflexivity.
  - apply (proj1 (proj2 (proj2 (proj2 (proj2
             (validateMonetaryAmount_spec _ (Some "Total monthly salary"))))))
           n_100_123); try reflexivity; vm_compute; reflexivity.
Defined.

(** ** C7: [validateAdvanceAmount] *)

Lemma validateMonetaryAmount_cases amount fieldName :
  validateMonetaryAmount amount fieldName = Ok true
  \/ exists rest,
       validateMonetaryAmount amount fieldName
       = Throw (default_arg fieldName "amount" ++ rest).
Proof.
  unfold validateMonetaryAmount.
  destruct amount as [ | | b | a | s | ]; try (right; eexists; reflexivity).
  destruct (negb (Number_isFinite a)); [right; eexists; reflexivity | ].
  destruct (lt a num_0); [right; eexists; reflexivity | ].
  destruct (gt _ num_0_001); [right; eexists; reflexivity | left; reflexivity].
Qed.

(** C7 fails as stated: -Infinity is a negative total, and the failure it
    gets is the not-finite one, which is checked before the sign. *)
Lemma negative_infinite_total_not_Negative :
  lt neg_infinity num_0 = true /\
  validateAdvanceAmount (VNumber neg_infinity) (VNumber num_0)
  = Throw (NotFinite "Total monthly salary") /\
  validateAdvanceAmount (VNumber neg_infinity) (VNumber num_0)
  <> Throw (Negative "Total monthly salary").
Proof.
  split; [reflexivity | split; [reflexivity | ]].
  vm_compute. discriminate.
Qed.

(** C7, amended: [validateAdvanceAmount] validates the total, labelled
    "Total monthly salary", then the advance, labelled "Advance amount
    paid", and compares them only after both have passed.  A failure of the
    total is the failure reported; for every negative finite total that is
    the negative-amount failure on "Total monthly salary", and for no
    negative total (finite or not) is it the advance-exceeds-total failure.
    The latter occurs exactly when both amounts pass
    [validateMonetaryAmount] and [advance > total]. *)
Theorem validateAdvanceAmount_order (total advance : value) :
  (forall msg,
      validateMonetaryAmount total (Some "Total monthly salary") = Throw msg ->
      validateAdvanceAmount total advance = Throw msg)
  /\ (forall msg,
      validateMonetaryAmount total (Some "Total monthly salary") = Ok true ->
      validateMonetaryAmount advance (Some "Advance amount paid") = Throw msg ->
      validateAdvanceAmount total advance = Throw msg)
  /\ (forall t, total = VNumber t -> Number_isFinite t = true ->
      lt t num_0 = true ->
      validateAdvanceAmount total advance
      = Throw (Negative "Total monthly salary"))
  /\ (forall t, total = VNumber t -> lt t num_0 = true ->
      validateAdvanceAmount total advance <> Throw AdvanceExceedsTotal)
  /\ (validateAdvanceAmount total advance = Throw AdvanceExceedsTotal <->
      validateMonetaryAmount total (Some "Total monthly salary") = Ok true /\
      validateMonetaryAmount advance (Some "Advance amount paid") = Ok true /\
      gt (number_of advance) (number_of total) = true).
Proof.
  unfold validateAdvanceAmount.
  split; [ | split; [ | split; [ | split]]].
  - intros msg ->. reflexivity.
  - intros msg -> ->. reflexivity.
  - intros t -> Ft Ht. simpl. rewrite Ft, Ht. reflexivity.
  - intros t -> Ht. simpl.
    destruct (Number_isFinite t); simpl; [rewrite Ht | ]; simpl; discriminate.
  - split.
    + destruct (validateMonetaryAmount_cases total (Some "Total monthly salary"))
        as [-> | (rest & ->)]; simpl bind; [ | simpl; discriminate].
      destruct (validateMonetaryAmount_cases advance (Some "Advance amount paid"))
        as [-> | (rest & ->)]; simpl bind; [ | simpl; discriminate].
      destruct (gt (number_of advance) (number_of total));
        [auto | discriminate].
    + intros (-> & -> & Hgt). simpl bind. rewrite Hgt. reflexivity.
Qed.

Lemma validateAdvanceAmount_order_witness :
  validateAdvanceAmount (VNumber (of_Z (-100))) (VNumber (of_Z 50))
  = Throw "Total monthly salary cannot be negative"
  /\ validateAdvanceAmount (VNumber (of_Z 3000)) (VNumber (of_Z 5000))
     = Throw "Advance amount cannot exceed total monthly salary".
Proof.
  split.
  - eapply (proj1 (proj2 (proj2 (validateAdvanceAmount_order _ _))));
      reflexivity.
  - apply (proj2 (proj2 (proj2 (proj2 (validateAdvanceAmount_order _ _))))).
    repeat split; vm_compute; reflexivity.
Defined.

(** ** C8: [calculateAdvancePercentage] *)

Lemma validateAdvanceAmount_numbers total advance :
  validateAdvanceAmount total advance = Ok true ->
  exists t a, total = VNumber t /\ advance = VNumber a.
Proof.
  unfold validateAdvanceAmount, validateMonetaryAmount.
  destruct total as [ | | b | t | s | ]; try discriminate.
  destruct advance as [ | | b | a | s | ]; simpl; eauto;
    destruct (negb (Number_isFinite t)); try discriminate;
    destruct (lt t num_0); try discriminate;
    destruct (gt _ num_0_001); discriminate.
Qed.

(** C8: on a pair that passes [validateAdvanceAmount],
    [calculateAdvancePercentage] returns 0 when the total is 0 and
    otherwise [Math.round((advance / total) * 100 * 100) / 100]; it gives 0
    for (0, 0) and 33.33 for (3000, 1000). *)
Theorem calculateAdvancePercentage_spec (total advance : value) :
  validateAdvanceAmount total advance = Ok true ->
  (exists t a,
      total = VNumber t /\ advance = VNumber a /\
      (strict_eq t num_0 = true ->
       calculateAdvancePercentage total advance = Ok num_0) /\
      (strict_eq t num_0 = false ->
       calculateAdvancePercentage total advance
       = Ok (div (Math_round (mul (mul (div a t) num_100) num_100)) num_100)))
  /\ calculateAdvancePercentage (VNumber num_0) (VNumber num_0) = Ok num_0
  /\ calculateAdvancePercentage (VNumber (of_Z 3000)) (VNumber (of_Z 1000))
     = Ok n_33_33.
Proof.
  intros Hv. split; [ | split; vm_compute; reflexivity].
  destruct (validateAdvanceAmount_numbers _ _ Hv) as (t & a & -> & ->).
  exists t, a. unfold calculateAdvancePercentage. rewrite Hv. simpl.
  repeat split; intros ->; reflexivity.
Qed.

Lemma calculateAdvancePercentage_spec_witness :
  calculateAdvancePercentage (VNumber (of_Z 1000)) (VNumber (of_Z 250))
  = Ok (of_Z 25).
Proof.
  assert (Hv : validateAdvanceAmount (VNumber (of_Z 1000)) (VNumber (of_Z 250))
               = Ok true) by (vm_compute; reflexivity).
  destruct (calculateAdvancePercentage_spec _ _ Hv)
    as [(t & a & Et & Ea & _ & H) _].
  injection Et as <-. injection Ea as <-.
  rewrite H by reflexivity. vm_compute. reflexivity.
Defined.

(** ** C9: [formatCurrency] *)

(** [typeof amount === 'number' && Number.isFinite(amount)]. *)
Definition is_finite_number (v : value) : bool :=
  match v with
  | VNumber a => Number_isFinite a
  | _ => false
  end.

(** C9, refuted as stated: the symbol of the fallback string is not
    independent of the caller.  For the amount ['invalid'] the caller's
    symbol "Rs." gives "Rs.0.00" and the caller's symbol "$" gives "$0.00",
    so no single fallback symbol serves every caller. *)
Lemma fallback_symbol_is_the_callers :
  formatCurrency (fun _ => Ok "") (VString "invalid") (Some "Rs.") = Ok "Rs.0.00"
  /\ formatCurrency (fun _ => Ok "") (VString "invalid") (Some "$") = Ok "$0.00"
  /\ ~ (exists fallback : string,
          forall currency,
            formatCurrency (fun _ => Ok "") (VString "invalid") currency
            = Ok (fallback ++ "0.00")).
Proof.
  split; [reflexivity | split; [reflexivity | ]].
  intros (fallback & H).
  pose proof (H (Some "Rs.")) as H1. pose proof (H (Some "$")) as H2.
  cbn in H1, H2. rewrite <- H2 in H1. discriminate H1.
Qed.

(** C9, amended: on an amount that is not a finite number [formatCurrency]
    does not fail; whatever the platform's formatter does, it returns a
    string that ends in "0.00".  When the amount is not a number at all,
    the string is the symbol followed by "0.00", the symbol being the one
    the caller passed, or the rupee sign when the caller passed none.  On a
    finite number the result is the symbol followed by the formatted amount,
    and the only failure is a failure of the formatter.  Which symbol
    precedes "0.00" for NaN and the infinities is not stated. *)
Theorem formatCurrency_fallback (amount : value) (currency : option string) :
  let symbol := default_arg currency rupee in
  ((forall a, amount <> VNumber a) ->
   forall fmt, formatCurrency fmt amount currency = Ok (symbol ++ "0.00"))
  /\ (is_finite_number amount = false ->
      exists prefix,
        forall fmt, formatCurrency fmt amount currency = Ok (prefix ++ "0.00"))
  /\ (forall fmt a,
        amount = VNumber a -> Number_isFinite a = true ->
        formatCurrency fmt amount currency
        = bind (fmt a) (fun formatted => Ok (symbol ++ formatted)))
  /\ (forall fmt msg,
        formatCurrency fmt amount currency = Throw msg ->
        exists a, amount = VNumber a /\ Number_isFinite a = true
                  /\ fmt a = Throw msg).
Proof.
  intros symbol; subst symbol; unfold formatCurrency.
  split; [ | split; [ | split]].
  - intros Hn fmt.
    destruct amount as [ | | b | a | s | ]; try reflexivity.
    destruct (Hn a); reflexivity.
  - intros Hf. exists (default_arg currency rupee). intros fmt.
    destruct amount as [ | | b | a | s | ]; try reflexivity.
    cbn [is_finite_number] in Hf. rewrite Hf. reflexivity.
  - intros fmt a -> Fa. rewrite Fa. reflexivity.
  - intros fmt msg.
    destruct amount as [ | | b | a | s | ]; try (intros H; discriminate H).
    destruct (Number_isFinite a) eqn:Fa; cbn [negb];
      [ | intros H; discriminate H].
    destruct (fmt a) as [formatted | msg'] eqn:Ef; cbn [bind];
      intros H; [discriminate H | ].
    injection H as ->. exists a. repeat split; assumption.
Qed.

Lemma formatCurrency_fallback_witness :
  formatCurrency (fun _ => Throw "RangeError") VUndefined (Some "Rs.")
  = Ok "Rs.0.00".
Proof.
  apply (proj1 (formatCurrency_fallback VUndefined (Some "Rs."))).
  intros a H; discriminate H.
Defined.

(** ** C10: what [calculateRemainingSalary] does not check *)

(** C10: [calculateRemainingSalary] returns a value exactly when both
    arguments are numbers and none of its three comparisons holds
    ([total < 0], [advance < 0], [advance > total]); it checks neither
    finiteness nor the number of decimals, and [determinePaymentStatus]
    checks nothing more.  So total 100.123 with advance 0, and an infinite
    total with advance 0, which [validateMonetaryAmount] rejects, both get a
    result. *)
Theorem calculateRemainingSalary_checks (total advance : value) :
  ((exists r, calculateRemainingSalary total advance = Ok r) <->
   exists t a, total = VNumber t /\ advance = VNumber a /\
               lt t num_0 = false /\ lt a num_0 = false /\ gt a t = false)
  /\ (validateMonetaryAmount (VNumber n_100_123) None
      = Throw (ExcessPrecision "amount") /\
      calculateRemainingSalary (VNumber n_100_123) (VNumber num_0) = Ok n_100_12 /\
      determinePaymentStatus (VNumber n_100_123) (VNumber num_0) = Ok "Pending")
  /\ (validateMonetaryAmount (VNumber infinity) None = Throw (NotFinite "amount") /\
      calculateRemainingSalary (VNumber infinity) (VNumber num_0) = Ok infinity /\
      determinePaymentStatus (VNumber infinity) (VNumber num_0) = Ok "Pending")
  /\ calculateRemainingSalary (VNumber nan) (VNumber num_0) = Ok nan.
Proof.
  split; [ | repeat split; vm_compute; reflexivity].
  unfold calculateRemainingSalary; split.
  - intros (r & H).
    destruct total as [ | | b | t | s | ]; try discriminate.
    destruct advance as [ | | b | a | s | ]; try discriminate.
    exists t, a.
    destruct (lt t num_0); [discriminate | ].
    destruct (lt a num_0); [discriminate | ].
    destruct (gt a t); [discriminate | ].
    repeat split.
  - intros (t & a & -> & -> & -> & -> & ->). eexists; reflexivity.
Qed.

(** * Further properties of the engine and of the live calculation *)

(** ** The rest of the engine: [calculateSalaryDetails] *)

(** The object [calculateSalaryDetails] returns.  [calculatedAt] is the
    reading of the clock ([new Date()]), in milliseconds. *)
Module Details.
Record t : Type := {
  totalMonthlySalary : value;
  advanceAmountPaid : value;
  remainingSalaryPayable : number;
  paymentStatus : string;
  calculatedAt : Z
}.
End Details.

(** [salaryData] is destructured into its two fields, which are the two
    value arguments here; [now] is what [new Date()] reads. *)
Definition calculateSalaryDetails
    (now : Z) (totalMonthlySalary advanceAmountPaid : value)
  : result Details.t :=
  bind (validateAdvanceAmount totalMonthlySalary advanceAmountPaid) (fun _ =>
  bind (calculateRemainingSalary totalMonthlySalary advanceAmountPaid)
    (fun remainingSalaryPayable =>
  bind (determinePaymentStatus totalMonthlySalary advanceAmountPaid)
    (fun paymentStatus =>
       Ok {| Details.totalMonthlySalary := totalMonthlySalary;
             Details.advanceAmountPaid := advanceAmountPaid;
             Details.remainingSalaryPayable := remainingSalaryPayable;
             Details.paymentStatus := paymentStatus;
             Details.calculatedAt := now |}))).

(** A value a JavaScript program can hold: its number, if it is one, is a
    canonical binary64 value. *)
Definition binary64_value (v : value) : bool :=
  match v with
  | VNumber n => is_binary64 n
  | _ => true
  end.

(** ** The live view: [getStatusBadgeClass] *)

Definition getStatusBadgeClass (status : string) : string :=
  if String.eqb status "Paid" then "status-badge status-paid"
  else if String.eqb status "Partially Paid" then "status-badge status-partial"
  else if String.eqb status "Pending" then "status-badge status-pending"
  else "status-badge status-invalid".

(** ** Helper facts *)

Lemma SFcompare_refl x : x <> S754_nan -> SFcompare x x = Some Eq.
Proof.
  destruct x as [s | s | | s m e]; try congruence; intros _; simpl.
  - reflexivity.
  - destruct s; reflexivity.
  - zfold. rewrite Z.compare_refl, Pos.compare_cont_refl.
    destruct s; reflexivity.
Qed.

Lemma finite_not_nan x : Number_isFinite x = true -> x <> S754_nan.
Proof. intros H ->; discriminate. Qed.

Lemma sub_self t : Number_isFinite t = true -> sub t t = num_0.
Proof.
  destruct t as [s | s | | s m e]; try discriminate; intros _.
  - destruct s; reflexivity.
  - unfold sub, SFsub. zfold. rewrite Z.sub_diag. reflexivity.
Qed.

Lemma sub_zero_r t s :
  Number_isFinite t = true -> nonneg t = true ->
  strict_eq (sub t (S754_zero s)) t = true /\
  (s = false -> sub t (S754_zero s) = t).
Proof.
  intros Ft Nt.
  destruct t as [st | st | | [ | ] m e]; try discriminate.
  - split; [destruct st, s; reflexivity | intros ->; destruct st; reflexivity].
  - split; [ | reflexivity].
    unfold strict_eq, SFeqb; simpl sub.
    rewrite SFcompare_refl by discriminate. reflexivity.
Qed.

(** What a successful [validateMonetaryAmount] has checked. *)
Lemma validateMonetaryAmount_ok amount fieldName :
  validateMonetaryAmount amount fieldName = Ok true ->
  exists a, amount = VNumber a /\ Number_isFinite a = true /\
            nonneg a = true /\
            le (rounding_distance a) num_0_001 = true.
Proof.
  unfold validateMonetaryAmount.
  destruct amount as [ | | b | a | s | ]; try discriminate.
  destruct (Number_isFinite a) eqn:Fa; simpl negb; cbv iota; [ | discriminate].
  destruct (lt a num_0) eqn:Ha; [discriminate | ].
  fold (rounding_distance a).
  destruct (gt (rounding_distance a) num_0_001) eqn:Hd; [discriminate | ].
  intros _. exists a.
  split; [reflexivity | split; [exact Fa | split]].
  - apply finite_not_lt_nonneg; assumption.
  - apply not_gt_le; [ | discriminate | exact Hd].
    apply rounding_distance_not_nan; assumption.
Qed.

(** What a successful [validateAdvanceAmount] has checked. *)
Lemma validateAdvanceAmount_ok total advance :
  validateAdvanceAmount total advance = Ok true ->
  exists t a, total = VNumber t /\ advance = VNumber a /\
              Number_isFinite t = true /\ Number_isFinite a = true /\
              valid_pair t a.
Proof.
  unfold validateAdvanceAmount; intros H.
  destruct (validateMonetaryAmount total (Some "Total monthly salary"))
    as [[ | ] | msg] eqn:Et; simpl in H; try discriminate.
  2:{ destruct (validateMonetaryAmount_cases total (Some "Total monthly salary"))
        as [E | (rest & E)]; rewrite E in Et; discriminate. }
  destruct (validateMonetaryAmount advance (Some "Advance amount paid"))
    as [[ | ] | msg] eqn:Ea; simpl in H; try discriminate.
  2:{ destruct (validateMonetaryAmount_cases advance (Some "Advance amount paid"))
        as [E | (rest & E)]; rewrite E in Ea; discriminate. }
  destruct (validateMonetaryAmount_ok _ _ Et) as (t & -> & Ft & Nt & _).
  destruct (validateMonetaryAmount_ok _ _ Ea) as (a & -> & Fa & Na & _).
  simpl number_of in H.
  destruct (gt a t) eqn:Hgt; [discriminate | ].
  exists t, a. repeat split; try assumption.
  apply not_gt_le; auto using finite_not_nan.
Qed.

(** The classification of a remaining salary that is a number at least 0,
    for an advance that is a number at least 0. *)
Lemma classify_nonneg (advance r : number) :
  nonneg advance = true -> nonneg r = true ->
  (if strict_eq r num_0 then Ok "Paid"
   else if gt advance num_0 && gt r num_0 then Ok "Partially Paid"
   else if strict_eq advance num_0 then Ok "Pending"
   else Throw "Unable to determine payment status with given inputs")
  = Ok (if strict_eq r num_0 then "Paid"
        else if gt advance num_0 then "Partially Paid" else "Pending").
Proof.
  intros Ha Hr.
  destruct (strict_eq r num_0) eqn:E0; [reflexivity | ].
  rewrite (nonneg_zero_or_pos _ Hr E0), andb_true_r.
  destruct (gt advance num_0) eqn:Eg; [reflexivity | ].
  destruct (strict_eq advance num_0) eqn:Ee; [reflexivity | ].
  rewrite (nonneg_zero_or_pos _ Ha Ee) in Eg. discriminate.
Qed.

Lemma determinePaymentStatus_on_valid total advance :
  is_binary64 total = true -> is_binary64 advance = true ->
  valid_pair total advance -> Number_isFinite advance = true ->
  determinePaymentStatus (VNumber total) (VNumber advance)
  = Ok (if strict_eq (round2 (sub total advance)) num_0 then "Paid"
        else if gt advance num_0 then "Partially Paid" else "Pending").
Proof.
  intros Vt Va Hv Fa.
  pose proof (remaining_nonneg _ _ Vt Va Hv Fa) as Hr.
  unfold determinePaymentStatus.
  rewrite (calculateRemainingSalary_on_valid _ _ Hv); simpl bind; simpl number_of.
  apply classify_nonneg; [ | exact Hr].
  destruct Hv as (_ & Ha & _); exact Ha.
Qed.

(** ** X1: [isFullyPaid] is the "Paid" status *)

(** For all arguments, [isFullyPaid] answers [true] exactly when
    [determinePaymentStatus] answers "Paid", and both fail with the failure
    of [calculateRemainingSalary] when that fails. *)
Theorem isFullyPaid_iff_Paid (total advance : value) :
  (isFullyPaid total advance = Ok true <->
   determinePaymentStatus total advance = Ok "Paid")
  /\ (forall msg,
        calculateRemainingSalary total advance = Throw msg ->
        isFullyPaid total advance = Throw msg /\
        determinePaymentStatus total advance = Throw msg)
  /\ (forall r,
        calculateRemainingSalary total advance = Ok r ->
        exists b, isFullyPaid total advance = Ok b).
Proof.
  unfold isFullyPaid, determinePaymentStatus.
  destruct (calculateRemainingSalary total advance) as [r | msg0]; simpl bind.
  - split; [ | split; [discriminate | eauto]].
    destruct (strict_eq r num_0); [split; reflexivity | ].
    split; [discriminate | ].
    destruct (gt (number_of advance) num_0 && gt r num_0); [discriminate | ].
    destruct (strict_eq (number_of advance) num_0); discriminate.
  - split; [split; discriminate | split; [ | discriminate]].
    intros msg [= ->]. split; reflexivity.
Qed.

(** ** X2: an advance equal to the total *)

(** For every finite total that is at least 0, an advance equal to the
    total leaves a remaining salary of exactly 0, the status "Paid", and
    [isFullyPaid] true. *)
Theorem full_advance_is_paid (total : number) :
  Number_isFinite total = true -> ge total num_0 = true ->
  calculateRemainingSalary (VNumber total) (VNumber total) = Ok num_0
  /\ determinePaymentStatus (VNumber total) (VNumber total) = Ok "Paid"
  /\ isFullyPaid (VNumber total) (VNumber total) = Ok true.
Proof.
  intros Ft Ht.
  assert (E : calculateRemainingSalary (VNumber total) (VNumber total) = Ok num_0).
  { rewrite calculateRemainingSalary_on_valid.
    - rewrite (sub_self _ Ft). reflexivity.
    - repeat split; try exact Ht.
      unfold le, SFleb. rewrite SFcompare_refl by (apply finite_not_nan, Ft).
      reflexivity. }
  unfold determinePaymentStatus, isFullyPaid; rewrite E.
  repeat split.
Qed.

Lemma full_advance_is_paid_witness :
  determinePaymentStatus (VNumber (decimal 1 2)) (VNumber (decimal 1 2)) = Ok "Paid".
Proof.
  apply (full_advance_is_paid (decimal 1 2)); vm_compute; reflexivity.
Defined.

(** ** X3: a validated total with no advance *)

(** When [validateMonetaryAmount] accepts a total, the remaining salary for
    an advance of 0 is within 0.001 of the total, as JavaScript evaluates
    [Math.abs(total - remaining) <= 0.001]. *)
Theorem remaining_of_validated_total (total : number) (fieldName : option string) :
  validateMonetaryAmount (VNumber total) fieldName = Ok true ->
  exists remaining,
    calculateRemainingSalary (VNumber total) (VNumber num_0) = Ok remaining
    /\ le (Math_abs (sub total remaining)) num_0_001 = true.
Proof.
  intros Hv.
  destruct (validateMonetaryAmount_ok _ _ Hv) as (a & [= <-] & Ft & Nt & Hd).
  destruct (sub_zero_r total false Ft Nt) as [_ Es].
  exists (round2 total); split.
  - rewrite calculateRemainingSalary_on_valid.
    + fold (round2 (sub total num_0)). unfold num_0 at 1. rewrite Es; reflexivity.
    + repeat split; [exact Nt | ].
      apply nonneg_cases in Nt.
      destruct Nt as [(s & ->) | [(m & e & ->) | ->]]; reflexivity.
  - exact Hd.
Qed.

Lemma remaining_of_validated_total_witness :
  exists remaining,
    calculateRemainingSalary (VNumber (decimal 123456 2)) (VNumber num_0)
    = Ok remaining
    /\ le (Math_abs (sub (decimal 123456 2) remaining)) num_0_001 = true.
Proof.
  apply (remaining_of_validated_total (decimal 123456 2) None).
  vm_compute. reflexivity.
Defined.

(** ** X4: [calculateSalaryDetails] is gated by [validateAdvanceAmount] *)

(** For arguments that are JavaScript values, [calculateSalaryDetails]
    fails exactly when [validateAdvanceAmount] fails, with the same message;
    the guards of [calculateRemainingSalary] and the defensive branch of
    [determinePaymentStatus] are never what fails.  When it succeeds the
    record echoes the two inputs, carries the clock reading, the remaining
    salary of [calculateRemainingSalary] (a number at least 0), and the
    status of [determinePaymentStatus], which is "Paid" when the remaining
    salary is 0, else "Partially Paid" when the advance is positive, else
    "Pending". *)
Theorem calculateSalaryDetails_gated (now : Z) (total advance : value) :
  binary64_value total = true -> binary64_value advance = true ->
  (forall msg,
      validateAdvanceAmount total advance = Throw msg ->
      calculateSalaryDetails now total advance = Throw msg)
  /\ (validateAdvanceAmount total advance = Ok true ->
      exists remaining status,
        calculateSalaryDetails now total advance
        = Ok {| Details.totalMonthlySalary := total;
                Details.advanceAmountPaid := advance;
                Details.remainingSalaryPayable := remaining;
                Details.paymentStatus := status;
                Details.calculatedAt := now |}
        /\ calculateRemainingSalary total advance = Ok remaining
        /\ determinePaymentStatus total advance = Ok status
        /\ ge remaining num_0 = true
        /\ status = (if strict_eq remaining num_0 then "Paid"
                     else if gt (number_of advance) num_0 then "Partially Paid"
                     else "Pending"))
  /\ (forall msg,
      calculateSalaryDetails now total advance = Throw msg ->
      validateAdvanceAmount total advance = Throw msg).
Proof.
  intros Bt Ba.
  assert (Hok : validateAdvanceAmount total advance = Ok true ->
      exists remaining status,
        calculateSalaryDetails now total advance
        = Ok {| Details.totalMonthlySalary := total;
                Details.advanceAmountPaid := advance;
                Details.remainingSalaryPayable := remaining;
                Details.paymentStatus := status;
                Details.calculatedAt := now |}
        /\ calculateRemainingSalary total advance = Ok remaining
        /\ determinePaymentStatus total advance = Ok status
        /\ ge remaining num_0 = true
        /\ status = (if strict_eq remaining num_0 then "Paid"
                     else if gt (number_of advance) num_0 then "Partially Paid"
                     else "Pending")).
  { intros Hv.
    destruct (validateAdvanceAmount_ok _ _ Hv) as (t & a & -> & -> & Ft & Fa & Hp).
    simpl in Bt, Ba.
    pose proof (calculateRemainingSalary_on_valid _ _ Hp) as Er.
    pose proof (determinePaymentStatus_on_valid _ _ Bt Ba Hp Fa) as Es.
    do 2 eexists.
    split; [ | split; [exact Er | split; [exact Es | split]]].
    - unfold calculateSalaryDetails. rewrite Hv, Er, Es. reflexivity.
    - apply remaining_nonneg; assumption.
    - reflexivity. }
  split; [ | split; [exact Hok | ]].
  - intros msg Hv. unfold calculateSalaryDetails. rewrite Hv. reflexivity.
  - intros msg H.
    destruct (validateAdvanceAmount total advance) as [[ | ] | msg'] eqn:Hv.
    + destruct (Hok eq_refl) as (r & st & E & _). rewrite E in H. discriminate.
    + unfold validateAdvanceAmount in Hv.
      destruct (validateMonetaryAmount total _) as [b1 | m1]; simpl in Hv;
        [ | discriminate].
      destruct (validateMonetaryAmount advance _) as [b2 | m2]; simpl in Hv;
        [ | discriminate].
      destruct (gt _ _); discriminate.
    + unfold calculateSalaryDetails in H. rewrite Hv in H. simpl in H.
      symmetry. injection H as <-. reflexivity.
Qed.

Lemma calculateSalaryDetails_gated_witness :
  exists remaining status,
    calculateSalaryDetails 0 (VNumber (of_Z 5000)) (VNumber (of_Z 2000))
    = Ok {| Details.totalMonthlySalary := VNumber (of_Z 5000);
            Details.advanceAmountPaid := VNumber (of_Z 2000);
            Details.remainingSalaryPayable := remaining;
            Details.paymentStatus := status;
            Details.calculatedAt := 0 |}
    /\ remaining = of_Z 3000 /\ status = "Partially Paid".
Proof.
  destruct (calculateSalaryDetails_gated 0 (VNumber (of_Z 5000))
              (VNumber (of_Z 2000)) eq_refl eq_refl) as (_ & H & _).
  destruct H as (r & st & E & Er & Es & _ & _); [vm_compute; reflexivity | ].
  exists r, st. split; [exact E | ].
  vm_compute in Er, Es. injection Er as <-. injection Es as <-.
  split; reflexivity.
Defined.

(** ** X5: [hasAdvancePayment] against the status *)

Lemma gt_zero_not_eq a : gt a num_0 = true -> strict_eq a num_0 = false.
Proof.
  destruct a as [s | [ | ] | | [ | ] m e]; cbv; congruence.
Qed.

(** On a pair that passes [validateAdvanceAmount], [hasAdvancePayment]
    returns, and its answer fits the status: "Partially Paid" only with an
    advance payment, "Pending" only without one. *)
Theorem hasAdvancePayment_status (total advance : value) :
  validateAdvanceAmount total advance = Ok true ->
  (exists b, hasAdvancePayment advance = Ok b)
  /\ (determinePaymentStatus total advance = Ok "Partially Paid" ->
      hasAdvancePayment advance = Ok true)
  /\ (determinePaymentStatus total advance = Ok "Pending" ->
      hasAdvancePayment advance = Ok false).
Proof.
  intros Hv.
  destruct (validateAdvanceAmount_ok _ _ Hv) as (t & a & -> & -> & Ft & Fa & Hp).
  assert (Ha : validateMonetaryAmount (VNumber a) (Some "Advance amount paid")
               = Ok true).
  { unfold validateAdvanceAmount in Hv.
    destruct (validateMonetaryAmount (VNumber t) _) as [b1 | m1];
      cbn [bind] in Hv; [ | discriminate].
    destruct (validateMonetaryAmount_cases (VNumber a) (Some "Advance amount paid"))
      as [E | (rest & E)]; [exact E | ].
    rewrite E in Hv. discriminate. }
  unfold hasAdvancePayment, determinePaymentStatus.
  rewrite Ha, (calculateRemainingSalary_on_valid _ _ Hp).
  simpl bind; simpl number_of.
  split; [eauto | ].
  destruct (strict_eq (round2 (sub t a)) num_0);
    [split; intros H; discriminate H | ].
  destruct (gt a num_0) eqn:G; simpl andb.
  - split; [reflexivity | ].
    destruct (gt (round2 (sub t a)) num_0); [intros H; discriminate H | ].
    rewrite (gt_zero_not_eq _ G). intros H; discriminate H.
  - split; [ | reflexivity].
    destruct (strict_eq a num_0); intros H; discriminate H.
Qed.

Lemma hasAdvancePayment_status_witness :
  hasAdvancePayment (VNumber (of_Z 2000)) = Ok true.
Proof.
  apply (proj1 (proj2 (hasAdvancePayment_status (VNumber (of_Z 5000))
                         (VNumber (of_Z 2000)) eq_refl))).
  vm_compute. reflexivity.
Defined.

(** ** X6: the "Invalid" labels of the live calculation *)

Lemma or_zero_lt x : lt (or_zero x) num_0 = lt x num_0.
Proof. destruct x as [s | s | | s m e]; reflexivity. Qed.

Lemma or_zero_gt a t :
  a <> nan -> t <> nan -> gt (or_zero a) (or_zero t) = gt a t.
Proof.
  intros Ha Ht.
  destruct a as [sa | sa | | sa ma ea]; try (now destruct Ha);
    destruct t as [st | st | | st mt et]; try (now destruct Ht); reflexivity.
Qed.

(** On every pair of numbers other than NaN, the live calculation shows
    "Invalid" exactly when the engine rejects a negative total or a negative
    advance, and "Invalid - Advance exceeds total" exactly when the engine
    rejects an advance above the total; in both cases the remaining amount
    it shows is 0.  It shows one of the three engine statuses exactly when
    [calculateRemainingSalary] returns. *)
Theorem live_invalid_iff_engine_fails (total advance : number) :
  total <> nan -> advance <> nan ->
  let live := calculateRealTimeValues total advance in
  let engine := calculateRemainingSalary (VNumber total) (VNumber advance) in
  (paymentStatus live = "Invalid" <->
   engine = Throw "Total monthly salary cannot be negative" \/
   engine = Throw "Advance amount paid cannot be negative")
  /\ (paymentStatus live = "Invalid - Advance exceeds total" <->
      engine = Throw AdvanceExceedsTotal)
  /\ ((paymentStatus live = "Paid" \/ paymentStatus live = "Partially Paid" \/
       paymentStatus live = "Pending") <-> exists r, engine = Ok r)
  /\ ((forall r, engine <> Ok r) -> remainingSalary live = num_0).
Proof.
  intros Ht Ha live engine; subst live engine.
  unfold calculateRealTimeValues, calculateRemainingSalary.
  rewrite !or_zero_lt, (or_zero_gt _ _ Ha Ht).
  destruct (lt total num_0); simpl orb; cbv iota.
  { cbn [paymentStatus remainingSalary].
    repeat split; try discriminate; auto;
      try (intros [H | [H | H]]; discriminate);
      try (intros [H | H]; discriminate);
      try (intros [r H]; discriminate). }
  destruct (lt advance num_0); cbv iota.
  { cbn [paymentStatus remainingSalary].
    repeat split; try discriminate; auto;
      try (intros [H | [H | H]]; discriminate);
      try (intros [H | H]; discriminate);
      try (intros [r H]; discriminate). }
  destruct (gt advance total); cbv iota.
  { cbn [paymentStatus remainingSalary].
    repeat split; try discriminate; auto;
      try (intros [H | [H | H]]; discriminate);
      try (intros [H | H]; discriminate);
      try (intros [r H]; discriminate). }
  cbn [paymentStatus remainingSalary].
  set (d := sub (or_zero total) (or_zero advance)).
  split; [ | split; [ | split]].
  - split; [ | intros [H | H]; discriminate].
    destruct (strict_eq d num_0 && gt (or_zero total) num_0); [discriminate | ].
    destruct (gt (or_zero advance) num_0 && gt d num_0); [discriminate | ].
    destruct (strict_eq (or_zero advance) num_0); discriminate.
  - split; [ | discriminate].
    destruct (strict_eq d num_0 && gt (or_zero total) num_0); [discriminate | ].
    destruct (gt (or_zero advance) num_0 && gt d num_0); [discriminate | ].
    destruct (strict_eq (or_zero advance) num_0); discriminate.
  - split; [eauto | intros _].
    destruct (strict_eq d num_0 && gt (or_zero total) num_0); [auto | ].
    destruct (gt (or_zero advance) num_0 && gt d num_0); [auto | ].
    destruct (strict_eq (or_zero advance) num_0); auto.
  - intros H. exfalso. eapply H. reflexivity.
Qed.

Lemma live_invalid_iff_engine_fails_witness :
  paymentStatus (calculateRealTimeValues (of_Z 3000) (of_Z 5000))
  = "Invalid - Advance exceeds total".
Proof.
  apply (proj1 (proj2 (live_invalid_iff_engine_fails (of_Z 3000) (of_Z 5000)
                         ltac:(discriminate) ltac:(discriminate)))).
  vm_compute. reflexivity.
Defined.

(** ** X7: the remaining amount of the live calculation *)

(** On every pair of numbers other than NaN that the engine accepts, the
    remaining amount the live calculation shows is the engine's: the same
    number, or both are a zero (the engine's can be -0 where the live one is
    +0). *)
Theorem live_remaining_matches_engine (total advance r : number) :
  total <> nan -> advance <> nan ->
  calculateRemainingSalary (VNumber total) (VNumber advance) = Ok r ->
  remainingSalary (calculateRealTimeValues total advance) = r
  \/ (strict_eq r num_0 = true /\
      strict_eq (remainingSalary (calculateRealTimeValues total advance)) num_0
      = true).
Proof.
  intros Ht Ha.
  unfold calculateRealTimeValues, calculateRemainingSalary.
  rewrite !or_zero_lt, (or_zero_gt _ _ Ha Ht).
  destruct (lt total num_0) eqn:Lt; [discriminate | ].
  destruct (lt advance num_0) eqn:La; [discriminate | ].
  destruct (gt advance total) eqn:G; [discriminate | ].
  simpl orb; cbv iota; cbn [remainingSalary].
  intros [= <-].
  destruct total as [st | st | | st mt et]; try (now destruct Ht);
    destruct advance as [sa | sa | | sa ma ea]; try (now destruct Ha);
    try discriminate;
    try (left; reflexivity);
    try (right; destruct st, sa; split; reflexivity);
    try (destruct sa; discriminate).
Qed.

Lemma live_remaining_matches_engine_witness :
  remainingSalary (calculateRealTimeValues (decimal 333333 2) (decimal 111111 2))
  = decimal 222222 2.
Proof.
  destruct (live_remaining_matches_engine (decimal 333333 2) (decimal 111111 2)
              (decimal 222222 2)) as [H | [H _]].
  - discriminate.
  - discriminate.
  - vm_compute. reflexivity.
  - exact H.
  - vm_compute in H. discriminate.
Defined.

(** ** X8: the badge of the live status *)

(** The badge shown for the live status is the invalid one exactly when the
    total is negative, the advance is negative, or the advance exceeds the
    total, a blank or unparsable field (NaN) counting as 0; otherwise it is
    the badge of "Paid", "Partially Paid" or "Pending". *)
Theorem live_badge_invalid_iff (total advance : number) :
  let badge :=
    getStatusBadgeClass (paymentStatus (calculateRealTimeValues total advance)) in
  (badge = "status-badge status-invalid" <->
   lt total num_0 = true \/ lt advance num_0 = true \/
   gt (or_zero advance) (or_zero total) = true)
  /\ (badge = "status-badge status-invalid" \/ badge = "status-badge status-paid"
      \/ badge = "status-badge status-partial"
      \/ badge = "status-badge status-pending").
Proof.
  intros badge; subst badge.
  unfold calculateRealTimeValues.
  rewrite !or_zero_lt.
  destruct (lt total num_0); simpl orb; cbv iota.
  { split; [split; auto | left; reflexivity]. }
  destruct (lt advance num_0); cbv iota.
  { split; [split; auto | left; reflexivity]. }
  destruct (gt (or_zero advance) (or_zero total)); cbv iota.
  { split; [split; auto | left; reflexivity]. }
  cbn [paymentStatus].
  set (d := sub (or_zero total) (or_zero advance)).
  assert (Hno : forall P : Prop, false = true \/ false = true \/ false = true -> P).
  { intros P [H | [H | H]]; discriminate H. }
  destruct (strict_eq d num_0 && gt (or_zero total) num_0).
  { split; [split; [intros H; discriminate H | apply Hno] | ].
    right; left; reflexivity. }
  destruct (gt (or_zero advance) num_0 && gt d num_0).
  { split; [split; [intros H; discriminate H | apply Hno] | ].
    right; right; left; reflexivity. }
  destruct (strict_eq (or_zero advance) num_0).
  { split; [split; [intros H; discriminate H | apply Hno] | ].
    right; right; right; reflexivity. }
  split; [split; [intros H; discriminate H | apply Hno] | ].
  right; right; right; reflexivity.
Qed.

Lemma live_badge_invalid_iff_witness :
  getStatusBadgeClass
    (paymentStatus (calculateRealTimeValues (of_Z (-100)) (of_Z 50)))
  = "status-badge status-invalid".
Proof.
  apply (proj1 (live_badge_invalid_iff (of_Z (-100)) (of_Z 50))).
  left. reflexivity.
Defined.

(** ** X9: the advance percentage is a number *)

Lemma div_nonneg x my ey :
  nonneg x = true -> nonneg (div x (S754_finite false my ey)) = true.
Proof.
  intros H; apply nonneg_cases in H.
  destruct H as [(s & ->) | [(m & e & ->) | ->]]; try reflexivity.
  apply has_sign_nonneg.
  unfold div, SFdiv.
  pose proof (SFdiv_core_binary_nonneg (Z.pos m) e (Z.pos my) ey
                ltac:(lia) ltac:(lia)) as Hq.
  destruct (SFdiv_core_binary prec emax _ e _ ey) as [[mz ez] lz].
  simpl in Hq.
  apply (binary_round_aux_sign prec emax false); exact Hq.
Qed.

(** On a pair that passes [validateAdvanceAmount],
    [calculateAdvancePercentage] returns a number that is at least 0: never
    NaN (the division by a total of 0 is not performed) and never
    negative. *)
Theorem calculateAdvancePercentage_nonneg (total advance : value) :
  validateAdvanceAmount total advance = Ok true ->
  exists p, calculateAdvancePercentage total advance = Ok p
            /\ ge p num_0 = true /\ p <> nan.
Proof.
  intros Hv.
  destruct (validateAdvanceAmount_ok _ _ Hv) as (t & a & -> & -> & Ft & Fa & Hp).
  destruct Hp as (Nt & Na & _).
  unfold calculateAdvancePercentage. rewrite Hv. simpl bind; simpl number_of.
  destruct (strict_eq t num_0) eqn:E0.
  - exists num_0. repeat split. discriminate.
  - eexists; split; [reflexivity | ].
    assert (N : nonneg (round2 (mul (div a t) num_100)) = true).
    { apply round2_nonneg, mul_100_nonneg.
      apply nonneg_cases in Nt.
      destruct Nt as [(s & ->) | [(m & e & ->) | ->]]; try discriminate.
      apply div_nonneg, Na. }
    split; [exact N | apply nonneg_not_nan, N].
Qed.

Lemma calculateAdvancePercentage_nonneg_witness :
  exists p, calculateAdvancePercentage (VNumber (of_Z 3000)) (VNumber (of_Z 1000))
            = Ok p /\ ge p num_0 = true /\ p <> nan.
Proof.
  apply calculateAdvancePercentage_nonneg. vm_compute. reflexivity.
Defined.

(** * The value of a number, and the accuracy of the engine

    The rest of the file reads a binary64 number as the real number it
    stands for and follows the rounding of each operation of
    [calculateRemainingSalary], to bound how far the remaining salary is
    from the exact difference. *)

(** ** Powers of two as reals *)

Definition bpow (e : Z) : R := powerRZ 2 e.

Lemma bpow_pos e : (0 < bpow e)%R.
Proof. apply powerRZ_lt; lra. Qed.

Lemma bpow_add a b : bpow (a + b) = (bpow a * bpow b)%R.
Proof. apply powerRZ_add; lra. Qed.

Lemma bpow_0 : bpow 0 = 1%R.
Proof. reflexivity. Qed.

Lemma bpow_1 : bpow 1 = 2%R.
Proof. unfold bpow; simpl; lra. Qed.

Lemma bpow_m1 : bpow (-1) = (/ 2)%R.
Proof. unfold bpow; simpl. f_equal. lra. Qed.

Lemma bpow_opp e : bpow (- e) = (/ bpow e)%R.
Proof. apply powerRZ_neg'. Qed.

Lemma bpow_IZR n : 0 <= n -> bpow n = IZR (2 ^ n).
Proof.
  intros Hn; destruct n as [ | p | p]; [reflexivity | | lia].
  unfold bpow. change (2 ^ Z.pos p) with (Z.pow_pos 2 p).
  rewrite Zpower_pos_powerRZ. reflexivity.
Qed.

Lemma bpow_ge_1 n : 0 <= n -> (1 <= bpow n)%R.
Proof.
  intros Hn; rewrite (bpow_IZR n Hn).
  apply IZR_le. pose proof (Z.pow_pos_nonneg 2 n); lia.
Qed.

Lemma bpow_le a b : a <= b -> (bpow a <= bpow b)%R.
Proof.
  intros H; replace b with (a + (b - a)) by lia.
  rewrite bpow_add.
  pose proof (bpow_pos a); pose proof (bpow_ge_1 (b - a) ltac:(lia)).
  nra.
Qed.

Lemma bpow_lt a b : a < b -> (bpow a < bpow b)%R.
Proof.
  intros H; replace b with (a + 1 + (b - a - 1)) by lia.
  rewrite !bpow_add, bpow_1.
  pose proof (bpow_pos a); pose proof (bpow_ge_1 (b - a - 1) ltac:(lia)).
  nra.
Qed.

Lemma bpow_lt_inv a b : (bpow a < bpow b)%R -> a < b.
Proof.
  intros H; destruct (Z_lt_le_dec a b) as [L | L]; [exact L | ].
  pose proof (bpow_le b a L); lra.
Qed.

Lemma bpow_half e : bpow (e - 1) = (bpow e / 2)%R.
Proof.
  replace (e - 1) with (e + - (1)) by lia.
  rewrite bpow_add, bpow_opp, bpow_1. field.
Qed.

(** The number of binary digits, against powers of two. *)
Lemma Zdigits2_bounds m :
  0 < m -> (bpow (Zdigits2 m - 1) <= IZR m < bpow (Zdigits2 m))%R.
Proof.
  intros Hm; destruct m as [ | p | p]; try lia; simpl Zdigits2.
  pose proof (digits2_pos_bounds p) as [L U].
  rewrite !bpow_IZR by lia. split; [apply IZR_le | apply IZR_lt]; assumption.
Qed.

Lemma Zdigits2_nonneg m : 0 <= Zdigits2 m.
Proof. destruct m; simpl; lia. Qed.

Lemma Zdigits2_le m j : 0 < m -> (IZR m < bpow j)%R -> Zdigits2 m <= j.
Proof.
  intros Hm H.
  pose proof (Zdigits2_bounds m Hm) as [L _].
  assert (Hlt : (bpow (Zdigits2 m - 1) < bpow j)%R) by lra.
  apply bpow_lt_inv in Hlt. lia.
Qed.

(** ** Shifting a mantissa right

    A record [(m, r, s)] locates a real [x] in [[m, m + 1)]: the round bit
    [r] says that [x] is in the upper half, the sticky bit [s] that [x] is
    neither [m] nor the midpoint. *)

Definition located (x : R) (mrs : shr_record) : Prop :=
  (IZR (shr_m mrs) <= x < IZR (shr_m mrs) + 1)%R /\
  (shr_r mrs = true <-> (IZR (shr_m mrs) + / 2 <= x)%R) /\
  (shr_s mrs = true <-> (x <> IZR (shr_m mrs) /\ x <> IZR (shr_m mrs) + / 2)%R).

Lemma IZR_xO p : IZR (Z.pos p~0) = (2 * IZR (Z.pos p))%R.
Proof. rewrite Pos2Z.inj_xO, mult_IZR. reflexivity. Qed.

Lemma IZR_xI p : IZR (Z.pos p~1) = (2 * IZR (Z.pos p) + 1)%R.
Proof. rewrite Pos2Z.inj_xI, plus_IZR, mult_IZR. reflexivity. Qed.

Lemma shr_1_decomp m r s :
  0 <= m ->
  exists m' b,
    shr_1 (Build_shr_record m r s) = Build_shr_record m' b (r || s)
    /\ m = 2 * m' + (if b then 1 else 0) /\ 0 <= m'.
Proof.
  intros Hm.
  destruct m as [ | [p | p | ] | p]; try lia.
  - exists 0, false. repeat split; lia.
  - exists (Z.pos p), true. repeat split; lia.
  - exists (Z.pos p), false. repeat split; lia.
  - exists 0, true. repeat split; lia.
Qed.

Lemma located_bits x m r s :
  located x (Build_shr_record m r s) ->
  (IZR m <= x < IZR m + 1)%R /\
  (if r then (IZR m + / 2 <= x)%R else (x < IZR m + / 2)%R) /\
  (if s then (x <> IZR m /\ x <> IZR m + / 2)%R
   else (x = IZR m \/ x = IZR m + / 2)%R).
Proof.
  unfold located; cbn [shr_m shr_r shr_s].
  intros [B [Hr Hs]]. split; [exact B | split].
  - destruct r.
    + apply Hr; reflexivity.
    + apply Rnot_le_lt. intros C. apply Hr in C. discriminate C.
  - destruct s.
    + apply Hs; reflexivity.
    + destruct (Req_dec x (IZR m)) as [E | E]; [left; exact E | ].
      destruct (Req_dec x (IZR m + / 2)) as [E' | E']; [right; exact E' | ].
      exfalso. assert (C : false = true) by (apply Hs; split; assumption).
      discriminate C.
Qed.

Lemma bits_located (x : R) (m : Z) (r s : bool) :
  (IZR m <= x < IZR m + 1)%R ->
  (if r then (IZR m + / 2 <= x)%R else (x < IZR m + / 2)%R) ->
  (if s then (x <> IZR m /\ x <> IZR m + / 2)%R
   else (x = IZR m \/ x = IZR m + / 2)%R) ->
  located x (Build_shr_record m r s).
Proof.
  intros B Hr Hs. unfold located; cbn [shr_m shr_r shr_s].
  split; [exact B | split; split].
  - intros ->. exact Hr.
  - intros C. destruct r; [reflexivity | lra].
  - intros ->. exact Hs.
  - intros [C1 C2]. destruct s; [reflexivity | ].
    destruct Hs as [E | E]; contradiction.
Qed.

Lemma shr_1_located x mrs :
  0 <= shr_m mrs -> located x mrs -> located (x / 2) (shr_1 mrs).
Proof.
  destruct mrs as [m r s]; cbn [shr_m]; intros Hm H.
  destruct (located_bits _ _ _ _ H) as (B & Hr & Hs).
  destruct (shr_1_decomp m r s Hm) as (m' & b & -> & E & _).
  assert (Em : IZR m = (2 * IZR m' + (if b then 1%R else 0%R))%R).
  { rewrite E, plus_IZR, mult_IZR. destruct b; reflexivity. }
  clear E H. rewrite Em in *. clear Em.
  apply bits_located.
  - destruct b; lra.
  - destruct b; lra.
  - destruct b, r, s; cbn [orb]; try (split; lra).
    + destruct Hs as [E | E]; [right; lra | lra].
    + destruct Hs as [E | E]; [left; lra | lra].
Qed.

(** [n] successive shifts. *)
Lemma iter_shr_1_located p :
  forall x mrs,
    0 <= shr_m mrs -> located x mrs ->
    0 <= shr_m (iter_pos shr_1 p mrs) /\
    located (x * bpow (- Z.pos p)) (iter_pos shr_1 p mrs).
Proof.
  induction p as [p IH | p IH | ]; intros x mrs Hm H; simpl iter_pos.
  - pose proof (shr_1_nonneg mrs Hm) as H0.
    pose proof (shr_1_located x mrs Hm H) as H1.
    destruct (IH _ _ H0 H1) as [H2 H3].
    destruct (IH _ _ H2 H3) as [H4 H5].
    split; [exact H4 | ].
    replace (x * bpow (- Z.pos p~1))%R
      with (x / 2 * bpow (- Z.pos p) * bpow (- Z.pos p))%R; [exact H5 | ].
    replace (- Z.pos p~1) with (-1 + (- Z.pos p + - Z.pos p)) by lia.
    rewrite !bpow_add, bpow_m1. field.
  - destruct (IH _ _ Hm H) as [H2 H3].
    destruct (IH _ _ H2 H3) as [H4 H5].
    split; [exact H4 | ].
    replace (x * bpow (- Z.pos p~0))%R
      with (x * bpow (- Z.pos p) * bpow (- Z.pos p))%R; [exact H5 | ].
    replace (- Z.pos p~0) with (- Z.pos p + - Z.pos p) by lia.
    rewrite !bpow_add. ring.
  - split; [apply shr_1_nonneg, Hm | ].
    change (- Z.pos 1) with (-1). rewrite bpow_m1.
    apply shr_1_located; assumption.
Qed.

Lemma shr_located mrs e n x :
  0 <= shr_m mrs -> located x mrs ->
  0 <= shr_m (fst (shr mrs e n)) /\
  snd (shr mrs e n) = e + Z.max 0 n /\
  located (x * bpow (- Z.max 0 n)) (fst (shr mrs e n)).
Proof.
  intros Hm H; destruct n as [ | p | p]; cbn [shr fst snd].
  - rewrite Z.max_id. change (- 0) with 0. rewrite bpow_0, Rmult_1_r.
    split; [exact Hm | split; [lia | exact H]].
  - rewrite Z.max_r by lia.
    destruct (iter_shr_1_located p x mrs Hm H) as [H1 H2].
    split; [exact H1 | split; [zfold; lia | exact H2]].
  - rewrite Z.max_l by lia. change (- 0) with 0. rewrite bpow_0, Rmult_1_r.
    split; [exact Hm | split; [lia | exact H]].
Qed.

(** ** Rounding to nearest, ties to even *)

Lemma rne_located x mrs :
  located x mrs ->
  let m1 := round_nearest_even (shr_m mrs) (loc_of_shr_record mrs) in
  (Rabs (IZR m1 - x) <= / 2)%R /\
  shr_m mrs <= m1 <= shr_m mrs + 1 /\
  (shr_r mrs = false -> shr_s mrs = false -> IZR m1 = x).
Proof.
  destruct mrs as [m r s]; intros H.
  destruct (located_bits _ _ _ _ H) as (B & Hr & Hs).
  cbn [shr_m shr_r shr_s loc_of_shr_record].
  destruct r, s; cbn [round_nearest_even].
  - rewrite plus_IZR. repeat split; try lia; try discriminate.
    apply Rabs_le; lra.
  - destruct Hs as [E | E]; [lra | ].
    destruct (Z.even m); rewrite ?plus_IZR;
      (repeat split; try lia; try discriminate; apply Rabs_le; lra).
  - repeat split; try lia; try discriminate. apply Rabs_le; lra.
  - destruct Hs as [E | E]; [ | lra].
    repeat split; try lia; [apply Rabs_le; lra | intros _ _; lra].
Qed.

Definition B2R (f : spec_float) : R :=
  match f with
  | S754_finite s m e => (IZR (cond_Zopp s (Z.pos m)) * bpow e)%R
  | _ => 0%R
  end.

(** A finite number that is at least 0. *)
Definition finite_nonneg (f : spec_float) : Prop :=
  (exists s, f = S754_zero s) \/ exists m e, f = S754_finite false m e.

Lemma Rabs_le_inv x b : (Rabs x <= b)%R -> (- b <= x <= b)%R.
Proof. unfold Rabs. destruct (Rcase_abs x); lra. Qed.

Section RoundingCorrect.

Variables fprec femax : Z.
Hypothesis fprec_pos : 0 < fprec.

Lemma fexp_ge_emin e : emin fprec femax <= fexp fprec femax e.
Proof. unfold fexp; zfold; lia. Qed.

Lemma fexp_mono a b : a <= b -> fexp fprec femax a <= fexp fprec femax b.
Proof. unfold fexp; zfold; lia. Qed.

Lemma IZR_succ_le_bpow m :
  0 <= m -> (IZR m + 1 <= bpow (Zdigits2 m))%R.
Proof.
  intros Hm. destruct (Z.eq_dec m 0) as [-> | Hz].
  - change (Zdigits2 0) with 0. rewrite bpow_0. lra.
  - destruct m as [ | p | p]; try lia. simpl Zdigits2.
    pose proof (digits2_pos_bounds p) as [_ U].
    rewrite bpow_IZR by lia. rewrite <- plus_IZR. apply IZR_le. lia.
Qed.

Lemma Zdigits2_le0 m j : 0 <= m -> 0 <= j -> (IZR m < bpow j)%R -> Zdigits2 m <= j.
Proof.
  intros Hm Hj H. destruct (Z.eq_dec m 0) as [-> | Hz]; [exact Hj | ].
  apply Zdigits2_le; [lia | exact H].
Qed.

(** What [binary_round_aux] returns, when the exponent stays below the
    overflow threshold: the mantissa [m1] nearest to the value located by
    [(mx, lx)], at the exponent [e'], or one exponent higher when [m1]
    reached [2 ^ fprec]. *)
Lemma binary_round_aux_cases mx ex lx x :
  0 <= mx -> located x (shr_record_of_loc mx lx) ->
  let e' := Z.max ex (fexp fprec femax (Zdigits2 mx + ex)) in
  e' < femax - fprec ->
  let r := binary_round_aux fprec femax false mx ex lx in
  exists m1 : Z,
    (Rabs (IZR m1 * bpow e' - x * bpow ex) <= bpow e' / 2)%R /\
    (lx = loc_Exact -> fexp fprec femax (Zdigits2 mx + ex) <= ex ->
     (IZR m1 * bpow e' = x * bpow ex)%R) /\
    ((m1 = 0 /\ r = S754_zero false) \/
     (exists p, m1 = Z.pos p /\ m1 < 2 ^ fprec /\ r = S754_finite false p e') \/
     (exists p, m1 = 2 ^ fprec /\ Z.pos p = 2 ^ (fprec - 1) /\
                r = S754_finite false p (e' + 1))).
Proof.
  intros Hm Hloc e' He' r; subst r.
  unfold binary_round_aux, shr_fexp.
  set (n := fexp fprec femax (Zdigits2 mx + ex) - ex).
  assert (Hm0 : 0 <= shr_m (shr_record_of_loc mx lx))
    by (rewrite shr_record_of_loc_m; exact Hm).
  destruct (shr_located _ ex n x Hm0 Hloc) as (Hm' & He1 & Hloc').
  destruct (shr (shr_record_of_loc mx lx) ex n) as [mrs' e1] eqn:E1.
  cbn [fst snd] in Hm', He1, Hloc'.
  set (k := Z.max 0 n) in *.
  assert (Ee : e1 = e') by (rewrite He1; subst e' k n; zfold; lia).
  clear He1. subst e1.
  destruct (rne_located _ _ Hloc') as (Herr & Hm1 & Hex).
  set (m1 := round_nearest_even (shr_m mrs') (loc_of_shr_record mrs')) in *.
  (* the value, in terms of [m1] *)
  assert (Hval : (Rabs (IZR m1 * bpow e' - x * bpow ex) <= bpow e' / 2)%R).
  { replace (x * bpow ex)%R with (x * bpow (- k) * bpow e')%R.
    - rewrite <- Rmult_minus_distr_r, Rabs_mult.
      rewrite (Rabs_pos_eq (bpow e')) by (apply Rlt_le, bpow_pos).
      pose proof (bpow_pos e'). nra.
    - assert (Hb : bpow ex = (bpow (- k) * bpow e')%R).
      { rewrite <- bpow_add. f_equal. subst e' k n; zfold; lia. }
      rewrite Hb. ring. }
  assert (Hexact : lx = loc_Exact ->
                   fexp fprec femax (Zdigits2 mx + ex) <= ex ->
                   (IZR m1 * bpow e' = x * bpow ex)%R).
  { intros -> Hn.
    assert (n <= 0) by (subst n; lia).
    assert (Ek : k = 0) by (subst k; lia).
    assert (Ee' : e' = ex) by (subst e'; zfold; lia).
    destruct n as [ | p | p]; try lia; cbn [shr] in E1;
      injection E1 as <- _;
      rewrite (Hex eq_refl eq_refl), Ee', Ek;
      change (- 0) with 0; rewrite bpow_0; ring. }
  (* the rounded mantissa has at most [fprec] digits, or is [2 ^ fprec] *)
  assert (Hlt : shr_m mrs' < 2 ^ fprec).
  { apply lt_IZR. rewrite <- bpow_IZR by lia.
    destruct Hloc' as [[L _] _].
    eapply Rle_lt_trans; [exact L | ].
    destruct Hloc as [[_ U] _]. rewrite shr_record_of_loc_m in U.
    pose proof (IZR_succ_le_bpow mx Hm) as Hd.
    assert (Hk : Zdigits2 mx + - k <= fprec).
    { subst k n. unfold fexp. zfold. lia. }
    pose proof (bpow_le _ _ Hk) as Hb. rewrite bpow_add in Hb.
    pose proof (bpow_pos (- k)). nra. }
  assert (Hemin : emin fprec femax <= e').
  { subst e'. pose proof (fexp_ge_emin (Zdigits2 mx + ex)). zfold. lia. }
  change (shr_record_of_loc m1 loc_Exact) with (Build_shr_record m1 false false).
  exists m1. split; [exact Hval | split; [exact Hexact | ]].
  clear Hval Hexact Herr Hex.
  destruct (Z_lt_le_dec m1 (2 ^ fprec)) as [Hsmall | Hbig].
  - (* no second shift *)
    assert (Hd1 : Zdigits2 m1 <= fprec).
    { apply Zdigits2_le0; [lia | lia | ].
      rewrite bpow_IZR by lia. apply IZR_lt, Hsmall. }
    assert (Hn2 : fexp fprec femax (Zdigits2 m1 + e') - e' <= 0).
    { pose proof (fexp_ge_emin (Zdigits2 mx + ex)).
      unfold fexp in *. zfold. lia. }
    assert (Hm1' : 0 <= m1) by lia.
    clearbody m1.
    destruct (fexp fprec femax (Zdigits2 m1 + e') - e') as [ | p | p] eqn:En2;
      try lia; cbn [shr shr_m];
      (destruct m1 as [ | p1 | p1]; [ | | lia]);
      try (left; split; reflexivity);
      (replace (e' <=? femax - fprec) with true
         by (symmetry; apply Z.leb_le; lia));
      right; left; exists p1; repeat split; exact Hsmall.
  - (* the mantissa reached [2 ^ fprec]: one more shift, which is exact *)
    assert (Em1 : m1 = 2 ^ fprec) by lia.
    assert (Hd1 : Zdigits2 m1 = fprec + 1).
    { assert (0 < m1) by (rewrite Em1; apply Z.pow_pos_nonneg; lia).
      pose proof (Zdigits2_bounds m1 ltac:(lia)) as [L U].
      rewrite Em1 in L at 2. rewrite Em1 in U at 1.
      rewrite <- bpow_IZR in L, U by lia.
      apply bpow_lt_inv in U.
      assert (~ fprec < Zdigits2 m1 - 1).
      { intros C. apply bpow_lt in C. lra. }
      lia. }
    assert (En2 : fexp fprec femax (Zdigits2 m1 + e') - e' = 1).
    { rewrite Hd1. unfold fexp in *. zfold. lia. }
    rewrite En2. cbn [shr iter_pos].
    assert (Hpos : 0 <= m1) by lia.
    destruct (shr_1_decomp m1 false false Hpos) as (m2 & b & -> & E2 & Hm2).
    cbn [shr_m].
    assert (Eb : b = false /\ m2 = 2 ^ (fprec - 1)).
    { assert (E3 : 2 ^ fprec = 2 * 2 ^ (fprec - 1)).
      { rewrite <- Z.pow_succ_r by lia. f_equal. lia. }
      destruct b; split; try reflexivity; lia. }
    destruct Eb as [-> Em2].
    assert (Hm2pos : 0 < m2) by (rewrite Em2; apply Z.pow_pos_nonneg; lia).
    destruct m2 as [ | p2 | p2]; try lia.
    zfold.
    replace (e' + 1 <=? femax - fprec) with true
      by (symmetry; apply Z.leb_le; lia).
    right; right; exists p2. repeat split; assumption.
Qed.

(** The value [binary_round_aux] returns: within half a unit of the last
    place of the value located by [(mx, lx)] at exponent [ex]. *)
Lemma binary_round_aux_correct mx ex lx x :
  0 <= mx -> located x (shr_record_of_loc mx lx) ->
  let e' := Z.max ex (fexp fprec femax (Zdigits2 mx + ex)) in
  e' < femax - fprec ->
  let r := binary_round_aux fprec femax false mx ex lx in
  finite_nonneg r /\
  (Rabs (B2R r - x * bpow ex) <= bpow e' / 2)%R /\
  (lx = loc_Exact -> fexp fprec femax (Zdigits2 mx + ex) <= ex ->
   B2R r = (x * bpow ex)%R).
Proof.
  intros Hm Hloc e' He' r.
  destruct (binary_round_aux_cases mx ex lx x Hm Hloc He')
    as (m1 & Hval & Hexact & Hr).
  fold e' in Hval, Hexact, Hr. fold r in Hr.
  assert (Ev : (B2R r = IZR m1 * bpow e')%R).
  { destruct Hr as [[-> ->] | [(p & -> & _ & ->) | (p & -> & Hp & ->)]].
    - simpl. ring.
    - reflexivity.
    - cbn [B2R cond_Zopp]. rewrite Hp.
      replace fprec with (fprec - 1 + 1) at 2 by lia.
      rewrite Z.pow_add_r, mult_IZR, bpow_add, bpow_1 by lia.
      change (2 ^ 1) with 2. ring. }
  rewrite Ev.
  split; [ | split; [exact Hval | exact Hexact]].
  destruct Hr as [[_ ->] | [(p & _ & _ & ->) | (p & _ & _ & ->)]];
    [left | right | right]; eauto.
Qed.

Lemma Zdigits2_ge m j : 0 <= j -> 2 ^ j <= m -> j + 1 <= Zdigits2 m.
Proof.
  intros Hj H.
  assert (Hm : 0 < m) by (pose proof (Z.pow_pos_nonneg 2 j); lia).
  pose proof (Zdigits2_bounds m Hm) as [_ U].
  apply IZR_le in H. rewrite <- bpow_IZR in H by exact Hj.
  assert (Hlt : (bpow j < bpow (Zdigits2 m))%R) by lra.
  apply bpow_lt_inv in Hlt. lia.
Qed.

(** The number [binary_round_aux] returns is canonical when the mantissa
    it is given is at least as long as the format asks. *)
Lemma binary_round_aux_valid mx ex lx x :
  0 <= mx -> located x (shr_record_of_loc mx lx) ->
  ex <= fexp fprec femax (Zdigits2 mx + ex) ->
  fexp fprec femax (Zdigits2 mx + ex) < femax - fprec ->
  valid_binary fprec femax (binary_round_aux fprec femax false mx ex lx) = true.
Proof.
  intros Hm Hloc Hn He.
  pose proof (binary_round_aux_cases mx ex lx x Hm Hloc) as H.
  cbv zeta in H.
  rewrite Z.max_r in H by exact Hn.
  destruct (H He) as (m1 & Hval & _ & Hr); clear H.
  set (e' := fexp fprec femax (Zdigits2 mx + ex)) in *.
  assert (Hemin : emin fprec femax <= e') by apply fexp_ge_emin.
  destruct Hr as [[_ ->] | [(p & E1 & Hp & ->) | (p & E1 & Hp & ->)]].
  - reflexivity.
  - cbn [valid_binary]. unfold bounded, canonical_mantissa.
    apply andb_true_intro; split; [apply Z.eqb_eq | apply Z.leb_le; lia].
    change (Z.pos (digits2_pos p)) with (Zdigits2 (Z.pos p)).
    rewrite <- E1.
    assert (Hd1 : Zdigits2 m1 <= fprec).
    { apply Zdigits2_le0; [lia | lia | ].
      rewrite bpow_IZR by lia. apply IZR_lt, Hp. }
    destruct (Z.eq_dec e' (emin fprec femax)) as [Ee | Ne].
    + rewrite Ee. unfold fexp. zfold. lia.
    + assert (Ed : e' = Zdigits2 mx + ex - fprec).
      { subst e'. unfold fexp in *. zfold. lia. }
      assert (Hmx : 0 < mx).
      { destruct (Z.eq_dec mx 0) as [-> | Hz]; [ | lia].
        change (Zdigits2 0) with 0 in Ed. lia. }
      assert (Hge : 2 ^ (fprec - 1) <= m1).
      { pose proof (Zdigits2_bounds mx Hmx) as [L _].
        destruct Hloc as [[Lx _] _]. rewrite shr_record_of_loc_m in Lx.
        assert (Hb : (bpow (fprec - 1) * bpow e' = bpow (Zdigits2 mx - 1) * bpow ex)%R).
        { rewrite <- !bpow_add. f_equal. lia. }
        apply Rabs_le_inv in Hval.
        pose proof (bpow_pos e'). pose proof (bpow_pos ex).
        pose proof (bpow_pos (fprec - 1)).
        assert (Hx : (bpow (fprec - 1) * bpow e' <= x * bpow ex)%R).
        { rewrite Hb. apply Rmult_le_compat_r; lra. }
        assert (Hr : (bpow (fprec - 1) - 1 < IZR m1)%R) by nra.
        rewrite bpow_IZR in Hr by lia.
        rewrite <- minus_IZR in Hr. apply lt_IZR in Hr. lia. }
      pose proof (Zdigits2_ge m1 (fprec - 1) ltac:(lia) Hge).
      unfold fexp. zfold. lia.
  - cbn [valid_binary]. unfold bounded, canonical_mantissa.
    apply andb_true_intro; split; [apply Z.eqb_eq | apply Z.leb_le; lia].
    change (Z.pos (digits2_pos p)) with (Zdigits2 (Z.pos p)).
    rewrite Hp.
    assert (Hd : Zdigits2 (2 ^ (fprec - 1)) = fprec).
    { pose proof (Zdigits2_ge (2 ^ (fprec - 1)) (fprec - 1) ltac:(lia) ltac:(lia)).
      assert (Zdigits2 (2 ^ (fprec - 1)) <= fprec); [ | lia].
      apply Zdigits2_le0; [apply Z.pow_nonneg; lia | lia | ].
      rewrite <- bpow_IZR by lia. apply bpow_lt. lia. }
    rewrite Hd. unfold fexp. zfold. lia.
Qed.

End RoundingCorrect.

Lemma located_exact m : located (IZR m) (Build_shr_record m false false).
Proof. apply bits_located; [lra | lra | left; reflexivity]. Qed.

Lemma finite_nonneg_B2R f : finite_nonneg f -> (0 <= B2R f)%R.
Proof.
  intros [(s & ->) | (m & e & ->)]; simpl; [lra | ].
  pose proof (bpow_pos e). assert (0 < IZR (Z.pos m))%R by (apply IZR_lt; lia).
  nra.
Qed.

(** [shl_align] keeps the value and lowers the exponent to the smaller of
    the two. *)
Lemma shl_align_value mx ex ex' :
  (IZR (Z.pos (fst (shl_align mx ex ex'))) * bpow (snd (shl_align mx ex ex'))
   = IZR (Z.pos mx) * bpow ex)%R
  /\ snd (shl_align mx ex ex') = Z.min ex ex'.
Proof.
  destruct (Z_le_gt_dec ex' ex) as [L | G].
  - rewrite shl_align_fst, shl_align_snd by exact L.
    split; [ | lia].
    rewrite mult_IZR, <- bpow_IZR by lia.
    rewrite Rmult_assoc, <- bpow_add. f_equal. f_equal. lia.
  - unfold shl_align. zfold.
    destruct (ex' - ex) as [ | d | d] eqn:E; try lia.
    cbn [fst snd]. split; [reflexivity | lia].
Qed.

Section NormalizeCorrect.

Variables fprec femax : Z.
Hypothesis fprec_pos : 0 < fprec.

(** The value of a mantissa with at most [K - e] digits. *)
Lemma digits_of_value m e K :
  0 < m -> (IZR m * bpow e < bpow K)%R -> Zdigits2 m + e <= K.
Proof.
  intros Hm H.
  pose proof (Zdigits2_bounds m Hm) as [L _].
  pose proof (bpow_pos e).
  assert (Hlt : (bpow (Zdigits2 m - 1 + e) < bpow K)%R).
  { rewrite bpow_add. nra. }
  apply bpow_lt_inv in Hlt. lia.
Qed.

Lemma binary_normalize_correct m e K :
  0 <= m -> (IZR m * bpow e < bpow K)%R ->
  e <= K - fprec -> emin fprec femax <= K - fprec -> K < femax ->
  let r := binary_normalize fprec femax m e false in
  finite_nonneg r /\
  (Rabs (B2R r - IZR m * bpow e) <= bpow (K - fprec) / 2)%R.
Proof.
  intros Hm Hv He Hemin HK r; subst r.
  destruct m as [ | p | p]; try lia.
  - cbn. split; [left; eexists; reflexivity | ].
    rewrite Rmult_0_l, Rminus_0_r, Rabs_R0.
    pose proof (bpow_pos (K - fprec)). lra.
  - cbn [binary_normalize]. unfold binary_round.
    destruct (shl_align_value p e (fexp fprec femax (Z.pos (digits2_pos p) + e)))
      as [Ev Es].
    destruct (shl_align p e _) as [mz ez]. cbn [fst snd] in Ev, Es.
    rewrite <- Ev in Hv |- *.
    assert (Hez : ez <= e) by lia.
    pose proof (digits_of_value (Z.pos mz) ez K ltac:(lia) Hv) as Hd.
    assert (He' : Z.max ez (fexp fprec femax (Zdigits2 (Z.pos mz) + ez))
                  <= K - fprec).
    { unfold fexp. zfold. lia. }
    destruct (binary_round_aux_correct fprec femax fprec_pos
                (Z.pos mz) ez loc_Exact (IZR (Z.pos mz)))
      as (Hf & Herr & _); [lia | apply located_exact | lia | ].
    split; [exact Hf | ].
    eapply Rle_trans; [exact Herr | ].
    pose proof (bpow_le _ _ He'). lra.
Qed.

Lemma binary_normalize_exact m e :
  0 <= m -> fexp fprec femax (Zdigits2 m + e) <= e -> e < femax - fprec ->
  let r := binary_normalize fprec femax m e false in
  finite_nonneg r /\ B2R r = (IZR m * bpow e)%R.
Proof.
  intros Hm Hfe He r; subst r.
  destruct m as [ | p | p]; try lia.
  - cbn. split; [left; eexists; reflexivity | ring].
  - cbn [binary_normalize]. unfold binary_round.
    cbn [Zdigits2] in Hfe.
    destruct (shl_align_value p e (fexp fprec femax (Z.pos (digits2_pos p) + e)))
      as [Ev Es].
    destruct (shl_align p e _) as [mz ez]. cbn [fst snd] in Ev, Es.
    assert (Hez : ez = fexp fprec femax (Z.pos (digits2_pos p) + e)) by lia.
    assert (Hd : Zdigits2 (Z.pos mz) + ez <= Z.pos (digits2_pos p) + e).
    { apply digits_of_value; [lia | ].
      rewrite Ev.
      pose proof (Zdigits2_bounds (Z.pos p) ltac:(lia)) as [_ U].
      cbn [Zdigits2] in U. rewrite bpow_add.
      pose proof (bpow_pos e). nra. }
    pose proof (fexp_mono fprec femax _ _ Hd) as Hmono.
    destruct (binary_round_aux_correct fprec femax fprec_pos
                (Z.pos mz) ez loc_Exact (IZR (Z.pos mz)))
      as (Hf & _ & Hex); [lia | apply located_exact | zfold; lia | ].
    split; [exact Hf | ].
    rewrite Hex; [exact Ev | reflexivity | lia].
Qed.

End NormalizeCorrect.

(** ** The operations of the engine on binary64 *)

Lemma prec_val : prec = 53.
Proof. reflexivity. Qed.

Lemma emax_val : emax = 1024.
Proof. reflexivity. Qed.

Lemma prec_pos : 0 < prec.
Proof. reflexivity. Qed.

Lemma num_100_value : (IZR 7036874417766400 * bpow (-46) = 100)%R.
Proof.
  change 7036874417766400 with (100 * 2 ^ 46).
  rewrite mult_IZR, <- bpow_IZR by lia.
  rewrite Rmult_assoc, <- bpow_add. change (46 + -46) with 0.
  rewrite bpow_0. ring.
Qed.

Lemma bpow_7 : bpow 7 = 128%R.
Proof. rewrite bpow_IZR by lia. reflexivity. Qed.

Lemma mul_100_correct x K :
  finite_nonneg x -> (B2R x < bpow K)%R -> -1028 <= K -> K < 1017 ->
  finite_nonneg (mul x num_100) /\
  (Rabs (B2R (mul x num_100) - 100 * B2R x) <= bpow (K - 46) / 2)%R.
Proof.
  intros [(s & ->) | (m & e & ->)] Hv HK1 HK2.
  - split; [left; eexists; reflexivity | ].
    simpl. rewrite Rmult_0_r, Rminus_0_r, Rabs_R0.
    pose proof (bpow_pos (K - 46)). lra.
  - unfold mul, num_100, SFmul. cbn [xorb].
    cbn [B2R cond_Zopp] in Hv |- *.
    set (mp := Z.pos (m * 7036874417766400)).
    assert (Emp : (IZR mp * bpow (e + -46) = 100 * (IZR (Z.pos m) * bpow e))%R).
    { subst mp. rewrite Pos2Z.inj_mul, mult_IZR, bpow_add.
      rewrite <- num_100_value. ring. }
    assert (Hpv : (IZR mp * bpow (e + -46) < bpow (K + 7))%R).
    { rewrite Emp, bpow_add, bpow_7. pose proof (bpow_pos K). lra. }
    pose proof (digits_of_value mp (e + -46) (K + 7) ltac:(subst mp; lia) Hpv)
      as Hd.
    assert (He : e < K).
    { apply bpow_lt_inv.
      assert (1 <= IZR (Z.pos m))%R by (apply IZR_le; lia).
      pose proof (bpow_pos e). nra. }
    assert (He' : Z.max (e + -46) (fexp prec emax (Zdigits2 mp + (e + -46)))
                  <= K - 46).
    { unfold fexp, emin. rewrite prec_val, emax_val. zfold. lia. }
    destruct (binary_round_aux_correct prec emax prec_pos
                mp (e + -46) loc_Exact (IZR mp))
      as (Hf & Herr & _).
    + subst mp; lia.
    + apply located_exact.
    + rewrite prec_val, emax_val in *. zfold. lia.
    + zfold. split; [exact Hf | ].
      rewrite <- Emp.
      eapply Rle_trans; [exact Herr | ].
      pose proof (bpow_le _ _ He'). lra.
Qed.

(** The exponent of [x * 100]. *)
Lemma mul_100_exponent x K m e :
  finite_nonneg x -> (B2R x < bpow K)%R -> -1028 <= K -> K < 1017 ->
  mul x num_100 = S754_finite false m e -> e <= K - 45.
Proof.
  intros [(s & ->) | (mx & ex & ->)] Hv HK1 HK2; [discriminate | ].
  unfold mul, num_100, SFmul. cbn [xorb].
  cbn [B2R cond_Zopp] in Hv.
  set (mp := Z.pos (mx * 7036874417766400)).
  assert (Emp : (IZR mp * bpow (ex + -46) = 100 * (IZR (Z.pos mx) * bpow ex))%R).
  { subst mp. rewrite Pos2Z.inj_mul, mult_IZR, bpow_add.
    rewrite <- num_100_value. ring. }
  assert (Hpv : (IZR mp * bpow (ex + -46) < bpow (K + 7))%R).
  { rewrite Emp, bpow_add, bpow_7. pose proof (bpow_pos K). lra. }
  pose proof (digits_of_value mp (ex + -46) (K + 7) ltac:(subst mp; lia) Hpv)
    as Hd.
  assert (He : ex < K).
  { apply bpow_lt_inv.
    assert (1 <= IZR (Z.pos mx))%R by (apply IZR_le; lia).
    pose proof (bpow_pos ex). nra. }
  assert (He' : Z.max (ex + -46) (fexp prec emax (Zdigits2 mp + (ex + -46)))
                <= K - 46).
  { unfold fexp, emin. rewrite prec_val, emax_val. zfold. lia. }
  destruct (binary_round_aux_cases prec emax prec_pos
              mp (ex + -46) loc_Exact (IZR mp))
    as (m1 & _ & _ & Hr).
  - subst mp; lia.
  - apply located_exact.
  - rewrite prec_val, emax_val in *. zfold. lia.
  - zfold. intros E. rewrite E in Hr.
    set (e1 := Z.max (ex + -46) _) in *. clearbody e1.
    destruct Hr as [[_ Hr] | [(p & _ & _ & Hr) | (p & _ & _ & Hr)]];
      [discriminate Hr | | ]; injection Hr as _ ->; lia.
Qed.

Lemma of_Z_exact k :
  0 <= k -> (IZR k < bpow 53)%R ->
  finite_nonneg (of_Z k) /\ B2R (of_Z k) = IZR k.
Proof.
  intros Hk Hb. unfold of_Z.
  destruct (binary_normalize_exact prec emax prec_pos k 0 Hk) as [Hf Hv].
  - pose proof (Zdigits2_le0 k 53 Hk ltac:(lia) Hb).
    unfold fexp, emin. rewrite prec_val, emax_val. zfold. lia.
  - reflexivity.
  - split; [exact Hf | ]. rewrite Hv, bpow_0. ring.
Qed.

Lemma bpow_52_53 : (bpow 52 + / 2 < bpow 53)%R.
Proof.
  rewrite !bpow_IZR by lia.
  change (2 ^ 53) with (2 * 2 ^ 52). rewrite mult_IZR.
  assert (1 <= IZR (2 ^ 52))%R by (apply IZR_le; lia). lra.
Qed.

(** [Math.round] is [floor (x + 1/2)]. *)
Lemma Math_round_floor m e :
  e < 0 ->
  let n := (2 * Z.pos m + 2 ^ (- e)) / 2 ^ (1 - e) in
  0 <= n /\
  (IZR n <= IZR (Z.pos m) * bpow e + / 2 < IZR n + 1)%R.
Proof.
  intros He n.
  set (A := 2 * Z.pos m + 2 ^ (- e)) in *.
  set (P := 2 ^ (1 - e)) in *.
  assert (HP : 0 < P) by (apply Z.pow_pos_nonneg; lia).
  assert (HA : 0 <= A).
  { subst A. pose proof (Z.pow_pos_nonneg 2 (- e)). lia. }
  assert (Hn : 0 <= n) by (apply Z.div_pos; lia).
  pose proof (Z.mul_div_le A P HP) as Hlo.
  pose proof (Z.mul_succ_div_gt A P HP) as Hhi.
  fold n in Hlo, Hhi.
  remember (IZR (Z.pos m) * bpow e)%R as v eqn:Hv.
  assert (EP : IZR P = bpow (1 - e)) by (subst P; rewrite bpow_IZR by lia; reflexivity).
  assert (EA : IZR A = (IZR P * (v + / 2))%R).
  { subst A v. rewrite plus_IZR, mult_IZR, <- bpow_IZR by lia.
    rewrite EP.
    replace (1 - e) with (1 + - e) by lia.
    rewrite bpow_add, bpow_1.
    assert (Hb : (bpow (- e) * bpow e = 1)%R).
    { rewrite <- bpow_add. replace (- e + e) with 0 by lia. apply bpow_0. }
    replace (2 * bpow (- e) * (IZR (Z.pos m) * bpow e + / 2))%R
      with (2 * IZR (Z.pos m) * (bpow (- e) * bpow e) + bpow (- e))%R
      by field.
    rewrite Hb. ring. }
  assert (HPr : (0 < IZR P)%R) by (apply IZR_lt; exact HP).
  apply IZR_le in Hlo. apply IZR_lt in Hhi.
  rewrite mult_IZR in Hlo. rewrite mult_IZR in Hhi.
  unfold Z.succ in Hhi. rewrite plus_IZR in Hhi.
  rewrite EA in Hlo, Hhi.
  split; [exact Hn | split; nra].
Qed.

Lemma Math_round_fraction m e :
  e < 0 ->
  Math_round (S754_finite false m e)
  = of_Z ((2 * Z.pos m + 2 ^ (- e)) / 2 ^ (1 - e)).
Proof.
  intros He. unfold Math_round.
  replace (0 <=? e) with false by (symmetry; apply Z.leb_gt; exact He).
  cbn [cond_Zopp].
  destruct (_ =? 0) eqn:E; [ | reflexivity].
  apply Z.eqb_eq in E. rewrite E. reflexivity.
Qed.

(** [Math.round] returns an integer within 1/2 of its argument. *)
Lemma Math_round_correct p :
  finite_nonneg p -> (B2R p < bpow 52)%R ->
  exists k, 0 <= k /\ finite_nonneg (Math_round p) /\
            B2R (Math_round p) = IZR k /\
            (Rabs (IZR k - B2R p) <= / 2)%R.
Proof.
  intros [(s & ->) | (m & e & ->)] Hv.
  - exists 0. repeat split; [lia | left; eexists; reflexivity | ].
    simpl. rewrite Rminus_0_r, Rabs_R0. lra.
  - cbn [B2R cond_Zopp] in Hv |- *.
    destruct (Z_le_gt_dec 0 e) as [He | He].
    + unfold Math_round.
      replace (0 <=? e) with true by (symmetry; apply Z.leb_le; exact He).
      exists (Z.pos m * 2 ^ e).
      assert (Ev : IZR (Z.pos m * 2 ^ e) = (IZR (Z.pos m) * bpow e)%R).
      { rewrite mult_IZR, bpow_IZR by lia. reflexivity. }
      repeat split.
      * pose proof (Z.pow_pos_nonneg 2 e). lia.
      * right; eauto.
      * cbn [B2R cond_Zopp]. rewrite Ev. reflexivity.
      * rewrite Ev, Rminus_diag, Rabs_R0. lra.
    + rewrite (Math_round_fraction m e ltac:(lia)).
      destruct (Math_round_floor m e ltac:(lia)) as (Hk & Hlo & Hhi).
      set (k := (2 * Z.pos m + 2 ^ (- e)) / 2 ^ (1 - e)) in *.
      exists k.
      assert (Herr : (Rabs (IZR k - IZR (Z.pos m) * bpow e) <= / 2)%R)
        by (apply Rabs_le; lra).
      pose proof bpow_52_53.
      destruct (of_Z_exact k Hk ltac:(lra)) as [Hf Hval].
      repeat split; [lia | exact Hf | exact Hval | exact Herr].
Qed.

(** [Math.round] of a number less than 1/2 away from the integer [k]. *)
Lemma Math_round_near m e k :
  e < 0 -> (Rabs (IZR (Z.pos m) * bpow e - IZR k) < / 2)%R ->
  Math_round (S754_finite false m e) = of_Z k.
Proof.
  intros He Hk.
  destruct (Math_round_floor m e He) as (Hn & Hlo & Hhi).
  rewrite (Math_round_fraction m e He).
  set (n := (2 * Z.pos m + 2 ^ (- e)) / 2 ^ (1 - e)) in *.
  assert (E : n = k).
  { assert (Hk' : (- / 2 < IZR (Z.pos m) * bpow e - IZR k < / 2)%R).
    { unfold Rabs in Hk. destruct (Rcase_abs _); lra. }
    assert (H1 : (IZR n < IZR (k + 1))%R) by (rewrite plus_IZR; lra).
    assert (H2 : (IZR k < IZR (n + 1))%R) by (rewrite plus_IZR; lra).
    apply lt_IZR in H1, H2. lia. }
  rewrite E. reflexivity.
Qed.

(** ** Division *)

Lemma new_location_located nb r q :
  0 < nb -> 0 <= r < nb ->
  located (IZR q + IZR r / IZR nb) (shr_record_of_loc q (new_location nb r)).
Proof.
  intros Hnb [Hr0 Hr1].
  assert (Hnbr : (0 < IZR nb)%R) by (apply IZR_lt; exact Hnb).
  set (f := (IZR r / IZR nb)%R).
  assert (Ef : (f * IZR nb = IZR r)%R) by (subst f; field; lra).
  destruct (Z.eq_dec r 0) as [-> | Hz].
  - assert (E0 : f = 0%R) by (subst f; unfold Rdiv; apply Rmult_0_l).
    rewrite E0, Rplus_0_r.
    unfold new_location, new_location_even, new_location_odd.
    destruct (Z.even nb); cbn; apply located_exact.
  - assert (Hrpos : (0 < IZR r)%R) by (apply IZR_lt; lia).
    assert (Hrlt : (IZR r < IZR nb)%R) by (apply IZR_lt; lia).
    assert (Hf0 : (0 < f)%R) by nra.
    assert (Hf1 : (f < 1)%R) by nra.
    assert (Eqb : (r =? 0) = false) by (apply Z.eqb_neq; exact Hz).
    unfold new_location. zfold.
    destruct (Z.even nb) eqn:Ev;
      unfold new_location_even, new_location_odd; zfold; rewrite Eqb.
    + destruct (Z.compare_spec (2 * r) nb) as [E | L | G]; cbn.
      * assert (Er : (2 * IZR r = IZR nb)%R) by (rewrite <- E, mult_IZR; reflexivity).
        apply bits_located; [lra | nra | right; nra].
      * apply IZR_lt in L. rewrite mult_IZR in L.
        apply bits_located; [lra | nra | split; nra].
      * apply IZR_lt in G. rewrite mult_IZR in G.
        apply bits_located; [lra | nra | split; nra].
    + assert (Hodd : 2 * r <> nb).
      { intros E. rewrite <- E, Z.even_mul in Ev. discriminate. }
      destruct (Z.compare_spec (2 * r + 1) nb) as [E | L | G]; cbn.
      * assert (L : 2 * r < nb) by lia.
        apply IZR_lt in L. rewrite mult_IZR in L.
        apply bits_located; [lra | nra | split; nra].
      * assert (L' : 2 * r < nb) by lia.
        apply IZR_lt in L'. rewrite mult_IZR in L'.
        apply bits_located; [lra | nra | split; nra].
      * assert (G' : nb < 2 * r) by lia.
        apply IZR_lt in G'. rewrite mult_IZR in G'.
        apply bits_located; [lra | nra | split; nra].
Qed.

Lemma SFdiv_core_binary_correct m1 e1 m2 e2 :
  0 < m1 -> 0 < m2 ->
  exists q e' l x,
    SFdiv_core_binary prec emax m1 e1 m2 e2 = (q, e', l) /\
    0 <= q /\
    located x (shr_record_of_loc q l) /\
    (x * bpow e' = IZR m1 * bpow e1 / (IZR m2 * bpow e2))%R /\
    e' <= fexp prec emax (Zdigits2 m1 + e1 - (Zdigits2 m2 + e2)).
Proof.
  intros H1 H2. unfold SFdiv_core_binary. zfold.
  set (e' := Z.min (fexp prec emax (Zdigits2 m1 + e1 - (Zdigits2 m2 + e2)))
                   (e1 - e2)).
  remember (e1 - e2 - e') as s eqn:Es.
  assert (Hs : 0 <= s) by (subst s e'; lia).
  set (m' := match s with
             | 0 => m1
             | Z.pos _ => Z.shiftl m1 s
             | Z.neg _ => 0
             end).
  assert (Em' : m' = m1 * 2 ^ s).
  { subst m'. destruct s as [ | p | p]; try lia.
    apply Z.shiftl_mul_pow2. lia. }
  assert (Hm' : 0 <= m').
  { rewrite Em'. pose proof (Z.pow_pos_nonneg 2 s). nia. }
  pose proof (Z_div_mod m' m2 ltac:(lia)) as Hdm.
  destruct (Z.div_eucl m' m2) as [q r]. destruct Hdm as [Eq Hr].
  assert (Hq : 0 <= q) by nia.
  exists q, e', (new_location m2 r), (IZR q + IZR r / IZR m2)%R.
  split; [reflexivity | split; [exact Hq | split; [ | split]]].
  - apply new_location_located; lia.
  - assert (H2r : (0 < IZR m2)%R) by (apply IZR_lt; exact H2).
    assert (Ex : (IZR q + IZR r / IZR m2 = IZR m' / IZR m2)%R).
    { rewrite Eq, plus_IZR, mult_IZR. field. lra. }
    rewrite Ex, Em', mult_IZR, <- bpow_IZR by lia.
    assert (Eb : bpow e1 = (bpow s * bpow e' * bpow e2)%R).
    { rewrite <- !bpow_add. f_equal. lia. }
    rewrite Eb. pose proof (bpow_pos e2). field. lra.
  - subst e'. lia.
Qed.

Lemma bpow_6 : bpow 6 = 64%R.
Proof. rewrite bpow_IZR by lia. reflexivity. Qed.

(** The quotient [SFdiv_core_binary] returns is long enough for the
    rounding that follows to give a canonical number. *)
Lemma SFdiv_core_binary_long m1 e1 m2 e2 q e' l :
  0 < m1 -> 0 < m2 ->
  SFdiv_core_binary prec emax m1 e1 m2 e2 = (q, e', l) ->
  e' <= fexp prec emax (Zdigits2 q + e').
Proof.
  intros H1 H2 E.
  destruct (SFdiv_core_binary_correct m1 e1 m2 e2 H1 H2)
    as (q0 & e0 & l0 & x & E0 & Hq & Hloc & Hx & He').
  rewrite E in E0. injection E0 as <- <- <-.
  set (D := Zdigits2 m1 + e1 - (Zdigits2 m2 + e2)) in *.
  destruct (Z_le_gt_dec 0 (D - 1 - e')) as [Hj | Hj].
  - assert (Hd : D - e' <= Zdigits2 q).
    { pose proof (Zdigits2_bounds m1 H1) as [L1 _].
      pose proof (Zdigits2_bounds m2 H2) as [_ U2].
      pose proof (bpow_pos e1). pose proof (bpow_pos e2). pose proof (bpow_pos e').
      assert (H2r : (0 < IZR m2)%R) by (apply IZR_lt; exact H2).
      assert (Hv2 : (0 < IZR m2 * bpow e2)%R) by nra.
      assert (Hx' : (x * bpow e' * (IZR m2 * bpow e2) = IZR m1 * bpow e1)%R).
      { rewrite Hx. field. lra. }
      assert (Hv1 : (bpow (Zdigits2 m1 - 1) * bpow e1 <= IZR m1 * bpow e1)%R)
        by (apply Rmult_le_compat_r; lra).
      assert (Hv2' : (IZR m2 * bpow e2 < bpow (Zdigits2 m2) * bpow e2)%R)
        by (apply Rmult_lt_compat_r; lra).
      assert (Hb : (bpow (Zdigits2 m1 - 1) * bpow e1
                    = bpow (D - 1 - e') * bpow e' * (bpow (Zdigits2 m2) * bpow e2))%R).
      { rewrite <- !bpow_add. f_equal. subst D. lia. }
      pose proof (bpow_pos (D - 1 - e')) as Hbj.
      pose proof (bpow_pos (Zdigits2 m2)) as Hb2.
      assert (Hxpos : (0 < x * bpow e')%R).
      { assert (0 < IZR m1)%R by (apply IZR_lt; exact H1).
        assert (0 < IZR m1 * bpow e1)%R by nra.
        rewrite Hx. apply Rdiv_lt_0_compat; assumption. }
      assert (Hgt : (bpow (D - 1 - e') * bpow e' < x * bpow e')%R).
      { apply (Rmult_lt_reg_r (bpow (Zdigits2 m2) * bpow e2)); [nra | ].
        rewrite <- Hb.
        eapply Rle_lt_trans; [exact Hv1 | ].
        rewrite <- Hx'.
        apply Rmult_lt_compat_l; assumption. }
      assert (Hgt' : (bpow (D - 1 - e') < x)%R).
      { apply (Rmult_lt_reg_r (bpow e')); assumption. }
      destruct Hloc as [[_ U] _]. rewrite shr_record_of_loc_m in U.
      assert (Hq1 : (IZR (2 ^ (D - 1 - e')) < IZR (q + 1))%R).
      { rewrite <- bpow_IZR by lia. rewrite plus_IZR. lra. }
      apply lt_IZR in Hq1.
      pose proof (Zdigits2_ge q (D - 1 - e') Hj ltac:(lia)). lia. }
    pose proof (fexp_mono prec emax D (Zdigits2 q + e') ltac:(lia)). lia.
  - revert He'. unfold fexp, emin. rewrite prec_val. zfold. lia.
Qed.

(** The quotient of a division, before it is rounded: the dividend is
    below [2 ^ K], the divisor at least [2 ^ J]. *)
Lemma div_core m e mc ec K J :
  (IZR (Z.pos m) * bpow e < bpow K)%R ->
  (bpow J <= IZR (Z.pos mc) * bpow ec)%R ->
  -1074 <= K - J - 53 ->
  exists q e' l x,
    SFdiv_core_binary prec emax (Z.pos m) e (Z.pos mc) ec = (q, e', l) /\
    0 <= q /\ located x (shr_record_of_loc q l) /\
    (x * bpow e' = IZR (Z.pos m) * bpow e / (IZR (Z.pos mc) * bpow ec))%R /\
    e' <= fexp prec emax (Zdigits2 q + e') /\
    fexp prec emax (Zdigits2 q + e') <= K - J - 53.
Proof.
  intros Hv Hc HK.
  destruct (SFdiv_core_binary_correct (Z.pos m) e (Z.pos mc) ec)
    as (q & e' & l & x & E & Hq & Hloc & Hx & He'); [lia | lia | ].
  exists q, e', l, x.
  pose proof (SFdiv_core_binary_long (Z.pos m) e (Z.pos mc) ec
                q e' l ltac:(lia) ltac:(lia) E) as Hlong.
  pose proof (digits_of_value (Z.pos m) e K ltac:(lia) Hv) as Hd.
  assert (Hdc : J < Zdigits2 (Z.pos mc) + ec).
  { pose proof (Zdigits2_bounds (Z.pos mc) ltac:(lia)) as [_ U].
    pose proof (bpow_pos ec).
    assert (Hlt : (bpow J < bpow (Zdigits2 (Z.pos mc) + ec))%R).
    { rewrite bpow_add. eapply Rle_lt_trans; [exact Hc | ].
      apply Rmult_lt_compat_r; lra. }
    apply bpow_lt_inv in Hlt. exact Hlt. }
  repeat (split; [assumption | ]).
  destruct (Z.eq_dec q 0) as [-> | Hq0].
  - cbn [Zdigits2].
    revert He'. unfold fexp, emin. rewrite prec_val, emax_val. zfold. lia.
  - assert (Hqv : (IZR q * bpow e' < bpow (K - J))%R).
    { destruct Hloc as [[L _] _]. rewrite shr_record_of_loc_m in L.
      pose proof (bpow_pos e'). pose proof (bpow_pos J).
      pose proof (bpow_pos (K - J)).
      assert (Hb : bpow K = (bpow (K - J) * bpow J)%R).
      { rewrite <- bpow_add. f_equal. lia. }
      assert (Hcpos : (0 < IZR (Z.pos mc) * bpow ec)%R) by lra.
      assert (Hxv : (x * bpow e' < bpow (K - J))%R).
      { rewrite Hx.
        apply (Rmult_lt_reg_r (IZR (Z.pos mc) * bpow ec)); [exact Hcpos | ].
        unfold Rdiv. rewrite Rmult_assoc, Rinv_l, Rmult_1_r by lra.
        eapply Rlt_le_trans; [exact Hv | ].
        rewrite Hb. apply Rmult_le_compat_l; lra. }
      eapply Rle_lt_trans; [ | exact Hxv].
      apply Rmult_le_compat_r; lra. }
    pose proof (digits_of_value q e' (K - J) ltac:(lia) Hqv).
    unfold fexp, emin. rewrite prec_val, emax_val. zfold. lia.
Qed.

(** Division of a number that is at least 0 by a positive one: the result
    is a canonical binary64 number that is at least 0, within half a unit
    of its last place of the exact quotient. *)
Lemma div_correct n mc ec K J :
  finite_nonneg n -> (B2R n < bpow K)%R ->
  (bpow J <= IZR (Z.pos mc) * bpow ec)%R ->
  -1074 <= K - J - 53 -> K - J < 1024 ->
  finite_nonneg (div n (S754_finite false mc ec)) /\
  (Rabs (B2R (div n (S754_finite false mc ec))
         - B2R n / (IZR (Z.pos mc) * bpow ec)) <= bpow (K - J - 53) / 2)%R /\
  is_binary64 (div n (S754_finite false mc ec)) = true.
Proof.
  intros [(s & ->) | (m & e & ->)] Hv Hc HK1 HK2.
  - split; [left; eexists; reflexivity | split; [ | reflexivity]].
    simpl. unfold Rdiv. rewrite Rmult_0_l, Rminus_0_r, Rabs_R0.
    pose proof (bpow_pos (K - J - 53)). lra.
  - unfold is_binary64, div, SFdiv. cbn [xorb].
    cbn [B2R cond_Zopp] in Hv |- *.
    destruct (div_core m e mc ec K J Hv Hc HK1)
      as (q & e' & l & x & -> & Hq & Hloc & Hx & Hlong & Hq').
    assert (Hthr : emax - prec = 971) by reflexivity.
    destruct (binary_round_aux_correct prec emax prec_pos q e' l x Hq Hloc)
      as (Hf & Herr & _); [zfold; lia | ].
    split; [exact Hf | split].
    + rewrite <- Hx.
      eapply Rle_trans; [exact Herr | ].
      apply Rmult_le_compat_r; [lra | ].
      apply bpow_le. zfold. lia.
    + apply (binary_round_aux_valid prec emax prec_pos q e' l x Hq Hloc Hlong).
      lia.
Qed.

Lemma bpow_6_100 : (bpow 6 <= IZR (Z.pos 7036874417766400) * bpow (-46))%R.
Proof. rewrite num_100_value, bpow_6. lra. Qed.

Lemma div_100_correct n K :
  finite_nonneg n -> (B2R n < bpow K)%R -> -1014 <= K -> K < 1024 ->
  finite_nonneg (div n num_100) /\
  (Rabs (B2R (div n num_100) - B2R n / 100) <= bpow (K - 59) / 2)%R.
Proof.
  intros Fn Hv HK1 HK2.
  destruct (div_correct n 7036874417766400 (-46) K 6 Fn Hv bpow_6_100
              ltac:(lia) ltac:(lia)) as (Hf & Herr & _).
  rewrite num_100_value in Herr.
  replace (K - 6 - 53) with (K - 59) in Herr by lia.
  split; assumption.
Qed.

(** A division by 100 gives a canonical binary64 number. *)
Lemma div_100_valid n K :
  finite_nonneg n -> (B2R n < bpow K)%R -> -1014 <= K -> K < 1024 ->
  is_binary64 (div n num_100) = true.
Proof.
  intros Fn Hv HK1 HK2.
  apply (div_correct n 7036874417766400 (-46) K 6 Fn Hv bpow_6_100); lia.
Qed.

(** ** Subtraction and addition of canonical numbers *)

Lemma canonical_exponent m e K :
  bounded prec emax m e = true ->
  (IZR (Z.pos m) * bpow e < bpow K)%R -> -1021 <= K -> e <= K - 53.
Proof.
  intros Hb Hv HK.
  pose proof (digits_of_value (Z.pos m) e K ltac:(lia) Hv) as Hd.
  cbn [Zdigits2] in Hd.
  unfold bounded, canonical_mantissa, fexp, emin in Hb.
  apply andb_prop in Hb. destruct Hb as [Hb _].
  apply Z.eqb_eq in Hb. rewrite prec_val, emax_val in Hb. zfold. lia.
Qed.

Lemma aligned_value mx ex ez :
  ez <= ex ->
  (IZR (Z.pos (fst (shl_align mx ex ez))) * bpow ez = IZR (Z.pos mx) * bpow ex)%R.
Proof.
  intros H. destruct (shl_align_value mx ex ez) as [Ev Es].
  rewrite Es, Z.min_r in Ev by exact H. exact Ev.
Qed.

Lemma sub_correct t a K :
  is_binary64 t = true -> is_binary64 a = true ->
  finite_nonneg t -> finite_nonneg a -> le a t = true ->
  (B2R t < bpow K)%R -> -1021 <= K -> K < 1024 ->
  finite_nonneg (sub t a) /\
  (Rabs (B2R (sub t a) - (B2R t - B2R a)) <= bpow (K - 53) / 2)%R /\
  (B2R a <= B2R t)%R.
Proof.
  intros Vt Va Ft Fa Hle Hv HK1 HK2.
  pose proof (bpow_pos (K - 53)) as Hbp.
  destruct Fa as [(sa & ->) | (ma & ea & ->)];
    destruct Ft as [(st & ->) | (mt & et & ->)].
  - split; [left; destruct st, sa; eexists; reflexivity | ].
    assert (E : B2R (sub (S754_zero st) (S754_zero sa)) = 0%R)
      by (destruct st, sa; reflexivity).
    rewrite E. cbn [B2R]. rewrite !Rminus_0_r, Rabs_R0. lra.
  - split; [right; eexists; eexists; reflexivity | ].
    cbn [sub SFsub B2R cond_Zopp].
    change (SFsub prec emax (S754_finite false mt et) (S754_zero sa))
      with (S754_finite false mt et).
    cbn [B2R cond_Zopp]. rewrite Rminus_0_r, Rminus_diag, Rabs_R0.
    pose proof (bpow_pos et).
    assert (0 < IZR (Z.pos mt))%R by (apply IZR_lt; lia).
    split; [lra | nra].
  - discriminate Hle.
  - cbn [is_binary64 valid_binary] in Vt, Va.
    cbn [B2R cond_Zopp] in Hv |- *.
    pose proof (compare_canonical_le prec emax prec_pos ma ea mt et Va Vt Hle)
      as Hc.
    unfold sub, SFsub, cond_Zopp. zfold.
    set (ez := Z.min et ea) in *.
    rewrite <- !shl_align_fst in Hc by (subst ez; lia).
    pose proof (aligned_value mt et ez ltac:(subst ez; lia)) as Et.
    pose proof (aligned_value ma ea ez ltac:(subst ez; lia)) as Ea.
    set (Mt := Z.pos (fst (shl_align mt et ez))) in *.
    set (Ma := Z.pos (fst (shl_align ma ea ez))) in *.
    assert (ED : (IZR (Mt - Ma) * bpow ez
                  = IZR (Z.pos mt) * bpow et - IZR (Z.pos ma) * bpow ea)%R).
    { rewrite minus_IZR, Rmult_minus_distr_r, Et, Ea. reflexivity. }
    assert (HA : (0 < IZR (Z.pos ma) * bpow ea)%R).
    { pose proof (bpow_pos ea).
      assert (0 < IZR (Z.pos ma))%R by (apply IZR_lt; lia). nra. }
    pose proof (canonical_exponent mt et K Vt Hv HK1) as Het.
    destruct (binary_normalize_correct prec emax prec_pos (Mt - Ma) ez K)
      as [Hf Herr].
    + lia.
    + rewrite ED. lra.
    + rewrite prec_val. subst ez. lia.
    + unfold emin. rewrite prec_val, emax_val. lia.
    + rewrite emax_val. lia.
    + rewrite ED, prec_val in Herr.
      split; [exact Hf | split; [exact Herr | ]].
      assert (0 <= IZR (Mt - Ma))%R by (apply IZR_le; lia).
      pose proof (bpow_pos ez). nra.
Qed.

Lemma add_correct a q K :
  is_binary64 a = true -> finite_nonneg a -> finite_nonneg q ->
  (B2R a + B2R q < bpow K)%R -> -1021 <= K -> K < 1024 ->
  finite_nonneg (add a q) /\
  (Rabs (B2R (add a q) - (B2R a + B2R q)) <= bpow (K - 53) / 2)%R.
Proof.
  intros Va Fa Fq Hv HK1 HK2.
  pose proof (bpow_pos (K - 53)) as Hbp.
  pose proof (finite_nonneg_B2R q Fq) as Hq0.
  pose proof (finite_nonneg_B2R a Fa) as Ha0.
  destruct Fa as [(sa & ->) | (ma & ea & ->)];
    destruct Fq as [(sq & ->) | (mq & eq & ->)].
  - split; [left; destruct sa, sq; eexists; reflexivity | ].
    assert (E : B2R (add (S754_zero sa) (S754_zero sq)) = 0%R)
      by (destruct sa, sq; reflexivity).
    rewrite E. cbn [B2R]. rewrite Rplus_0_r, Rminus_0_r, Rabs_R0. lra.
  - split; [right; eexists; eexists; reflexivity | ].
    change (add (S754_zero sa) (S754_finite false mq eq))
      with (S754_finite false mq eq).
    cbn [B2R cond_Zopp]. rewrite Rplus_0_l, Rminus_diag, Rabs_R0. lra.
  - split; [right; eexists; eexists; reflexivity | ].
    change (add (S754_finite false ma ea) (S754_zero sq))
      with (S754_finite false ma ea).
    cbn [B2R cond_Zopp]. rewrite Rplus_0_r, Rminus_diag, Rabs_R0. lra.
  - cbn [is_binary64 valid_binary] in Va.
    cbn [B2R cond_Zopp] in Hv, Hq0, Ha0 |- *.
    unfold add, SFadd, cond_Zopp. zfold.
    set (ez := Z.min ea eq) in *.
    pose proof (aligned_value ma ea ez ltac:(subst ez; lia)) as Ea.
    pose proof (aligned_value mq eq ez ltac:(subst ez; lia)) as Eq.
    set (Ma := Z.pos (fst (shl_align ma ea ez))) in *.
    set (Mq := Z.pos (fst (shl_align mq eq ez))) in *.
    assert (ES : (IZR (Ma + Mq) * bpow ez
                  = IZR (Z.pos ma) * bpow ea + IZR (Z.pos mq) * bpow eq)%R).
    { rewrite plus_IZR, Rmult_plus_distr_r, Ea, Eq. reflexivity. }
    assert (Hav : (IZR (Z.pos ma) * bpow ea < bpow K)%R) by lra.
    pose proof (canonical_exponent ma ea K Va Hav HK1) as Hea.
    destruct (binary_normalize_correct prec emax prec_pos (Ma + Mq) ez K)
      as [Hf Herr].
    + subst Ma Mq. lia.
    + rewrite ES. exact Hv.
    + rewrite prec_val. subst ez. lia.
    + unfold emin. rewrite prec_val, emax_val. lia.
    + rewrite emax_val. lia.
    + rewrite ES, prec_val in Herr. split; [exact Hf | exact Herr].
Qed.

(** ** The remaining salary, as a real number *)

Definition num_1e12 : number := S754_finite false 8192000000000000 (-13).

Example literal_1e12 : of_Z (10 ^ 12) = num_1e12.
Proof. vm_compute. reflexivity. Qed.

Lemma bpow_neg n : 0 <= n -> bpow (- n) = (/ IZR (2 ^ n))%R.
Proof. intros Hn. rewrite bpow_opp, bpow_IZR by exact Hn. reflexivity. Qed.

Lemma below_1e12 t :
  is_binary64 t = true -> nonneg t = true -> lt t num_1e12 = true ->
  finite_nonneg t /\ (B2R t < bpow 40)%R.
Proof.
  intros Vt Nt Hlt. apply nonneg_cases in Nt.
  destruct Nt as [(s & ->) | [(m & e & ->) | ->]]; [ | | discriminate Hlt].
  - split; [left; eauto | ]. cbn [B2R]. apply bpow_pos.
  - split; [right; eauto | ].
    cbn [is_binary64 valid_binary] in Vt.
    destruct (bounded_digits prec emax m e Vt) as [Hd _].
    assert (He : e <= -13).
    { unfold lt, SFltb, SFcompare, num_1e12 in Hlt. zfold.
      destruct (Z.compare_spec e (-13)); try lia; discriminate Hlt. }
    pose proof (digits2_pos_bounds m) as [_ U].
    assert (Hm : (IZR (Z.pos m) < bpow 53)%R).
    { rewrite bpow_IZR by lia. apply IZR_lt.
      eapply Z.lt_le_trans; [exact U | ].
      apply Z.pow_le_mono_r; [lia | rewrite prec_val in Hd; exact Hd]. }
    cbn [B2R cond_Zopp].
    assert (Hb : (bpow 53 * bpow e <= bpow 40)%R).
    { rewrite <- bpow_add. apply bpow_le. lia. }
    pose proof (bpow_pos e). nra.
Qed.

Lemma remaining_error t a :
  is_binary64 t = true -> is_binary64 a = true ->
  valid_pair t a -> lt t num_1e12 = true ->
  finite_nonneg (round2 (sub t a)) /\
  (Rabs (B2R (round2 (sub t a)) - (B2R t - B2R a)) <= 6 / 1000)%R /\
  finite_nonneg (add a (round2 (sub t a))) /\
  (Rabs (B2R (add a (round2 (sub t a))) - B2R t) <= 6 / 1000)%R.
Proof.
  intros Vt Va (Ht & Ha & Hle) Hlt.
  destruct (below_1e12 t Vt Ht Hlt) as [Ft HT].
  assert (Fa : finite_nonneg a).
  { apply nonneg_cases in Ha.
    destruct Ha as [(sa & ->) | [(ma & ea & ->) | ->]];
      [left; eauto | right; eauto | ].
    destruct Ft as [(st & ->) | (mt & et & ->)]; discriminate Hle. }
  pose proof (finite_nonneg_B2R a Fa) as HA0.
  assert (B40 : bpow 40 = 1099511627776%R) by (rewrite bpow_IZR by lia; reflexivity).
  assert (B41 : bpow 41 = 2199023255552%R) by (rewrite bpow_IZR by lia; reflexivity).
  assert (B42 : bpow 42 = 4398046511104%R) by (rewrite bpow_IZR by lia; reflexivity).
  assert (B47 : bpow 47 = 140737488355328%R) by (rewrite bpow_IZR by lia; reflexivity).
  assert (B48 : bpow 48 = 281474976710656%R) by (rewrite bpow_IZR by lia; reflexivity).
  assert (B52 : bpow 52 = 4503599627370496%R) by (rewrite bpow_IZR by lia; reflexivity).
  assert (N13 : bpow (-13) = (/ 8192)%R) by exact (bpow_neg 13 ltac:(lia)).
  assert (N5 : bpow (-5) = (/ 32)%R) by exact (bpow_neg 5 ltac:(lia)).
  assert (N11 : bpow (-11) = (/ 2048)%R) by exact (bpow_neg 11 ltac:(lia)).
  (* the difference *)
  destruct (sub_correct t a 40 Vt Va Ft Fa Hle HT ltac:(lia) ltac:(lia))
    as (Fd & Ed & HAT).
  change (40 - 53) with (-13) in Ed. rewrite N13 in Ed.
  apply Rabs_le_inv in Ed.
  remember (sub t a) as d eqn:Hd_def.
  remember (B2R d) as D eqn:HD_def.
  remember (B2R t) as T eqn:HT_def.
  remember (B2R a) as A eqn:HA_def.
  (* times 100 *)
  assert (HD41 : (B2R d < bpow 41)%R) by (rewrite <- HD_def; lra).
  destruct (mul_100_correct d 41 Fd HD41 ltac:(lia) ltac:(lia)) as (Fp & Ep).
  change (41 - 46) with (-5) in Ep. rewrite N5, <- HD_def in Ep.
  apply Rabs_le_inv in Ep.
  remember (mul d num_100) as p eqn:Hp_def.
  remember (B2R p) as P eqn:HP_def.
  (* rounded to an integer *)
  assert (HP52 : (B2R p < bpow 52)%R) by (rewrite <- HP_def; lra).
  destruct (Math_round_correct p Fp HP52) as (k & Hk & Fn & En & Ek).
  rewrite <- En, <- HP_def in Ek. apply Rabs_le_inv in Ek.
  remember (Math_round p) as n eqn:Hn_def.
  remember (B2R n) as N eqn:HN_def.
  (* divided by 100 *)
  assert (HN48 : (B2R n < bpow 48)%R) by (rewrite <- HN_def; lra).
  destruct (div_100_correct n 48 Fn HN48 ltac:(lia) ltac:(lia)) as (Fq & Eq).
  change (48 - 59) with (-11) in Eq. rewrite N11, <- HN_def in Eq.
  apply Rabs_le_inv in Eq.
  assert (Hq_def : div n num_100 = round2 d).
  { rewrite Hn_def, Hp_def. reflexivity. }
  rewrite Hq_def in Fq, Eq.
  remember (round2 d) as q eqn:Hq_def'.
  remember (B2R q) as Q eqn:HQ_def.
  (* added to the advance *)
  assert (HS42 : (B2R a + B2R q < bpow 42)%R)
    by (rewrite <- HA_def, <- HQ_def; lra).
  destruct (add_correct a q 42 Va Fa Fq HS42 ltac:(lia) ltac:(lia)) as (Fs & Es).
  change (42 - 53) with (-11) in Es. rewrite N11, <- HA_def, <- HQ_def in Es.
  apply Rabs_le_inv in Es.
  split; [exact Fq | split; [ | split; [exact Fs | ]]];
    apply Rabs_le; lra.
Qed.

(** ** X10: the remaining salary is the difference, to the cent *)

(** For binary64 numbers with [0 <= advance <= total] and a total below
    10^12, [calculateRemainingSalary] returns a finite number that is at
    least 0 and differs from the exact difference total - advance by at most
    0.006; so it never exceeds the total by more than 0.006. *)
Theorem remaining_close_to_difference (total advance : number) :
  is_binary64 total = true -> is_binary64 advance = true ->
  valid_pair total advance -> lt total num_1e12 = true ->
  exists r,
    calculateRemainingSalary (VNumber total) (VNumber advance) = Ok r
    /\ Number_isFinite r = true /\ ge r num_0 = true
    /\ (Rabs (B2R r - (B2R total - B2R advance)) <= 6 / 1000)%R
    /\ (0 <= B2R r <= B2R total + 6 / 1000)%R.
Proof.
  intros Vt Va Hv Hlt.
  destruct (remaining_error total advance Vt Va Hv Hlt) as (Fr & Er & _ & _).
  exists (round2 (sub total advance)).
  split; [apply calculateRemainingSalary_on_valid, Hv | ].
  pose proof (finite_nonneg_B2R _ Fr) as H0.
  assert (HA : (0 <= B2R advance)%R).
  { destruct Hv as (_ & Ha & _). apply nonneg_cases in Ha.
    destruct Ha as [(s & ->) | [(m & e & ->) | ->]]; cbn [B2R cond_Zopp];
      try lra.
    pose proof (bpow_pos e). assert (0 < IZR (Z.pos m))%R by (apply IZR_lt; lia).
    nra. }
  pose proof (Rabs_le_inv _ _ Er) as Er'.
  split; [ | split; [ | split; [exact Er | lra]]].
  - destruct Fr as [(s & ->) | (m & e & ->)]; reflexivity.
  - destruct Fr as [(s & ->) | (m & e & ->)]; reflexivity.
Qed.

Lemma remaining_close_to_difference_witness :
  exists r,
    calculateRemainingSalary (VNumber (decimal 333333 2))
      (VNumber (decimal 111111 2)) = Ok r
    /\ Number_isFinite r = true /\ ge r num_0 = true
    /\ (Rabs (B2R r - (B2R (decimal 333333 2) - B2R (decimal 111111 2)))
        <= 6 / 1000)%R
    /\ (0 <= B2R r <= B2R (decimal 333333 2) + 6 / 1000)%R.
Proof.
  apply remaining_close_to_difference; try reflexivity.
  repeat split; vm_compute; reflexivity.
Defined.

(** ** X11: advance plus remaining is the total *)

(** For binary64 numbers with [0 <= advance <= total] and a total below
    10^12, the sum [advance + remaining] that JavaScript computes from the
    result of [calculateRemainingSalary] is a finite number within 0.006 of
    the total, and so is the exact sum. *)
Theorem advance_plus_remaining_is_total (total advance : number) :
  is_binary64 total = true -> is_binary64 advance = true ->
  valid_pair total advance -> lt total num_1e12 = true ->
  exists r,
    calculateRemainingSalary (VNumber total) (VNumber advance) = Ok r
    /\ Number_isFinite (add advance r) = true
    /\ (Rabs (B2R (add advance r) - B2R total) <= 6 / 1000)%R
    /\ (Rabs (B2R advance + B2R r - B2R total) <= 6 / 1000)%R.
Proof.
  intros Vt Va Hv Hlt.
  destruct (remaining_error total advance Vt Va Hv Hlt) as (_ & Er & Fs & Es).
  exists (round2 (sub total advance)).
  split; [apply calculateRemainingSalary_on_valid, Hv | ].
  split; [ | split; [exact Es | ]].
  - destruct Fs as [(s & ->) | (m & e & ->)]; reflexivity.
  - replace (B2R advance + B2R (round2 (sub total advance)) - B2R total)%R
      with (B2R (round2 (sub total advance)) - (B2R total - B2R advance))%R
      by ring.
    exact Er.
Qed.

Lemma advance_plus_remaining_is_total_witness :
  exists r,
    calculateRemainingSalary (VNumber (decimal 333333 2))
      (VNumber (decimal 111111 2)) = Ok r
    /\ Number_isFinite (add (decimal 111111 2) r) = true
    /\ (Rabs (B2R (add (decimal 111111 2) r) - B2R (decimal 333333 2))
        <= 6 / 1000)%R
    /\ (Rabs (B2R (decimal 111111 2) + B2R r - B2R (decimal 333333 2))
        <= 6 / 1000)%R.
Proof.
  apply advance_plus_remaining_is_total; try reflexivity.
  repeat split; vm_compute; reflexivity.
Defined.

(** ** X12: "Paid" means nothing is left *)

(** For binary64 numbers with [0 <= advance <= total] and a total below
    10^12: when the status is "Paid" the exact difference total - advance
    is at most 0.006, and when the difference exceeds 0.006 the status is
    "Partially Paid" for a positive advance and "Pending" for an advance of
    zero. *)
Theorem paid_means_nothing_left (total advance : number) :
  is_binary64 total = true -> is_binary64 advance = true ->
  valid_pair total advance -> lt total num_1e12 = true ->
  (determinePaymentStatus (VNumber total) (VNumber advance) = Ok "Paid" ->
   (B2R total - B2R advance <= 6 / 1000)%R)
  /\ ((6 / 1000 < B2R total - B2R advance)%R ->
      determinePaymentStatus (VNumber total) (VNumber advance)
      = Ok (if gt advance num_0 then "Partially Paid" else "Pending")).
Proof.
  intros Vt Va Hv Hlt.
  destruct (remaining_error total advance Vt Va Hv Hlt) as (Fr & Er & _ & _).
  apply Rabs_le_inv in Er.
  assert (Fa : Number_isFinite advance = true).
  { destruct Hv as (_ & Ha & Hle).
    apply nonneg_cases in Ha.
    destruct Ha as [(s & ->) | [(m & e & ->) | ->]]; try reflexivity.
    destruct total as [st | [ | ] | | st mt et]; try discriminate Hle;
      discriminate Hlt. }
  rewrite (determinePaymentStatus_on_valid _ _ Vt Va Hv Fa).
  destruct Fr as [(s & E) | (m & e & E)]; rewrite E in *.
  - cbn [B2R] in Er. split; [intros _; lra | intros H; lra].
  - change (strict_eq (S754_finite false m e) num_0) with false. cbv iota.
    split; [ | reflexivity].
    destruct (gt advance num_0); intros H; discriminate H.
Qed.

Lemma paid_means_nothing_left_witness :
  determinePaymentStatus (VNumber (of_Z 5000)) (VNumber (of_Z 2000))
  = Ok "Partially Paid".
Proof.
  apply (proj2 (paid_means_nothing_left (of_Z 5000) (of_Z 2000)
                  eq_refl eq_refl
                  ltac:(repeat split; vm_compute; reflexivity) eq_refl)).
  change (B2R (of_Z 5000)) with (IZR 5497558138880000 * bpow (-40))%R.
  change (B2R (of_Z 2000)) with (IZR 8796093022208000 * bpow (-42))%R.
  assert (N40 : bpow (-40) = (/ 1099511627776)%R)
    by exact (bpow_neg 40 ltac:(lia)).
  assert (N42 : bpow (-42) = (/ 4398046511104)%R)
    by exact (bpow_neg 42 ltac:(lia)).
  rewrite N40, N42. lra.
Defined.

(** ** X13: the live status when something is left *)

(** For binary64 numbers with [0 <= advance <= total], a total below 10^12
    and an exact difference total - advance above 0.006, the live
    calculation shows the status the engine computes: "Partially Paid" for
    a positive advance, "Pending" for an advance of zero. *)
Theorem live_status_when_something_left (total advance : number) :
  is_binary64 total = true -> is_binary64 advance = true ->
  valid_pair total advance -> lt total num_1e12 = true ->
  (6 / 1000 < B2R total - B2R advance)%R ->
  determinePaymentStatus (VNumber total) (VNumber advance)
  = Ok (paymentStatus (calculateRealTimeValues total advance))
  /\ paymentStatus (calculateRealTimeValues total advance)
     = (if gt advance num_0 then "Partially Paid" else "Pending").
Proof.
  intros Vt Va Hv Hlt Hgap.
  destruct (remaining_error total advance Vt Va Hv Hlt) as (Fr & Er & _ & _).
  apply Rabs_le_inv in Er.
  pose proof Hv as (Ht & Ha & Hle).
  destruct (below_1e12 total Vt Ht Hlt) as [Ft HT].
  assert (Fa : finite_nonneg advance).
  { apply nonneg_cases in Ha.
    destruct Ha as [(sa & ->) | [(ma & ea & ->) | ->]];
      [left; eauto | right; eauto | ].
    destruct Ft as [(st & ->) | (mt & et & ->)]; discriminate Hle. }
  assert (Fa' : Number_isFinite advance = true)
    by (destruct Fa as [(s & ->) | (m & e & ->)]; reflexivity).
  pose proof (finite_nonneg_B2R advance Fa) as HA0.
  destruct (sub_correct total advance 40 Vt Va Ft Fa Hle HT ltac:(lia) ltac:(lia))
    as (Fd & Ed & _).
  change (40 - 53) with (-13) in Ed.
  assert (N13 : bpow (-13) = (/ 8192)%R) by exact (bpow_neg 13 ltac:(lia)).
  rewrite N13 in Ed. apply Rabs_le_inv in Ed.
  (* the total is positive, the difference and its rounding are positive *)
  assert (Hpos : gt total num_0 = true).
  { destruct Ft as [(st & E) | (mt & et & E)]; rewrite E in *;
      [cbn [B2R] in Hgap; lra | reflexivity]. }
  assert (Hd : strict_eq (sub total advance) num_0 = false /\
               gt (sub total advance) num_0 = true).
  { destruct Fd as [(s & E) | (m & e & E)]; rewrite E in *;
      [cbn [B2R] in Ed; lra | split; reflexivity]. }
  assert (Hr : strict_eq (round2 (sub total advance)) num_0 = false).
  { destruct Fr as [(s & E) | (m & e & E)]; rewrite E in *;
      [cbn [B2R] in Er; lra | reflexivity]. }
  destruct Hd as [Hd0 Hd1].
  rewrite (determinePaymentStatus_on_valid _ _ Vt Va Hv Fa'), Hr.
  destruct (or_zero_nonneg_facts total advance Hpos Ha) as (Es & El & Eg & Ee).
  unfold calculateRealTimeValues.
  rewrite (or_zero_positive _ Hpos), (ge_not_lt _ _ Ht), El.
  rewrite (or_zero_le _ _ Ha Hle), Es, Eg, Ee, Hpos, Hd0, Hd1, andb_true_r.
  cbn [orb andb paymentStatus].
  destruct (gt advance num_0) eqn:G; [split; reflexivity | ].
  destruct (strict_eq advance num_0); split; reflexivity.
Qed.

Lemma live_status_when_something_left_witness :
  paymentStatus (calculateRealTimeValues (of_Z 5000) (of_Z 2000))
  = "Partially Paid".
Proof.
  apply (proj2 (live_status_when_something_left (of_Z 5000) (of_Z 2000)
                  eq_refl eq_refl
                  ltac:(repeat split; vm_compute; reflexivity) eq_refl
                  ltac:(change (B2R (of_Z 5000))
                          with (IZR 5497558138880000 * bpow (-40))%R;
                        change (B2R (of_Z 2000))
                          with (IZR 8796093022208000 * bpow (-42))%R;
                        rewrite (bpow_neg 40 ltac:(lia) : bpow (-40) = (/ 1099511627776)%R);
                        rewrite (bpow_neg 42 ltac:(lia) : bpow (-42) = (/ 4398046511104)%R);
                        lra))).
Defined.

(** ** Amounts that are a whole number of cents *)

(** [+0] or a positive finite number. *)
Definition zero_or_positive (x : number) : Prop :=
  x = S754_zero false \/ exists m e, x = S754_finite false m e.

Lemma zero_or_positive_finite x : zero_or_positive x -> finite_nonneg x.
Proof. intros [-> | H]; [left; eauto | right; exact H]. Qed.

Lemma zero_or_positive_sign x :
  finite_nonneg x -> has_sign false x -> zero_or_positive x.
Proof.
  intros [(s & ->) | H] Hs; [ | right; exact H].
  destruct Hs as [Hs | [(m & e & Hs) | Hs]]; try discriminate Hs.
  left; exact Hs.
Qed.

Lemma decimal_2 k : decimal k 2 = div (of_Z k) num_100.
Proof. reflexivity. Qed.

Lemma div_sign x mc ec :
  has_sign false x -> has_sign false (div x (S754_finite false mc ec)).
Proof.
  intros [-> | [(m & e & ->) | ->]].
  - left; reflexivity.
  - unfold div, SFdiv.
    pose proof (SFdiv_core_binary_nonneg (Z.pos m) e (Z.pos mc) ec
                  ltac:(lia) ltac:(lia)) as Hq.
    destruct (SFdiv_core_binary prec emax _ e _ ec) as [[mz ez] lz].
    cbn [fst] in Hq.
    apply (binary_round_aux_sign prec emax false); exact Hq.
  - right; right; reflexivity.
Qed.

Lemma bpow_47 : bpow 47 = 140737488355328%R.
Proof. rewrite bpow_IZR by lia. reflexivity. Qed.

(** The amount of [k] cents: the binary64 number nearest to [k / 100]. *)
Lemma cents_facts k :
  0 <= k < 2 ^ 47 ->
  zero_or_positive (decimal k 2) /\
  is_binary64 (decimal k 2) = true /\
  (Rabs (B2R (decimal k 2) - IZR k / 100) <= / 8192)%R.
Proof.
  intros [Hk0 Hk1]. rewrite decimal_2.
  assert (Hk53 : (IZR k < bpow 53)%R).
  { rewrite bpow_IZR by lia. apply IZR_lt. lia. }
  destruct (of_Z_exact k Hk0 Hk53) as [Fk Ek].
  assert (Hk47 : (B2R (of_Z k) < bpow 47)%R).
  { rewrite Ek, bpow_IZR by lia. apply IZR_lt. exact Hk1. }
  destruct (div_100_correct (of_Z k) 47 Fk Hk47 ltac:(lia) ltac:(lia)) as [Fd Ed].
  split; [ | split].
  - apply zero_or_positive_sign; [exact Fd | ].
    apply (div_sign _ 7036874417766400 (-46)), binary_normalize_nonneg, Hk0.
  - apply (div_100_valid (of_Z k) 47 Fk Hk47); lia.
  - rewrite Ek in Ed. change (47 - 59) with (-12) in Ed.
    assert (N12 : bpow (-12) = (/ 4096)%R) by exact (bpow_neg 12 ltac:(lia)).
    rewrite N12 in Ed. lra.
Qed.

(** [Math.round (x * 100)] is [k] for every number [x] within 0.004 of
    [k / 100]. *)
Lemma Math_round_of_cents x k :
  zero_or_positive x -> 0 <= k < 2 ^ 47 ->
  (Rabs (B2R x - IZR k / 100) <= 4 / 1000)%R ->
  Math_round (mul x num_100) = of_Z k.
Proof.
  intros Hx [Hk0 Hk1] Hd.
  apply Rabs_le_inv in Hd.
  assert (Hkr : (IZR k <= 140737488355327)%R) by (apply IZR_le; lia).
  assert (Hk0r : (0 <= IZR k)%R) by (apply IZR_le; exact Hk0).
  assert (B41 : bpow 41 = 2199023255552%R) by (rewrite bpow_IZR by lia; reflexivity).
  assert (N5 : bpow (-5) = (/ 32)%R) by exact (bpow_neg 5 ltac:(lia)).
  assert (HX41 : (B2R x < bpow 41)%R) by (rewrite B41; lra).
  pose proof (zero_or_positive_finite x Hx) as Fx.
  destruct (mul_100_correct x 41 Fx HX41 ltac:(lia) ltac:(lia)) as (Fp & Ep).
  change (41 - 46) with (-5) in Ep. rewrite N5 in Ep.
  apply Rabs_le_inv in Ep.
  assert (Hnear : (Rabs (B2R (mul x num_100) - IZR k) < / 2)%R).
  { apply Rabs_def1; lra. }
  assert (Sp : has_sign false (mul x num_100)).
  { destruct Hx as [-> | (m & e & ->)]; [left; reflexivity | ].
    unfold mul, num_100, SFmul.
    apply (binary_round_aux_sign prec emax false). lia. }
  destruct Sp as [E | [(mp & ep & E) | E]].
  - rewrite E in *. cbn [B2R] in Hnear.
    assert (k = 0).
    { rewrite Rminus_0_l, Rabs_Ropp in Hnear.
      assert (H1 : (IZR k < IZR 1)%R).
      { unfold Rabs in Hnear. destruct (Rcase_abs _); lra. }
      apply lt_IZR in H1. lia. }
    subst k. reflexivity.
  - pose proof (mul_100_exponent x 41 mp ep Fx HX41 ltac:(lia) ltac:(lia) E) as He.
    rewrite E in *. cbn [B2R cond_Zopp] in Hnear.
    apply Math_round_near; [lia | exact Hnear].
  - rewrite E in Fp. destruct Fp as [(s & Fp) | (m & e & Fp)]; discriminate Fp.
Qed.

(** Rounding to two decimals sends every number within 0.004 of [k / 100]
    to the amount of [k] cents. *)
Lemma round2_of_cents x k :
  zero_or_positive x -> 0 <= k < 2 ^ 47 ->
  (Rabs (B2R x - IZR k / 100) <= 4 / 1000)%R ->
  round2 x = decimal k 2.
Proof.
  intros Hx Hk Hd. unfold round2.
  rewrite (Math_round_of_cents x k Hx Hk Hd). reflexivity.
Qed.

(** ** The order of canonical numbers, and of their values *)

Lemma le_value a t :
  is_binary64 a = true -> is_binary64 t = true ->
  zero_or_positive a -> zero_or_positive t ->
  le a t = true -> (B2R a <= B2R t)%R.
Proof.
  intros Va Vt Ha Ht Hle.
  pose proof (finite_nonneg_B2R t (zero_or_positive_finite t Ht)) as Ht0.
  destruct Ha as [-> | (ma & ea & ->)]; [exact Ht0 | ].
  destruct Ht as [-> | (mt & et & ->)]; [discriminate Hle | ].
  cbn [is_binary64 valid_binary] in Va, Vt.
  pose proof (compare_canonical_le prec emax prec_pos ma ea mt et Va Vt Hle) as Hc.
  set (ez := Z.min et ea) in *.
  apply IZR_le in Hc. rewrite !mult_IZR, <- !bpow_IZR in Hc by (subst ez; lia).
  cbn [B2R cond_Zopp].
  assert (Ea : bpow ea = (bpow (ea - ez) * bpow ez)%R)
    by (rewrite <- bpow_add; f_equal; lia).
  assert (Et : bpow et = (bpow (et - ez) * bpow ez)%R)
    by (rewrite <- bpow_add; f_equal; lia).
  rewrite Ea, Et, <- !Rmult_assoc.
  apply Rmult_le_compat_r; [apply Rlt_le, bpow_pos | exact Hc].
Qed.

Lemma lt_le x y : lt x y = true -> le x y = true.
Proof.
  unfold lt, le, SFltb, SFleb.
  destruct (SFcompare x y) as [[ | | ] | ]; congruence.
Qed.

Lemma zero_or_positive_not_nan x : zero_or_positive x -> x <> S754_nan.
Proof. intros [-> | (m & e & ->)]; discriminate. Qed.

(** A canonical number with the smaller value is the smaller number. *)
Lemma lt_of_value a t :
  is_binary64 a = true -> is_binary64 t = true ->
  zero_or_positive a -> zero_or_positive t ->
  (B2R a < B2R t)%R -> lt a t = true.
Proof.
  intros Va Vt Ha Ht Hlt.
  change (gt t a = true).
  destruct (gt t a) eqn:G; [reflexivity | ].
  apply not_gt_le in G; try (apply zero_or_positive_not_nan; assumption).
  pose proof (le_value t a Vt Va Ht Ha G). lra.
Qed.

Lemma le_refl x : zero_or_positive x -> le x x = true.
Proof.
  intros H. unfold le, SFleb.
  rewrite (SFcompare_refl x (zero_or_positive_not_nan x H)). reflexivity.
Qed.

Lemma sub_sign t a :
  is_binary64 t = true -> is_binary64 a = true ->
  zero_or_positive t -> zero_or_positive a ->
  le a t = true -> has_sign false (sub t a).
Proof.
  intros Vt Va Ht Ha Hle.
  destruct Ha as [-> | (ma & ea & ->)]; destruct Ht as [-> | (mt & et & ->)].
  - left; reflexivity.
  - right; left; eexists; eexists; reflexivity.
  - discriminate Hle.
  - unfold sub, SFsub, cond_Zopp.
    apply binary_normalize_nonneg.
    cbn [is_binary64 valid_binary] in Vt, Va.
    pose proof (compare_canonical_le prec emax prec_pos ma ea mt et Va Vt Hle)
      as Hc.
    rewrite !shl_align_fst by lia.
    lia.
Qed.

(** ** Cent amounts below 10^12 *)

Lemma cents_range k : 0 <= k < 10 ^ 14 -> 0 <= k < 2 ^ 47.
Proof. intros [H0 H1]. split; [exact H0 | ]. eapply Z.lt_trans; [exact H1 | reflexivity]. Qed.

Lemma cents_order ka kt :
  0 <= ka < 10 ^ 14 -> 0 <= kt < 10 ^ 14 ->
  (ka <= kt -> le (decimal ka 2) (decimal kt 2) = true) /\
  (kt < ka -> gt (decimal ka 2) (decimal kt 2) = true).
Proof.
  intros Ha Ht.
  destruct (cents_facts ka (cents_range ka Ha)) as (Pa & Va & Ea).
  destruct (cents_facts kt (cents_range kt Ht)) as (Pt & Vt & Et).
  apply Rabs_le_inv in Ea, Et.
  split; intros H.
  - destruct (Z.eq_dec ka kt) as [-> | Hne]; [apply le_refl, Pt | ].
    apply lt_le, lt_of_value; try assumption.
    assert (H1 : (IZR ka + 1 <= IZR kt)%R)
      by (rewrite <- plus_IZR; apply IZR_le; lia).
    lra.
  - unfold gt. change (lt (decimal kt 2) (decimal ka 2) = true).
    apply lt_of_value; try assumption.
    assert (H1 : (IZR kt + 1 <= IZR ka)%R)
      by (rewrite <- plus_IZR; apply IZR_le; lia).
    lra.
Qed.

Lemma zero_or_positive_nonneg x : zero_or_positive x -> nonneg x = true.
Proof. intros [-> | (m & e & ->)]; reflexivity. Qed.

Lemma zero_or_positive_isFinite x : zero_or_positive x -> Number_isFinite x = true.
Proof. intros [-> | (m & e & ->)]; reflexivity. Qed.

(** Whether the amount of [k] cents is zero. *)
Lemma cents_zero k :
  0 <= k < 10 ^ 14 ->
  strict_eq (decimal k 2) num_0 = (k =? 0) /\
  gt (decimal k 2) num_0 = (0 <? k).
Proof.
  intros Hk.
  destruct (Z.eq_dec k 0) as [-> | Hne]; [split; reflexivity | ].
  destruct (cents_facts k (cents_range k Hk)) as (Pk & _ & Ek).
  replace (k =? 0) with false by (symmetry; apply Z.eqb_neq; exact Hne).
  replace (0 <? k) with true by (symmetry; apply Z.ltb_lt; lia).
  destruct Pk as [E | (m & e & E)]; rewrite E in *; [ | split; reflexivity].
  cbn [B2R] in Ek. apply Rabs_le_inv in Ek.
  assert (H1 : (1 <= IZR k)%R) by (apply IZR_le; lia).
  lra.
Qed.

(** The difference of two cent amounts, before it is rounded. *)
Lemma cents_difference kt ka :
  0 <= ka <= kt -> kt < 10 ^ 14 ->
  valid_pair (decimal kt 2) (decimal ka 2) /\
  zero_or_positive (sub (decimal kt 2) (decimal ka 2)) /\
  (Rabs (B2R (sub (decimal kt 2) (decimal ka 2)) - IZR (kt - ka) / 100)
   <= 1 / 1000)%R.
Proof.
  intros Hka Hkt.
  assert (Ra : 0 <= ka < 10 ^ 14) by lia.
  assert (Rt : 0 <= kt < 10 ^ 14) by lia.
  destruct (cents_facts ka (cents_range ka Ra)) as (Pa & Va & Ea).
  destruct (cents_facts kt (cents_range kt Rt)) as (Pt & Vt & Et).
  destruct (cents_order ka kt Ra Rt) as [Hle _].
  specialize (Hle ltac:(lia)).
  apply Rabs_le_inv in Ea, Et.
  assert (Hkt' : (IZR kt <= 10 ^ 14 - 1)%R).
  { replace (10 ^ 14 - 1)%R with (IZR (10 ^ 14 - 1)) by (simpl; lra).
    apply IZR_le. lia. }
  assert (B40 : bpow 40 = 1099511627776%R) by (rewrite bpow_IZR by lia; reflexivity).
  assert (N13 : bpow (-13) = (/ 8192)%R) by exact (bpow_neg 13 ltac:(lia)).
  assert (HT : (B2R (decimal kt 2) < bpow 40)%R) by (rewrite B40; lra).
  destruct (sub_correct (decimal kt 2) (decimal ka 2) 40 Vt Va
              (zero_or_positive_finite _ Pt) (zero_or_positive_finite _ Pa)
              Hle HT ltac:(lia) ltac:(lia)) as (Fd & Ed & _).
  change (40 - 53) with (-13) in Ed. rewrite N13 in Ed.
  apply Rabs_le_inv in Ed.
  split; [ | split].
  - repeat split; [apply zero_or_positive_nonneg, Pt
                  | apply zero_or_positive_nonneg, Pa | exact Hle].
  - apply zero_or_positive_sign; [exact Fd | ].
    apply sub_sign; assumption.
  - rewrite minus_IZR. apply Rabs_le. lra.
Qed.

Lemma remaining_of_cents kt ka :
  0 <= ka <= kt -> kt < 10 ^ 14 ->
  round2 (sub (decimal kt 2) (decimal ka 2)) = decimal (kt - ka) 2.
Proof.
  intros Hka Hkt.
  destruct (cents_difference kt ka Hka Hkt) as (_ & Pd & Ed).
  apply round2_of_cents; [exact Pd | apply cents_range; lia | ].
  eapply Rle_trans; [exact Ed | lra].
Qed.

Lemma calculateRemainingSalary_cents kt ka :
  0 <= ka < 10 ^ 14 -> 0 <= kt < 10 ^ 14 ->
  calculateRemainingSalary (VNumber (decimal kt 2)) (VNumber (decimal ka 2))
  = if ka <=? kt then Ok (decimal (kt - ka) 2)
    else Throw "Advance amount cannot exceed total monthly salary".
Proof.
  intros Ha Ht.
  destruct (ka <=? kt) eqn:E.
  - apply Z.leb_le in E.
    destruct (cents_difference kt ka ltac:(lia) ltac:(lia)) as (Hv & _ & _).
    rewrite (calculateRemainingSalary_on_valid _ _ Hv).
    rewrite remaining_of_cents by lia. reflexivity.
  - apply Z.leb_gt in E.
    destruct (cents_facts ka (cents_range ka Ha)) as (Pa & _ & _).
    destruct (cents_facts kt (cents_range kt Ht)) as (Pt & _ & _).
    destruct (cents_order ka kt Ha Ht) as [_ Hgt].
    unfold calculateRemainingSalary.
    rewrite (nonneg_not_lt _ (zero_or_positive_nonneg _ Pt)).
    rewrite (nonneg_not_lt _ (zero_or_positive_nonneg _ Pa)).
    rewrite (Hgt E). reflexivity.
Qed.

Lemma validateMonetaryAmount_cents k fieldName :
  0 <= k < 10 ^ 14 ->
  validateMonetaryAmount (VNumber (decimal k 2)) fieldName = Ok true.
Proof.
  intros Hk.
  destruct (cents_facts k (cents_range k Hk)) as (Pk & _ & Ek).
  unfold validateMonetaryAmount.
  rewrite (zero_or_positive_isFinite _ Pk).
  rewrite (nonneg_not_lt _ (zero_or_positive_nonneg _ Pk)).
  cbn [negb].
  change (div (Math_round (mul (decimal k 2) num_100)) num_100)
    with (round2 (decimal k 2)).
  rewrite (round2_of_cents (decimal k 2) k Pk (cents_range k Hk))
    by (eapply Rle_trans; [exact Ek | lra]).
  rewrite (sub_self _ (zero_or_positive_isFinite _ Pk)).
  reflexivity.
Qed.

Lemma validateAdvanceAmount_cents kt ka :
  0 <= ka < 10 ^ 14 -> 0 <= kt < 10 ^ 14 ->
  validateAdvanceAmount (VNumber (decimal kt 2)) (VNumber (decimal ka 2))
  = if ka <=? kt then Ok true
    else Throw "Advance amount cannot exceed total monthly salary".
Proof.
  intros Ha Ht.
  unfold validateAdvanceAmount.
  rewrite !validateMonetaryAmount_cents by assumption.
  cbn [bind number_of].
  destruct (cents_order ka kt Ha Ht) as [Hle Hgt].
  destruct (ka <=? kt) eqn:E.
  - apply Z.leb_le in E. rewrite (le_not_gt _ _ (Hle E)). reflexivity.
  - apply Z.leb_gt in E. rewrite (Hgt E). reflexivity.
Qed.

Lemma determinePaymentStatus_cents kt ka :
  0 <= ka < 10 ^ 14 -> 0 <= kt < 10 ^ 14 ->
  determinePaymentStatus (VNumber (decimal kt 2)) (VNumber (decimal ka 2))
  = if ka <=? kt then
      Ok (if kt =? ka then "Paid"
          else if 0 <? ka then "Partially Paid" else "Pending")
    else Throw "Advance amount cannot exceed total monthly salary".
Proof.
  intros Ha Ht.
  unfold determinePaymentStatus.
  rewrite (calculateRemainingSalary_cents kt ka Ha Ht).
  destruct (ka <=? kt) eqn:E; [ | reflexivity].
  apply Z.leb_le in E.
  cbn [bind number_of].
  destruct (cents_zero (kt - ka) ltac:(lia)) as [Ez Eg].
  destruct (cents_zero ka Ha) as [Eaz Eag].
  rewrite Ez, Eg, Eaz, Eag.
  replace (kt - ka =? 0) with (kt =? ka)
    by (destruct (Z.eqb_spec kt ka), (Z.eqb_spec (kt - ka) 0); lia || reflexivity).
  destruct (Z.eqb_spec kt ka) as [-> | Hne]; [reflexivity | ].
  replace (0 <? kt - ka) with true by (symmetry; apply Z.ltb_lt; lia).
  destruct (Z.ltb_spec 0 ka) as [Hp | Hz]; [reflexivity | ].
  replace (ka =? 0) with true by (symmetry; apply Z.eqb_eq; lia).
  reflexivity.
Qed.

Lemma or_zero_zero_or_positive x : zero_or_positive x -> or_zero x = x.
Proof. intros [-> | (m & e & ->)]; reflexivity. Qed.

Lemma cents_difference_zero kt ka :
  0 <= ka <= kt -> kt < 10 ^ 14 ->
  strict_eq (sub (decimal kt 2) (decimal ka 2)) num_0 = (kt =? ka) /\
  gt (sub (decimal kt 2) (decimal ka 2)) num_0 = negb (kt =? ka).
Proof.
  intros Hka Hkt.
  destruct (Z.eqb_spec kt ka) as [-> | Hne].
  - destruct (cents_facts ka (cents_range ka ltac:(lia))) as (Pa & _ & _).
    rewrite (sub_self _ (zero_or_positive_isFinite _ Pa)).
    split; reflexivity.
  - destruct (cents_difference kt ka Hka Hkt) as (_ & Pd & Ed).
    destruct Pd as [E | (m & e & E)]; rewrite E in *; [ | split; reflexivity].
    cbn [B2R] in Ed. apply Rabs_le_inv in Ed.
    assert (H1 : (1 <= IZR (kt - ka))%R) by (apply IZR_le; lia).
    lra.
Qed.

(** ** X14: the engine is exact on cent amounts *)

(** X14: for a total of [kt] cents and an advance of [ka] cents, both below
    10^12 as amounts (the binary64 numbers nearest to [kt / 100] and
    [ka / 100]): [calculateRemainingSalary] returns exactly the amount of
    [kt - ka] cents when the advance is at most the total, and throws
    otherwise. *)
Theorem cents_remaining_exact (kt ka : Z) :
  0 <= ka < 10 ^ 14 -> 0 <= kt < 10 ^ 14 ->
  calculateRemainingSalary (VNumber (decimal kt 2)) (VNumber (decimal ka 2))
  = if ka <=? kt then Ok (decimal (kt - ka) 2)
    else Throw "Advance amount cannot exceed total monthly salary".
Proof. exact (calculateRemainingSalary_cents kt ka). Qed.

Lemma cents_remaining_exact_witness :
  calculateRemainingSalary (VNumber (decimal 110 2)) (VNumber (decimal 30 2))
  = Ok (decimal 80 2).
Proof. apply (cents_remaining_exact 110 30); lia. Defined.

(** ** X15: every cent amount passes the validation *)

(** X15: every amount of [k] cents below 10^12 passes [validateMonetaryAmount],
    under every field name; so does every remaining salary the engine
    computes from two such amounts. *)
Theorem cents_pass_validateMonetaryAmount (k : Z) (fieldName : option string) :
  0 <= k < 10 ^ 14 ->
  validateMonetaryAmount (VNumber (decimal k 2)) fieldName = Ok true
  /\ forall ka,
       0 <= ka <= k ->
       exists r,
         calculateRemainingSalary (VNumber (decimal k 2)) (VNumber (decimal ka 2))
         = Ok r
         /\ validateMonetaryAmount (VNumber r) fieldName = Ok true.
Proof.
  intros Hk. split; [apply validateMonetaryAmount_cents, Hk | ].
  intros ka Hka. exists (decimal (k - ka) 2).
  rewrite (calculateRemainingSalary_cents k ka ltac:(lia) Hk).
  replace (ka <=? k) with true by (symmetry; apply Z.leb_le; lia).
  split; [reflexivity | apply validateMonetaryAmount_cents; lia].
Qed.

Lemma cents_pass_validateMonetaryAmount_witness :
  validateMonetaryAmount (VNumber (decimal 115 2)) None = Ok true.
Proof. apply (cents_pass_validateMonetaryAmount 115 None); lia. Defined.

(** ** X16: the advance check on cent amounts *)

(** X16: on two cent amounts below 10^12, [validateAdvanceAmount] accepts the
    pair exactly when the advance is at most the total, and otherwise
    throws the business-rule error, never a precision error. *)
Theorem cents_validateAdvanceAmount (kt ka : Z) :
  0 <= ka < 10 ^ 14 -> 0 <= kt < 10 ^ 14 ->
  validateAdvanceAmount (VNumber (decimal kt 2)) (VNumber (decimal ka 2))
  = if ka <=? kt then Ok true
    else Throw "Advance amount cannot exceed total monthly salary".
Proof. exact (validateAdvanceAmount_cents kt ka). Qed.

Lemma cents_validateAdvanceAmount_witness :
  validateAdvanceAmount (VNumber (decimal 110 2)) (VNumber (decimal 111 2))
  = Throw "Advance amount cannot exceed total monthly salary".
Proof. apply (cents_validateAdvanceAmount 110 111); lia. Defined.

(** ** X17: the business rules on cent amounts *)

(** X17: on two cent amounts below 10^12 with the advance at most the total,
    the status is "Paid" exactly when the advance equals the total,
    "Partially Paid" when it is positive and smaller, and "Pending" when
    it is zero and the total is not. *)
Theorem cents_status (kt ka : Z) :
  0 <= ka < 10 ^ 14 -> 0 <= kt < 10 ^ 14 ->
  determinePaymentStatus (VNumber (decimal kt 2)) (VNumber (decimal ka 2))
  = if ka <=? kt then
      Ok (if kt =? ka then "Paid"
          else if 0 <? ka then "Partially Paid" else "Pending")
    else Throw "Advance amount cannot exceed total monthly salary".
Proof. exact (determinePaymentStatus_cents kt ka). Qed.

Lemma cents_status_witness :
  determinePaymentStatus (VNumber (decimal 110 2)) (VNumber (decimal 30 2))
  = Ok "Partially Paid".
Proof. apply (cents_status 110 30); lia. Defined.

(** ** X18: the predicates on cent amounts *)

(** X18: on cent amounts below 10^12, [isFullyPaid] answers whether the advance
    equals the total, and [hasAdvancePayment] whether the advance is
    positive. *)
Theorem cents_predicates (kt ka : Z) :
  0 <= ka <= kt -> kt < 10 ^ 14 ->
  isFullyPaid (VNumber (decimal kt 2)) (VNumber (decimal ka 2)) = Ok (kt =? ka)
  /\ hasAdvancePayment (VNumber (decimal ka 2)) = Ok (0 <? ka).
Proof.
  intros Hka Hkt. split.
  - unfold isFullyPaid.
    rewrite (calculateRemainingSalary_cents kt ka ltac:(lia) ltac:(lia)).
    replace (ka <=? kt) with true by (symmetry; apply Z.leb_le; lia).
    cbn [bind].
    destruct (cents_zero (kt - ka) ltac:(lia)) as [Ez _]. rewrite Ez.
    f_equal.
    destruct (Z.eqb_spec kt ka), (Z.eqb_spec (kt - ka) 0); lia || reflexivity.
  - unfold hasAdvancePayment.
    rewrite validateMonetaryAmount_cents by lia.
    cbn [bind number_of].
    destruct (cents_zero ka ltac:(lia)) as [_ Eg]. rewrite Eg. reflexivity.
Qed.

Lemma cents_predicates_witness :
  isFullyPaid (VNumber (decimal 110 2)) (VNumber (decimal 110 2)) = Ok true
  /\ hasAdvancePayment (VNumber (decimal 110 2)) = Ok true.
Proof. apply (cents_predicates 110 110); lia. Defined.

(** ** X19: the complete calculation on cent amounts *)

(** X19: on two cent amounts below 10^12, [calculateSalaryDetails] rejects the
    pair exactly when the advance exceeds the total; otherwise it returns
    the two inputs, the exact remaining amount, the status of the business
    rules and the time of the call. *)
Theorem cents_calculateSalaryDetails (now kt ka : Z) :
  0 <= ka < 10 ^ 14 -> 0 <= kt < 10 ^ 14 ->
  calculateSalaryDetails now (VNumber (decimal kt 2)) (VNumber (decimal ka 2))
  = if ka <=? kt then
      Ok {| Details.totalMonthlySalary := VNumber (decimal kt 2);
            Details.advanceAmountPaid := VNumber (decimal ka 2);
            Details.remainingSalaryPayable := decimal (kt - ka) 2;
            Details.paymentStatus :=
              if kt =? ka then "Paid"
              else if 0 <? ka then "Partially Paid" else "Pending";
            Details.calculatedAt := now |}
    else Throw "Advance amount cannot exceed total monthly salary".
Proof.
  intros Ha Ht. unfold calculateSalaryDetails.
  rewrite (validateAdvanceAmount_cents kt ka Ha Ht).
  rewrite (calculateRemainingSalary_cents kt ka Ha Ht).
  rewrite (determinePaymentStatus_cents kt ka Ha Ht).
  destruct (ka <=? kt); reflexivity.
Qed.

Lemma cents_calculateSalaryDetails_witness :
  calculateSalaryDetails 0 (VNumber (decimal 110 2)) (VNumber (decimal 0 2))
  = Ok {| Details.totalMonthlySalary := VNumber (decimal 110 2);
          Details.advanceAmountPaid := VNumber (decimal 0 2);
          Details.remainingSalaryPayable := decimal 110 2;
          Details.paymentStatus := "Pending";
          Details.calculatedAt := 0 |}.
Proof. apply (cents_calculateSalaryDetails 0 110 0); lia. Defined.

(** ** X20: the live view on cent amounts *)

(** X20: on two cent amounts below 10^12 the live calculation shows the exact
    remaining amount and the status of the business rules, except that a
    total of zero shows "Pending" where the engine says "Paid"; an advance
    above the total shows "Invalid - Advance exceeds total" with a
    remaining amount of 0. *)
Theorem cents_live_view (kt ka : Z) :
  0 <= ka < 10 ^ 14 -> 0 <= kt < 10 ^ 14 ->
  calculateRealTimeValues (decimal kt 2) (decimal ka 2)
  = if ka <=? kt then
      {| remainingSalary := decimal (kt - ka) 2;
         paymentStatus :=
           if (kt =? ka) && (0 <? kt) then "Paid"
           else if 0 <? ka then "Partially Paid" else "Pending" |}
    else
      {| remainingSalary := num_0;
         paymentStatus := "Invalid - Advance exceeds total" |}.
Proof.
  intros Ha Ht.
  destruct (cents_facts ka (cents_range ka Ha)) as (Pa & _ & _).
  destruct (cents_facts kt (cents_range kt Ht)) as (Pt & _ & _).
  destruct (cents_order ka kt Ha Ht) as [Hle Hgt].
  unfold calculateRealTimeValues.
  rewrite (or_zero_zero_or_positive _ Pa), (or_zero_zero_or_positive _ Pt).
  rewrite (nonneg_not_lt _ (zero_or_positive_nonneg _ Pt)).
  rewrite (nonneg_not_lt _ (zero_or_positive_nonneg _ Pa)).
  cbn [orb].
  destruct (ka <=? kt) eqn:E.
  - apply Z.leb_le in E. rewrite (le_not_gt _ _ (Hle E)).
    change (div (Math_round (mul (sub (decimal kt 2) (decimal ka 2)) num_100))
              num_100)
      with (round2 (sub (decimal kt 2) (decimal ka 2))).
    rewrite remaining_of_cents by lia.
    destruct (cents_difference_zero kt ka ltac:(lia) ltac:(lia)) as [Ez Eg].
    destruct (cents_zero kt Ht) as [_ Etg].
    destruct (cents_zero ka Ha) as [_ Eag].
    rewrite Ez, Eg, Etg, Eag.
    destruct (Z.eqb_spec kt ka) as [-> | Hne].
    + destruct (0 <? ka); cbn [andb negb]; try reflexivity.
      destruct (strict_eq (decimal ka 2) num_0); reflexivity.
    + destruct (0 <? ka); cbn [andb negb]; try reflexivity.
      destruct (strict_eq (decimal ka 2) num_0); reflexivity.
  - apply Z.leb_gt in E. rewrite (Hgt E). reflexivity.
Qed.

Lemma cents_live_view_witness :
  calculateRealTimeValues (decimal 110 2) (decimal 30 2)
  = {| remainingSalary := decimal 80 2; paymentStatus := "Partially Paid" |}.
Proof. apply (cents_live_view 110 30); lia. Defined.

(** ** X21: the precision check of the stored record *)

(** The validator the [SalaryRecord] schema attaches to each of its three
    amounts: [Number.isFinite(value) && Math.round(value * 100) === value * 100]. *)
Definition monetary_validator (value : number) : bool :=
  Number_isFinite value
  && strict_eq (Math_round (mul value num_100)) (mul value num_100).

(** X21: on the amount of [k] cents, below 10^12, the schema's validator asks
    whether the binary64 product [value * 100] is the integer [k] itself;
    it is not for 1.15, whose product is 114.99999999999999, so the schema
    rejects an amount that [validateMonetaryAmount] accepts. *)
Theorem monetary_validator_on_cents (k : Z) :
  0 <= k < 10 ^ 14 ->
  monetary_validator (decimal k 2)
  = strict_eq (of_Z k) (mul (decimal k 2) num_100).
Proof.
  intros Hk.
  destruct (cents_facts k (cents_range k Hk)) as (Pk & _ & Ek).
  unfold monetary_validator.
  rewrite (zero_or_positive_isFinite _ Pk).
  rewrite (Math_round_of_cents (decimal k 2) k Pk (cents_range k Hk))
    by (eapply Rle_trans; [exact Ek | lra]).
  reflexivity.
Qed.

Lemma monetary_validator_on_cents_witness :
  monetary_validator (decimal 115 2) = false
  /\ validateMonetaryAmount (VNumber (decimal 115 2)) None = Ok true.
Proof.
  split; [ | reflexivity].
  rewrite (monetary_validator_on_cents 115 ltac:(lia)). reflexivity.
Defined.

(** ** X22: the advance is at most 100 percent *)

(** A quotient of two positive numbers, the first at most the second, is
    at most 1, up to its rounding. *)
Lemma div_at_most_1 ma ea mt et :
  (IZR (Z.pos ma) * bpow ea <= IZR (Z.pos mt) * bpow et)%R ->
  finite_nonneg (div (S754_finite false ma ea) (S754_finite false mt et)) /\
  (B2R (div (S754_finite false ma ea) (S754_finite false mt et))
   <= 1 + bpow (-53))%R.
Proof.
  intros Hle.
  unfold div, SFdiv. cbn [xorb].
  destruct (SFdiv_core_binary_correct (Z.pos ma) ea (Z.pos mt) et)
    as (q & e' & l & x & -> & Hq & Hloc & Hx & He'); [lia | lia | ].
  pose proof (bpow_pos ea). pose proof (bpow_pos et). pose proof (bpow_pos e').
  assert (Hma : (0 < IZR (Z.pos ma))%R) by (apply IZR_lt; lia).
  assert (Hmt : (0 < IZR (Z.pos mt))%R) by (apply IZR_lt; lia).
  assert (Hv2 : (0 < IZR (Z.pos mt) * bpow et)%R) by nra.
  assert (Hx1 : (x * bpow e' <= 1)%R).
  { rewrite Hx. apply (Rmult_le_reg_r (IZR (Z.pos mt) * bpow et)); [exact Hv2 | ].
    unfold Rdiv. rewrite Rmult_assoc, Rinv_l by lra. lra. }
  assert (HD : Zdigits2 (Z.pos ma) + ea - (Zdigits2 (Z.pos mt) + et) <= 0).
  { pose proof (Zdigits2_bounds (Z.pos ma) ltac:(lia)) as [L1 _].
    pose proof (Zdigits2_bounds (Z.pos mt) ltac:(lia)) as [_ U2].
    assert (Hlt : (bpow (Zdigits2 (Z.pos ma) - 1 + ea)
                   < bpow (Zdigits2 (Z.pos mt) + et))%R).
    { rewrite !bpow_add.
      apply Rle_lt_trans with (IZR (Z.pos ma) * bpow ea)%R;
        [apply Rmult_le_compat_r; lra | ].
      apply Rle_lt_trans with (IZR (Z.pos mt) * bpow et)%R; [exact Hle | ].
      apply Rmult_lt_compat_r; lra. }
    apply bpow_lt_inv in Hlt. lia. }
  assert (He1 : e' <= -53).
  { revert He'. unfold fexp, emin. rewrite prec_val, emax_val. zfold. lia. }
  assert (Hq' : fexp prec emax (Zdigits2 q + e') <= -52).
  { destruct (Z.eq_dec q 0) as [-> | Hq0].
    - cbn [Zdigits2]. unfold fexp, emin. rewrite prec_val, emax_val. zfold. lia.
    - assert (Hqv : (IZR q * bpow e' < bpow 1)%R).
      { destruct Hloc as [[L _] _]. rewrite shr_record_of_loc_m in L.
        rewrite bpow_1.
        apply Rle_lt_trans with (x * bpow e')%R; [ | lra].
        apply Rmult_le_compat_r; lra. }
      pose proof (digits_of_value q e' 1 ltac:(lia) Hqv).
      unfold fexp, emin. rewrite prec_val, emax_val. zfold. lia. }
  assert (Hmax : Z.max e' (fexp prec emax (Zdigits2 q + e')) <= -52)
    by (zfold; lia).
  assert (Hthr : emax - prec = 971) by reflexivity.
  destruct (binary_round_aux_correct prec emax prec_pos q e' l x Hq Hloc)
    as (Hf & Herr & _).
  - zfold. lia.
  - split; [exact Hf | ].
    apply Rabs_le_inv in Herr.
    pose proof (bpow_le _ _ Hmax) as Hb.
    assert (Hh : bpow (-53) = (bpow (-52) / 2)%R).
    { change (-53) with (-52 - 1). apply bpow_half. }
    lra.
Qed.

Lemma literal_100_00 : decimal 10000 2 = num_100.
Proof. vm_compute. reflexivity. Qed.

(** A ratio of at most 1, as a percentage rounded to two decimals, is at
    most 100. *)
Lemma percentage_at_most_100 q :
  finite_nonneg q -> (B2R q <= 1 + bpow (-53))%R ->
  le (round2 (mul q num_100)) num_100 = true.
Proof.
  intros Fq Hq.
  pose proof (finite_nonneg_B2R q Fq) as Hq0.
  assert (N53 : bpow (-53) = (/ 9007199254740992)%R)
    by exact (bpow_neg 53 ltac:(lia)).
  assert (N45 : bpow (-45) = (/ 35184372088832)%R)
    by exact (bpow_neg 45 ltac:(lia)).
  assert (N39 : bpow (-39) = (/ 549755813888)%R)
    by exact (bpow_neg 39 ltac:(lia)).
  rewrite N53 in Hq.
  assert (H1 : (B2R q < bpow 1)%R) by (rewrite bpow_1; lra).
  destruct (mul_100_correct q 1 Fq H1 ltac:(lia) ltac:(lia)) as (F1 & E1).
  change (1 - 46) with (-45) in E1. rewrite N45 in E1.
  apply Rabs_le_inv in E1.
  remember (mul q num_100) as p1 eqn:Hp1.
  assert (H7 : (B2R p1 < bpow 7)%R) by (rewrite bpow_7; lra).
  destruct (mul_100_correct p1 7 F1 H7 ltac:(lia) ltac:(lia)) as (F2 & E2).
  change (7 - 46) with (-39) in E2. rewrite N39 in E2.
  apply Rabs_le_inv in E2.
  unfold round2.
  destruct F2 as [(s & E) | (m & e & E)].
  - rewrite E. destruct s; reflexivity.
  - pose proof (mul_100_exponent p1 7 m e F1 H7 ltac:(lia) ltac:(lia) E) as He.
    rewrite E in *. cbn [B2R cond_Zopp] in E2.
    rewrite (Math_round_fraction m e ltac:(lia)).
    destruct (Math_round_floor m e ltac:(lia)) as (Hn & Hlo & _).
    set (n := (2 * Z.pos m + 2 ^ (- e)) / 2 ^ (1 - e)) in *.
    assert (Hn' : n <= 10000).
    { assert (H : (IZR n < IZR 10001)%R) by lra.
      apply lt_IZR in H. lia. }
    rewrite <- decimal_2, <- literal_100_00.
    apply (cents_order n 10000); lia.
Qed.

(** X22: on binary64 numbers that pass [validateAdvanceAmount],
    [calculateAdvancePercentage] returns a number between 0 and 100, as
    its documentation says. *)
Theorem calculateAdvancePercentage_range (total advance : value) :
  binary64_value total = true -> binary64_value advance = true ->
  validateAdvanceAmount total advance = Ok true ->
  exists p, calculateAdvancePercentage total advance = Ok p
            /\ ge p num_0 = true /\ le p num_100 = true.
Proof.
  intros Vt Va Hv.
  destruct (validateAdvanceAmount_ok _ _ Hv) as (t & a & -> & -> & Ft & Fa & Hp).
  destruct Hp as (Nt & Na & Hle).
  cbn [binary64_value] in Vt, Va.
  unfold calculateAdvancePercentage. rewrite Hv. cbn [bind number_of].
  destruct (strict_eq t num_0) eqn:E0.
  - exists num_0. repeat split.
  - eexists; split; [reflexivity | ].
    change (div (Math_round (mul (mul (div a t) num_100) num_100)) num_100)
      with (round2 (mul (div a t) num_100)).
    apply nonneg_cases in Nt.
    destruct Nt as [(s & ->) | [(mt & et & ->) | ->]]; try discriminate.
    split.
    + apply round2_nonneg, mul_100_nonneg, div_nonneg, Na.
    + apply nonneg_cases in Na.
      destruct Na as [(s & ->) | [(ma & ea & ->) | ->]]; [ | | discriminate].
      * destruct s; reflexivity.
      * assert (Hval : (B2R (S754_finite false ma ea)
                        <= B2R (S754_finite false mt et))%R).
        { apply le_value; try assumption; right; eauto. }
        cbn [B2R cond_Zopp] in Hval.
        destruct (div_at_most_1 ma ea mt et Hval) as [Fq Hq].
        apply percentage_at_most_100; assumption.
Qed.

Lemma calculateAdvancePercentage_range_witness :
  exists p, calculateAdvancePercentage (VNumber (of_Z 3000)) (VNumber (of_Z 1000))
            = Ok p /\ ge p num_0 = true /\ le p num_100 = true.
Proof.
  apply calculateAdvancePercentage_range; reflexivity.
Defined.

(** ** Canonical results of [binary_normalize] and of a subtraction *)

Lemma binary_normalize_valid m e K :
  0 <= m -> (IZR m * bpow e < bpow K)%R ->
  -1074 <= K - 53 -> K < 1024 ->
  valid_binary prec emax (binary_normalize prec emax m e false) = true.
Proof.
  intros Hm Hv HK1 HK2.
  destruct m as [ | p | p]; try lia; [reflexivity | ].
  cbn [binary_normalize]. unfold binary_round.
  destruct (shl_align_value p e (fexp prec emax (Z.pos (digits2_pos p) + e)))
    as [Ev Es].
  destruct (shl_align p e _) as [mz ez]. cbn [fst snd] in Ev, Es.
  pose proof (bpow_pos e) as Hbe. pose proof (bpow_pos ez) as Hbz.
  assert (Hd : Zdigits2 (Z.pos mz) + ez = Z.pos (digits2_pos p) + e).
  { pose proof (Zdigits2_bounds (Z.pos p) ltac:(lia)) as [_ Up].
    pose proof (Zdigits2_bounds (Z.pos mz) ltac:(lia)) as [_ Uz].
    cbn [Zdigits2] in Up.
    assert (H1 : Zdigits2 (Z.pos mz) + ez <= Z.pos (digits2_pos p) + e).
    { apply digits_of_value; [lia | ].
      rewrite Ev, bpow_add. apply Rmult_lt_compat_r; lra. }
    assert (H2 : Zdigits2 (Z.pos p) + e <= Zdigits2 (Z.pos mz) + ez).
    { apply digits_of_value; [lia | ].
      rewrite <- Ev, bpow_add. apply Rmult_lt_compat_r; lra. }
    cbn [Zdigits2] in H1, H2 |- *. lia. }
  pose proof (digits_of_value (Z.pos p) e K ltac:(lia) Hv) as HdK.
  cbn [Zdigits2] in HdK.
  apply (binary_round_aux_valid prec emax prec_pos (Z.pos mz) ez loc_Exact
           (IZR (Z.pos mz))); [lia | apply located_exact | | ].
  - rewrite Hd. lia.
  - rewrite Hd. unfold fexp, emin. rewrite prec_val, emax_val. zfold. lia.
Qed.

Lemma sub_valid t a K :
  is_binary64 t = true -> is_binary64 a = true ->
  zero_or_positive t -> zero_or_positive a -> le a t = true ->
  (B2R t < bpow K)%R -> -1021 <= K -> K < 1024 ->
  is_binary64 (sub t a) = true.
Proof.
  intros Vt Va Ht Ha Hle Hv HK1 HK2.
  destruct Ha as [-> | (ma & ea & ->)]; destruct Ht as [-> | (mt & et & ->)].
  - reflexivity.
  - exact Vt.
  - discriminate Hle.
  - pose proof Vt as Vt'. pose proof Va as Va'.
    cbn [is_binary64 valid_binary] in Vt', Va'.
    cbn [B2R cond_Zopp] in Hv.
    pose proof (compare_canonical_le prec emax prec_pos ma ea mt et Va' Vt' Hle)
      as Hc.
    unfold is_binary64, sub, SFsub, cond_Zopp. zfold.
    set (ez := Z.min et ea) in *.
    rewrite <- !shl_align_fst in Hc by (subst ez; lia).
    pose proof (aligned_value mt et ez ltac:(subst ez; lia)) as Et.
    pose proof (aligned_value ma ea ez ltac:(subst ez; lia)) as Ea.
    set (Mt := Z.pos (fst (shl_align mt et ez))) in *.
    set (Ma := Z.pos (fst (shl_align ma ea ez))) in *.
    assert (ED : (IZR (Mt - Ma) * bpow ez
                  = IZR (Z.pos mt) * bpow et - IZR (Z.pos ma) * bpow ea)%R).
    { rewrite minus_IZR, Rmult_minus_distr_r, Et, Ea. reflexivity. }
    assert (HA : (0 < IZR (Z.pos ma) * bpow ea)%R).
    { pose proof (bpow_pos ea).
      assert (0 < IZR (Z.pos ma))%R by (apply IZR_lt; lia). nra. }
    apply (binary_normalize_valid (Mt - Ma) ez K); try lia.
    rewrite ED. lra.
Qed.

(** ** The absolute value of a difference *)

Lemma binary_round_abs p e :
  SFabs (binary_round prec emax true p e)
  = SFabs (binary_round prec emax false p e).
Proof.
  unfold binary_round, binary_round_aux.
  destruct (shl_align p e _) as [mz ez].
  destruct (shr_fexp prec emax (Z.pos mz) ez loc_Exact) as [mrs' e'].
  destruct (shr_fexp prec emax _ e' loc_Exact) as [mrs'' e''].
  destruct (shr_m mrs''); try reflexivity.
  destruct (_ <=? _); reflexivity.
Qed.

Lemma binary_normalize_abs m e :
  SFabs (binary_normalize prec emax (- m) e false)
  = SFabs (binary_normalize prec emax m e false).
Proof.
  destruct m as [ | p | p]; cbn [Z.opp binary_normalize];
    [reflexivity | apply binary_round_abs | symmetry; apply binary_round_abs].
Qed.

(** [Math.abs(x - y)] is [Math.abs(y - x)]. *)
Lemma Math_abs_sub_comm mx ex my ey :
  Math_abs (sub (S754_finite false mx ex) (S754_finite false my ey))
  = Math_abs (sub (S754_finite false my ey) (S754_finite false mx ex)).
Proof.
  unfold Math_abs, sub, SFsub, cond_Zopp. zfold.
  rewrite (Z.min_comm ey ex).
  set (A := Z.pos (fst (shl_align mx ex (Z.min ex ey)))).
  set (B := Z.pos (fst (shl_align my ey (Z.min ex ey)))).
  replace (B - A) with (- (A - B)) by lia.
  symmetry. apply binary_normalize_abs.
Qed.

Lemma le_total x y :
  zero_or_positive x -> zero_or_positive y ->
  le x y = true \/ le y x = true.
Proof.
  intros Hx Hy. destruct (gt x y) eqn:G.
  - right. apply lt_le. exact G.
  - left. apply not_gt_le; [ | | exact G]; apply zero_or_positive_not_nan;
      assumption.
Qed.

Lemma Math_abs_sub_swap x y :
  zero_or_positive x -> zero_or_positive y ->
  Math_abs (sub x y) = Math_abs (sub y x).
Proof.
  intros [-> | (mx & ex & ->)] [-> | (my & ey & ->)];
    try reflexivity.
  apply Math_abs_sub_comm.
Qed.

Lemma Math_abs_zero_or_positive x : zero_or_positive x -> Math_abs x = x.
Proof. intros [-> | (m & e & ->)]; reflexivity. Qed.

Lemma num_0_001_value :
  (B2R num_0_001 <= 10001 / 10000000)%R.
Proof.
  unfold num_0_001. cbn [B2R cond_Zopp].
  assert (N62 : bpow (-62) = (/ 4611686018427387904)%R)
    by exact (bpow_neg 62 ltac:(lia)).
  rewrite N62. lra.
Qed.

(** Two amounts below 10^12 that differ by 0.0015 or more are further
    apart than the tolerance of 0.001, also as JavaScript computes it. *)
Lemma far_apart x r :
  is_binary64 x = true -> is_binary64 r = true ->
  zero_or_positive x -> zero_or_positive r ->
  (B2R x < bpow 40)%R -> (B2R r < bpow 40)%R ->
  (15 / 10000 <= Rabs (B2R x - B2R r))%R ->
  gt (Math_abs (sub x r)) num_0_001 = true.
Proof.
  assert (N13 : bpow (-13) = (/ 8192)%R) by exact (bpow_neg 13 ltac:(lia)).
  assert (main : forall t a,
             is_binary64 t = true -> is_binary64 a = true ->
             zero_or_positive t -> zero_or_positive a ->
             (B2R t < bpow 40)%R -> le a t = true ->
             (15 / 10000 <= Rabs (B2R t - B2R a))%R ->
             gt (Math_abs (sub t a)) num_0_001 = true).
  { intros t a Vt Va Pt Pa Ht Hle Hfar.
    destruct (sub_correct t a 40 Vt Va (zero_or_positive_finite _ Pt)
                (zero_or_positive_finite _ Pa) Hle Ht ltac:(lia) ltac:(lia))
      as (Fd & Ed & Hord).
    change (40 - 53) with (-13) in Ed. rewrite N13 in Ed.
    apply Rabs_le_inv in Ed.
    rewrite Rabs_pos_eq in Hfar by lra.
    assert (Pd : zero_or_positive (sub t a)).
    { apply zero_or_positive_sign; [exact Fd | apply sub_sign; assumption]. }
    rewrite (Math_abs_zero_or_positive _ Pd).
    change (lt num_0_001 (sub t a) = true).
    apply lt_of_value.
    - reflexivity.
    - apply (sub_valid t a 40); try assumption; lia.
    - right; eexists; eexists; reflexivity.
    - exact Pd.
    - pose proof num_0_001_value. lra. }
  intros Vx Vr Px Pr Hx Hr Hfar.
  destruct (le_total r x Pr Px) as [Hle | Hle].
  - apply main; assumption.
  - rewrite (Math_abs_sub_swap x r Px Pr).
    apply main; try assumption.
    rewrite Rabs_minus_sym. exact Hfar.
Qed.

(** ** Amounts with a third decimal *)

Definition num_1000 : number := S754_finite false 8796093022208000 (-43).

Example literal_1000 : of_Z 1000 = num_1000.
Proof. reflexivity. Qed.

Lemma num_1000_value : (IZR 8796093022208000 * bpow (-43) = 1000)%R.
Proof.
  change 8796093022208000 with (1000 * 2 ^ 43).
  rewrite mult_IZR, <- bpow_IZR by lia.
  rewrite Rmult_assoc, <- bpow_add. change (43 + -43) with 0.
  rewrite bpow_0. ring.
Qed.

(** The amount of [k] thousandths: the binary64 number nearest to
    [k / 1000]. *)
Lemma thousandths_facts k :
  0 <= k < 10 ^ 15 ->
  zero_or_positive (decimal k 3) /\
  is_binary64 (decimal k 3) = true /\
  (Rabs (B2R (decimal k 3) - IZR k / 1000) <= / 8192)%R.
Proof.
  intros [Hk0 Hk1].
  change (decimal k 3) with (div (of_Z k) num_1000).
  assert (Hk50 : k < 2 ^ 50) by (eapply Z.lt_trans; [exact Hk1 | reflexivity]).
  assert (Hk53 : (IZR k < bpow 53)%R).
  { rewrite bpow_IZR by lia. apply IZR_lt. lia. }
  destruct (of_Z_exact k Hk0 Hk53) as [Fk Ek].
  assert (Hkb : (B2R (of_Z k) < bpow 50)%R).
  { rewrite Ek, bpow_IZR by lia. apply IZR_lt. exact Hk50. }
  assert (H9 : (bpow 9 <= IZR (Z.pos 8796093022208000) * bpow (-43))%R).
  { rewrite num_1000_value, bpow_IZR by lia. simpl. lra. }
  destruct (div_correct (of_Z k) 8796093022208000 (-43) 50 9 Fk Hkb H9
              ltac:(lia) ltac:(lia)) as (Fd & Ed & Vd).
  fold num_1000 in Fd, Ed, Vd.
  split; [ | split; [exact Vd | ]].
  - apply zero_or_positive_sign; [exact Fd | ].
    apply div_sign, binary_normalize_nonneg, Hk0.
  - rewrite Ek, num_1000_value in Ed. change (50 - 9 - 53) with (-12) in Ed.
    assert (N12 : bpow (-12) = (/ 4096)%R) by exact (bpow_neg 12 ltac:(lia)).
    rewrite N12 in Ed. lra.
Qed.

Example one_thousandth_passes :
  validateMonetaryAmount (VNumber (decimal 1 3)) None = Ok true.
Proof. vm_compute. reflexivity. Qed.

(** ** X23: a third decimal is rejected *)

(** X23: an amount of [k] thousandths below 10^12 whose last digit is between 2
    and 8 (as 100.123, and unlike 0.001 or 100.010) does not pass
    [validateMonetaryAmount]: it throws the precision error, which starts
    with the field name. *)
Theorem third_decimal_rejected (k : Z) (fieldName : option string) :
  0 <= k < 10 ^ 15 -> 2 <= k mod 10 <= 8 ->
  validateMonetaryAmount (VNumber (decimal k 3)) fieldName
  = Throw (ExcessPrecision (default_arg fieldName "amount")).
Proof.
  intros Hk Hmod.
  destruct (thousandths_facts k Hk) as (Px & Vx & Ex).
  apply Rabs_le_inv in Ex.
  pose proof (Z.div_mod k 10 ltac:(lia)) as Hdm.
  assert (Hk2 : 2 <= k) by (pose proof (Z.mod_le k 10); lia).
  assert (Hkr : (2 <= IZR k <= 10 ^ 15 - 1)%R).
  { split; [apply IZR_le; exact Hk2 | ].
    replace (10 ^ 15 - 1)%R with (IZR (10 ^ 15 - 1)) by (simpl; lra).
    apply IZR_le. lia. }
  assert (B40 : bpow 40 = 1099511627776%R) by (rewrite bpow_IZR by lia; reflexivity).
  assert (N6 : bpow (-6) = (/ 64)%R) by exact (bpow_neg 6 ltac:(lia)).
  assert (HX40 : (B2R (decimal k 3) < bpow 40)%R) by (rewrite B40; lra).
  pose proof (zero_or_positive_finite _ Px) as Fx.
  (* times 100 *)
  destruct (mul_100_correct _ 40 Fx HX40 ltac:(lia) ltac:(lia)) as (Fp & Ep).
  change (40 - 46) with (-6) in Ep. rewrite N6 in Ep.
  apply Rabs_le_inv in Ep.
  destruct Fp as [(s & E) | (mp & ep & E)].
  { rewrite E in Ep. cbn [B2R] in Ep. lra. }
  pose proof (mul_100_exponent _ 40 mp ep Fx HX40 ltac:(lia) ltac:(lia) E) as He.
  (* rounded to an integer *)
  assert (Er : round2 (decimal k 3)
               = decimal ((2 * Z.pos mp + 2 ^ (- ep)) / 2 ^ (1 - ep)) 2).
  { unfold round2. rewrite E, (Math_round_fraction mp ep ltac:(lia)).
    reflexivity. }
  destruct (Math_round_floor mp ep ltac:(lia)) as (Hn & Hlo & Hhi).
  rewrite E in Ep. cbn [B2R cond_Zopp] in Ep.
  set (n := (2 * Z.pos mp + 2 ^ (- ep)) / 2 ^ (1 - ep)) in *.
  assert (Hn47 : 0 <= n < 2 ^ 47).
  { split; [exact Hn | ].
    assert (H : (IZR n < IZR (2 ^ 47))%R).
    { replace (IZR (2 ^ 47)) with 140737488355328%R by (simpl; lra). lra. }
    apply lt_IZR in H. exact H. }
  destruct (cents_facts n Hn47) as (Pr & Vr & Err).
  apply Rabs_le_inv in Err.
  (* the amount is at least 0.002 away from every cent amount *)
  assert (Hgap : (2 <= IZR k - 10 * IZR n)%R \/ (2 <= 10 * IZR n - IZR k)%R).
  { destruct (Z_le_gt_dec n (k / 10)) as [L | G].
    - left. replace 10%R with (IZR 10) by reflexivity.
      rewrite <- mult_IZR, <- minus_IZR. apply IZR_le. lia.
    - right. replace 10%R with (IZR 10) by reflexivity.
      rewrite <- mult_IZR, <- minus_IZR. apply IZR_le. lia. }
  assert (Hfar : (15 / 10000 <= Rabs (B2R (decimal k 3) - B2R (decimal n 2)))%R).
  { destruct Hgap as [G | G].
    - rewrite Rabs_pos_eq by lra. lra.
    - rewrite Rabs_minus_sym, Rabs_pos_eq by lra. lra. }
  assert (HR40 : (B2R (decimal n 2) < bpow 40)%R) by (rewrite B40; lra).
  pose proof (far_apart _ _ Vx Vr Px Pr HX40 HR40 Hfar) as Hgt.
  unfold validateMonetaryAmount.
  rewrite (zero_or_positive_isFinite _ Px).
  rewrite (nonneg_not_lt _ (zero_or_positive_nonneg _ Px)).
  cbn [negb].
  change (div (Math_round (mul (decimal k 3) num_100)) num_100)
    with (round2 (decimal k 3)).
  rewrite Er, Hgt. reflexivity.
Qed.

Lemma third_decimal_rejected_witness :
  validateMonetaryAmount (VNumber (decimal 100123 3)) (Some "Total monthly salary")
  = Throw "Total monthly salary must have at most 2 decimal places".
Proof.
  apply (third_decimal_rejected 100123 (Some "Total monthly salary"));
    [lia | vm_compute; split; discriminate].
Defined.

(** * C3: advance plus remaining, against the total *)

(** ** The sign and the form of a rounded amount *)

Lemma Math_round_sign x : has_sign false x -> has_sign false (Math_round x).
Proof.
  intros [-> | [(m & e & ->) | ->]];
    [left; reflexivity | | right; right; reflexivity].
  destruct (Z_le_gt_dec 0 e) as [He | He].
  - unfold Math_round.
    replace (0 <=? e) with true by (symmetry; apply Z.leb_le; exact He).
    right; left; eauto.
  - rewrite (Math_round_fraction m e ltac:(lia)).
    destruct (Math_round_floor m e ltac:(lia)) as (Hn & _).
    apply binary_normalize_nonneg. exact Hn.
Qed.

Lemma mul_100_sign x : has_sign false x -> has_sign false (mul x num_100).
Proof.
  intros [-> | [(m & e & ->) | ->]];
    [left; reflexivity | | right; right; reflexivity].
  unfold mul, num_100, SFmul.
  apply (binary_round_aux_sign prec emax false). lia.
Qed.

Lemma round2_sign x : has_sign false x -> has_sign false (round2 x).
Proof.
  intros H. unfold round2, num_100.
  apply div_sign. apply Math_round_sign, mul_100_sign, H.
Qed.

(** Rounding an amount below 10^12 to two decimals gives a canonical
    binary64 number. *)
Lemma round2_valid x :
  finite_nonneg x -> (B2R x < bpow 41)%R -> is_binary64 (round2 x) = true.
Proof.
  intros Fx Hx.
  pose proof (finite_nonneg_B2R x Fx) as Hx0.
  assert (B41 : bpow 41 = 2199023255552%R) by (rewrite bpow_IZR by lia; reflexivity).
  assert (B48 : bpow 48 = 281474976710656%R) by (rewrite bpow_IZR by lia; reflexivity).
  assert (B52 : bpow 52 = 4503599627370496%R) by (rewrite bpow_IZR by lia; reflexivity).
  assert (N5 : bpow (-5) = (/ 32)%R) by exact (bpow_neg 5 ltac:(lia)).
  destruct (mul_100_correct x 41 Fx Hx ltac:(lia) ltac:(lia)) as (Fp & Ep).
  change (41 - 46) with (-5) in Ep. rewrite N5 in Ep.
  apply Rabs_le_inv in Ep.
  assert (HP52 : (B2R (mul x num_100) < bpow 52)%R) by lra.
  destruct (Math_round_correct _ Fp HP52) as (k & Hk & Fn & En & Ek).
  apply Rabs_le_inv in Ek.
  assert (HN48 : (B2R (Math_round (mul x num_100)) < bpow 48)%R)
    by (rewrite En; lra).
  unfold round2.
  apply (div_100_valid _ 48 Fn HN48); lia.
Qed.

(** ** The sum of two amounts *)

Lemma add_shape a q K :
  is_binary64 a = true -> is_binary64 q = true ->
  finite_nonneg a -> zero_or_positive q ->
  (B2R a + B2R q < bpow K)%R -> -1021 <= K -> K < 1024 ->
  zero_or_positive (add a q) /\ is_binary64 (add a q) = true.
Proof.
  intros Va Vq Fa Pq Hv HK1 HK2.
  destruct Fa as [(sa & ->) | (ma & ea & ->)];
    destruct Pq as [-> | (mq & eq & ->)].
  - split; [left; destruct sa; reflexivity | destruct sa; reflexivity].
  - split; [right; eexists; eexists; reflexivity | exact Vq].
  - split; [right; eexists; eexists; reflexivity | exact Va].
  - destruct (add_correct (S754_finite false ma ea) (S754_finite false mq eq) K
                Va ltac:(right; eauto) ltac:(right; eauto) Hv HK1 HK2)
      as (Fs & _).
    cbn [B2R cond_Zopp] in Hv.
    unfold is_binary64, add, SFadd, cond_Zopp in *. zfold.
    set (ez := Z.min ea eq) in *.
    pose proof (aligned_value ma ea ez ltac:(subst ez; lia)) as Ea.
    pose proof (aligned_value mq eq ez ltac:(subst ez; lia)) as Eq.
    set (Ma := Z.pos (fst (shl_align ma ea ez))) in *.
    set (Mq := Z.pos (fst (shl_align mq eq ez))) in *.
    assert (ES : (IZR (Ma + Mq) * bpow ez
                  = IZR (Z.pos ma) * bpow ea + IZR (Z.pos mq) * bpow eq)%R).
    { rewrite plus_IZR, Rmult_plus_distr_r, Ea, Eq. reflexivity. }
    split.
    + apply zero_or_positive_sign; [exact Fs | ].
      apply binary_normalize_nonneg. subst Ma Mq. lia.
    + apply (binary_normalize_valid (Ma + Mq) ez K);
        [subst Ma Mq; lia | rewrite ES; exact Hv | lia | lia].
Qed.

(** ** The check [Math.abs(sum - total) < 0.01] *)

Lemma n_0_01_value : (99999 / 10000000 <= B2R n_0_01)%R.
Proof.
  unfold n_0_01. cbn [B2R cond_Zopp].
  assert (N59 : bpow (-59) = (/ 576460752303423488)%R)
    by exact (bpow_neg 59 ltac:(lia)).
  rewrite N59. lra.
Qed.

(** Two amounts below 10^12 that differ by 0.007 or less are within the
    tolerance of 0.01, also as JavaScript computes it. *)
Lemma close_together s t :
  is_binary64 s = true -> is_binary64 t = true ->
  zero_or_positive s -> zero_or_positive t ->
  (B2R s < bpow 41)%R -> (B2R t < bpow 41)%R ->
  (Rabs (B2R s - B2R t) <= 7 / 1000)%R ->
  lt (Math_abs (sub s t)) n_0_01 = true.
Proof.
  assert (N12 : bpow (-12) = (/ 4096)%R) by exact (bpow_neg 12 ltac:(lia)).
  assert (main : forall x y,
             is_binary64 x = true -> is_binary64 y = true ->
             zero_or_positive x -> zero_or_positive y ->
             (B2R x < bpow 41)%R -> le y x = true ->
             (Rabs (B2R x - B2R y) <= 7 / 1000)%R ->
             lt (Math_abs (sub x y)) n_0_01 = true).
  { intros x y Vx Vy Px Py Hx Hle Hnear.
    destruct (sub_correct x y 41 Vx Vy (zero_or_positive_finite _ Px)
                (zero_or_positive_finite _ Py) Hle Hx ltac:(lia) ltac:(lia))
      as (Fd & Ed & Hord).
    change (41 - 53) with (-12) in Ed. rewrite N12 in Ed.
    apply Rabs_le_inv in Ed. apply Rabs_le_inv in Hnear.
    assert (Pd : zero_or_positive (sub x y)).
    { apply zero_or_positive_sign; [exact Fd | apply sub_sign; assumption]. }
    rewrite (Math_abs_zero_or_positive _ Pd).
    apply lt_of_value.
    - apply (sub_valid x y 41); try assumption; lia.
    - reflexivity.
    - exact Pd.
    - right; eexists; eexists; reflexivity.
    - pose proof n_0_01_value. lra. }
  intros Vs Vt Ps Pt Hs Ht Hnear.
  destruct (le_total t s Pt Ps) as [Hle | Hle].
  - apply main; assumption.
  - rewrite (Math_abs_sub_swap s t Ps Pt).
    apply main; try assumption.
    rewrite Rabs_minus_sym. exact Hnear.
Qed.

(** ** The invariant fails for very large amounts *)

Definition n_7865406667228739 : number := S754_finite false 7865406667228739 0.
Definition n_1 : number := S754_finite false 4503599627370496 (-52).

Example literal_7865406667228739 : of_Z 7865406667228739 = n_7865406667228739.
Proof. vm_compute. reflexivity. Qed.

Example literal_1 : of_Z 1 = n_1.
Proof. vm_compute. reflexivity. Qed.

(** C3, refuted as stated: the total 7865406667228739 and the advance 1
    pass [validateAdvanceAmount], the remaining salary comes out as the
    total itself, and advance + remaining is total + 1, so
    [Math.abs(sum - total)] is 1 and not below 0.01. *)
Lemma sum_off_by_one :
  validateAdvanceAmount (VNumber n_7865406667228739) (VNumber n_1) = Ok true
  /\ calculateRemainingSalary (VNumber n_7865406667228739) (VNumber n_1)
     = Ok n_7865406667228739
  /\ add n_1 n_7865406667228739 = of_Z 7865406667228740
  /\ Math_abs (sub (add n_1 n_7865406667228739) n_7865406667228739) = n_1
  /\ lt n_1 n_0_01 = false
  /\ (B2R n_1 + B2R n_7865406667228739 - B2R n_7865406667228739 = 1)%R.
Proof.
  repeat split; try (vm_compute; reflexivity).
  unfold n_1, n_7865406667228739. cbn [B2R cond_Zopp].
  assert (N52 : bpow (-52) = (/ 4503599627370496)%R)
    by exact (bpow_neg 52 ltac:(lia)).
  rewrite N52. field.
Qed.

(** The tolerance already fails for two cent amounts near 2 * 10^13. *)
Example sum_off_above_2e13 :
  validateAdvanceAmount (VNumber (decimal 2139667755668001 2))
    (VNumber (decimal 367593172605767 2)) = Ok true
  /\ calculateRemainingSalary (VNumber (decimal 2139667755668001 2))
       (VNumber (decimal 367593172605767 2))
     = Ok (decimal 1772074583062235 2)
  /\ lt (Math_abs (sub (add (decimal 367593172605767 2)
                           (decimal 1772074583062235 2))
                      (decimal 2139667755668001 2))) n_0_01 = false.
Proof. repeat split; vm_compute; reflexivity. Qed.

(** ** The invariant holds for amounts below 10^12 *)

(** C3, amended: for binary64 amounts that pass [validateAdvanceAmount],
    with a total below 10^12, [calculateRemainingSalary] returns a number
    [r] such that advance + r is within 0.01 of the total: the exact sum,
    the sum JavaScript computes, and the check
    [Math.abs(advance + r - total) < 0.01] as JavaScript evaluates it. *)
Theorem sum_within_tolerance (total advance : value) :
  binary64_value total = true -> binary64_value advance = true ->
  validateAdvanceAmount total advance = Ok true ->
  lt (number_of total) num_1e12 = true ->
  exists r,
    calculateRemainingSalary total advance = Ok r
    /\ (Rabs (B2R (number_of advance) + B2R r - B2R (number_of total))
        < 1 / 100)%R
    /\ (Rabs (B2R (add (number_of advance) r) - B2R (number_of total))
        < 1 / 100)%R
    /\ lt (Math_abs (sub (add (number_of advance) r) (number_of total)))
          n_0_01 = true.
Proof.
  intros Vt Va Hv Hlt.
  destruct (validateAdvanceAmount_ok _ _ Hv) as (t & a & -> & -> & Ft & Fa & Hp).
  cbn [binary64_value number_of] in *.
  destruct (remaining_error t a Vt Va Hp Hlt) as (Fr & Er & Fs & Es).
  exists (round2 (sub t a)).
  split; [apply calculateRemainingSalary_on_valid, Hp | ].
  split; [ | split].
  - replace (B2R a + B2R (round2 (sub t a)) - B2R t)%R
      with (B2R (round2 (sub t a)) - (B2R t - B2R a))%R by ring.
    eapply Rle_lt_trans; [exact Er | lra].
  - eapply Rle_lt_trans; [exact Es | lra].
  - destruct Hp as (Nt & Na & Hle).
    destruct (below_1e12 t Vt Nt Hlt) as [Ft' HT].
    assert (Fa' : finite_nonneg a).
    { apply nonneg_cases in Na.
      destruct Na as [(sa & ->) | [(ma & ea & ->) | ->]];
        [left; eauto | right; eauto | discriminate Fa]. }
    destruct Ft' as [(st & ->) | (mt & et & ->)].
    + (* a total of zero: the advance is zero too *)
      destruct Fa' as [(sa & ->) | (ma & ea & ->)]; [ | discriminate Hle].
      destruct st, sa; vm_compute; reflexivity.
    + assert (Pt : zero_or_positive (S754_finite false mt et)) by (right; eauto).
      remember (S754_finite false mt et) as t eqn:Ht_def.
      assert (B40 : bpow 40 = 1099511627776%R)
        by (rewrite bpow_IZR by lia; reflexivity).
      assert (B41 : bpow 41 = 2199023255552%R)
        by (rewrite bpow_IZR by lia; reflexivity).
      assert (B42 : bpow 42 = 4398046511104%R)
        by (rewrite bpow_IZR by lia; reflexivity).
      assert (N13 : bpow (-13) = (/ 8192)%R) by exact (bpow_neg 13 ltac:(lia)).
      pose proof (finite_nonneg_B2R a Fa') as HA0.
      destruct (sub_correct t a 40 Vt Va (zero_or_positive_finite _ Pt) Fa'
                  Hle HT ltac:(lia) ltac:(lia)) as (Fd & Ed & HAT).
      change (40 - 53) with (-13) in Ed. rewrite N13 in Ed.
      apply Rabs_le_inv in Ed. apply Rabs_le_inv in Er.
      apply Rabs_le_inv in Es.
      assert (Sd : has_sign false (sub t a)).
      { destruct Fa' as [(sa & ->) | (ma & ea & ->)].
        - rewrite Ht_def. right; left; eexists; eexists; reflexivity.
        - apply sub_sign; try assumption. right; eauto. }
      assert (Pr : zero_or_positive (round2 (sub t a))).
      { apply zero_or_positive_sign; [exact Fr | apply round2_sign, Sd]. }
      assert (Vr : is_binary64 (round2 (sub t a)) = true).
      { apply round2_valid; [exact Fd | lra]. }
      destruct (add_shape a (round2 (sub t a)) 42 Va Vr Fa' Pr)
        as [Ps Vs]; [lra | lia | lia | ].
      apply close_together; try assumption; try lra.
      apply Rabs_le. lra.
Qed.

Lemma sum_within_tolerance_witness :
  exists r,
    calculateRemainingSalary (VNumber (decimal 333333 2))
      (VNumber (decimal 111111 2)) = Ok r
    /\ (Rabs (B2R (decimal 111111 2) + B2R r - B2R (decimal 333333 2))
        < 1 / 100)%R
    /\ (Rabs (B2R (add (decimal 111111 2) r) - B2R (decimal 333333 2))
        < 1 / 100)%R
    /\ lt (Math_abs (sub (add (decimal 111111 2) r) (decimal 333333 2)))
          n_0_01 = true.
Proof.
  apply (sum_within_tolerance (VNumber (decimal 333333 2))
           (VNumber (decimal 111111 2))); reflexivity.
Defined.
